(** * Docker tarball ingestion and registry push pipeline of the buco backend

    A shallow embedding of the upload route [POST /api/upload-docker-tar] of
    the Express server and of the four functions behind it:
    [validateDockerTarFile], [loadDockerImagesFromTar],
    [pushImagesToLocalRegistry] and [processDockerTarFile].

    The JavaScript code is asynchronous but strictly sequential (every
    subprocess and file-system call is awaited), so it is modelled as a
    state-and-exception monad.  The state is the history of interactions
    with the outside world (subprocesses, file system, HTTP response)
    together with the mutable [results] object of the running function.
    The outside world is an oracle that answers each interaction from the
    history so far; nothing is assumed about it.  Console logging is not
    observable by the caller and is left out.

    The second part covers what surrounds the pipeline in the same server:
    the multer configuration of the upload, the status, pull and self-test
    routes with [getDockerImagesStatus] and [pullImageFromRegistry], the
    container status of the services, and the message the dashboard
    derives from the result of an upload. *)

From Stdlib Require Import String Ascii List NArith Bool Arith Lia DecimalString.
Import ListNotations.
Open Scope string_scope.

Set Implicit Arguments.

(** ** JavaScript string and array primitives used by the pipeline

    A string is its sequence of code units; the embedding covers code units
    below 256. *)
Module Js.

(** The double-quote character of the shell command lines. *)
Definition dq : string := String (ascii_of_nat 34) EmptyString.
Definition lf : ascii := ascii_of_nat 10.
Definition cr : ascii := ascii_of_nat 13.

Definition quoted (s : string) : string := dq ++ s ++ dq.

(** [! s] on a string: the empty string is falsy. *)
Definition is_empty (s : string) : bool :=
  match s with EmptyString => true | String _ _ => false end.

Fixpoint drop (n : nat) (s : string) : string :=
  match n, s with
  | O, _ => s
  | S _, EmptyString => EmptyString
  | S n', String _ s' => drop n' s'
  end.

(** [s.includes(sub)] *)
Fixpoint includes (sub s : string) : bool :=
  prefix sub s ||
  match s with
  | EmptyString => false
  | String _ s' => includes sub s'
  end.

(** [s.split(sep)] for a one-character separator: never an empty array. *)
Fixpoint split (sep : ascii) (s : string) : list string :=
  match s with
  | EmptyString => [EmptyString]
  | String c s' =>
      if Ascii.eqb c sep then EmptyString :: split sep s'
      else match split sep s' with
           | [] => [String c EmptyString]
           | h :: t => String c h :: t
           end
  end.

(** [arr.pop()] on a freshly built array: its last element. *)
Definition pop (l : list string) : string := last l EmptyString.

(** [s.replace(pat, '')] with a string pattern: the first occurrence of
    [pat] is removed. *)
Fixpoint replace_first (pat s : string) : string :=
  if prefix pat s then drop (String.length pat) s
  else match s with
       | EmptyString => EmptyString
       | String c s' => String c (replace_first pat s')
       end.

(** White space removed by [trim()]: TAB, LF, VT, FF, CR, SP and NBSP. *)
Definition is_space (c : ascii) : bool :=
  match nat_of_ascii c with
  | 9 | 10 | 11 | 12 | 13 | 32 | 160 => true
  | _ => false
  end.

Fixpoint trim_start (s : string) : string :=
  match s with
  | EmptyString => EmptyString
  | String c s' => if is_space c then trim_start s' else s
  end.

Fixpoint trim_end (s : string) : string :=
  match s with
  | EmptyString => EmptyString
  | String c s' =>
      let r := trim_end s' in
      if is_empty r && is_space c then EmptyString else String c r
  end.

Definition trim (s : string) : string := trim_end (trim_start s).

(** Line terminators, which the regular expression atom [.] refuses. *)
Definition is_line_terminator (c : ascii) : bool :=
  Ascii.eqb c lf || Ascii.eqb c cr.

(** The longest run of non-terminators at the head of [s]: what a greedy
    [.+] or [.*] consumes. *)
Fixpoint take_line (s : string) : string :=
  match s with
  | EmptyString => EmptyString
  | String c s' =>
      if is_line_terminator c then EmptyString else String c (take_line s')
  end.

(** One attempt of the regular expression [/<lit>(.+)/] at the head of
    [s]: the matched text, if any. *)
Definition match_here (lit s : string) : option string :=
  if prefix lit s then
    match take_line (drop (String.length lit) s) with
    | EmptyString => None
    | rest => Some (lit ++ rest)
    end
  else None.

(** [s.match(/<lit>(.+)/g)]: every match, left to right, the search
    resuming where the previous match ended.  [skip] counts the code
    units of the current match that are still to be stepped over.  The
    empty list stands for JavaScript's [null]. *)
Fixpoint match_all_from (skip : nat) (lit s : string) : list string :=
  match s with
  | EmptyString => []
  | String _ s' =>
      match skip with
      | S k => match_all_from k lit s'
      | O =>
          match match_here lit s with
          | Some m => m :: match_all_from (String.length m - 1) lit s'
          | None => match_all_from 0 lit s'
          end
      end
  end.

Definition match_all (lit s : string) : list string := match_all_from 0 lit s.

End Js.

(** ** Data model *)

(** Outcome of [execPromise(cmd)]: the two output streams, or a rejection
    carrying [error.message]. *)
Record ExecOutput := { stdout : string; stderr : string }.

Inductive ExecResult :=
| ExecOk (out : ExecOutput)
| ExecFail (message : string).

(** What the code reads from [fs.stat]: [isFile()] and [size]. *)
Record Stats := { isFile : bool; size : N }.

(** The command lines the pipeline hands to the shell. *)
Inductive Cmd :=
| TarListHead (tarFilePath : string)
| TarList (tarFilePath : string)
| DockerVersion
| DockerLoad (tarFilePath : string)
| DockerInspect (imageId : string)
| DockerImages
| CurlRegistry (localRegistryUrl : string)
| DockerTag (imageName target : string)
| DockerPush (target : string)
| DockerRmi (target : string).

Definition render (c : Cmd) : string :=
  match c with
  | TarListHead p => "tar -tf " ++ Js.quoted p ++ " | head -10"
  | TarList p => "tar -tf " ++ Js.quoted p
  | DockerVersion => "docker version"
  | DockerLoad p => "docker load -i " ++ Js.quoted p
  | DockerInspect i =>
      "docker inspect " ++ i ++ " --format='{{range .RepoTags}}{{.}} {{end}}'"
  | DockerImages =>
      "docker images --format " ++ Js.quoted "{{.Repository}}:{{.Tag}}"
      ++ " --filter " ++ Js.quoted "dangling=false" ++ " | head -20"
  | CurlRegistry u =>
      "curl -f http://" ++ u ++ "/v2/ || echo "
      ++ Js.quoted "Registry not accessible via HTTP"
  | DockerTag i t => "docker tag " ++ Js.quoted i ++ " " ++ Js.quoted t
  | DockerPush t => "docker push " ++ Js.quoted t
  | DockerRmi t => "docker rmi " ++ Js.quoted t
  end.

Record ValidationResult := { isValid : bool; error : option string }.

Record LoadResult := {
  images : list string;
  load_errors : list string;
  load_warnings : list string
}.

Inductive PushStatus := success | failed.
Inductive PushType := original | latest.

Record PushOutcome := {
  originalName : string;
  localName : string;
  registryUrl : string;
  tag : string;
  status : PushStatus;
  type : PushType;
  push_error : option string
}.

Record PushResult := {
  pushed : list PushOutcome;
  push_errors : list string;
  push_warnings : list string
}.

Record PipelineResult := {
  loadedImages : list string;
  pushedImages : list PushOutcome;
  errors : list string;
  warnings : list string
}.

(** The uploaded file as multer hands it over in [req.file]. *)
Record File := { filename : string; path : string }.

(** JSON bodies the upload route answers with. *)
Inductive Body :=
| ErrorBody (error : string) (details : option string)
| UploadBody (message file : string) (dockerResult : PipelineResult).

Record Response := { statusCode : N; body : Body }.

(** ** The outside world *)

Inductive Event :=
| EvStat (p : string) (r : Stats + string)
| EvPathExists (p : string) (r : bool)
| EvUnlink (p : string) (r : option string)
| EvExec (c : Cmd) (r : ExecResult)
| EvRespond (r : Response).

(** Histories are kept newest first. *)
Definition Trace := list Event.

(** The environment answers from the history so far.  [fs_stat] rejects with
    [inr message]; [fs_unlink] succeeds with [None] and rejects with
    [Some message]. *)
Record World := {
  env_LOCAL_REGISTRY_URL : option string;
  w_exec : Trace -> string -> ExecResult;
  w_stat : Trace -> string -> Stats + string;
  w_pathExists : Trace -> string -> bool;
  w_unlink : Trace -> string -> option string
}.

(** ** The monad: exceptions, history and the function's mutable object *)

Inductive Outcome (A : Type) :=
| Returned (a : A)
| Thrown (message : string).
Arguments Thrown {A} message.

Definition M (R A : Type) : Type := R -> Trace -> Outcome A * R * Trace.

Definition ret {R A} (a : A) : M R A := fun r t => (Returned a, r, t).

Definition bind {R A B} (m : M R A) (f : A -> M R B) : M R B :=
  fun r t =>
    match m r t with
    | (Returned a, r', t') => f a r' t'
    | (Thrown e, r', t') => (Thrown e, r', t')
    end.

Definition throw {R A} (message : string) : M R A :=
  fun r t => (Thrown message, r, t).

(** [try { m } catch (e) { h e.message }]: mutations made before the throw
    stay visible to the handler. *)
Definition try_catch {R A} (m : M R A) (h : string -> M R A) : M R A :=
  fun r t =>
    match m r t with
    | (Returned a, r', t') => (Returned a, r', t')
    | (Thrown e, r', t') => h e r' t'
    end.

Definition get {R} : M R R := fun r t => (Returned r, r, t).
Definition modify {R} (f : R -> R) : M R unit := fun r t => (Returned tt, f r, t).

(** A call: the callee works on its own fresh object, the caller's object is
    untouched. *)
Definition call {R R' A} (init : R') (m : M R' A) : M R A :=
  fun r t => let '(o, _, t') := m init t in (o, r, t').

Declare Scope js_scope.
Delimit Scope js_scope with js.
Notation "x <- c1 ;; c2" := (bind c1 (fun x => c2))
  (at level 61, c1 at next level, right associativity) : js_scope.
Notation "c1 ;; c2" := (bind c1 (fun _ => c2))
  (at level 61, right associativity) : js_scope.
Open Scope js_scope.

Fixpoint forEach {R A} (l : list A) (f : A -> M R unit) : M R unit :=
  match l with
  | [] => ret tt
  | x :: l' => f x ;; forEach l' f
  end.

Section Pipeline.

Variable w : World.

(** *** Effects *)

Definition execPromise {R} (c : Cmd) : M R ExecOutput :=
  fun r t =>
    let res := w_exec w t (render c) in
    (match res with
     | ExecOk out => Returned out
     | ExecFail e => Thrown e
     end, r, EvExec c res :: t).

Definition fs_stat {R} (p : string) : M R Stats :=
  fun r t =>
    let res := w_stat w t p in
    (match res with
     | inl st => Returned st
     | inr e => Thrown e
     end, r, EvStat p res :: t).

Definition fs_pathExists {R} (p : string) : M R bool :=
  fun r t => let b := w_pathExists w t p in (Returned b, r, EvPathExists p b :: t).

Definition fs_unlink {R} (p : string) : M R unit :=
  fun r t =>
    let res := w_unlink w t p in
    (match res with
     | None => Returned tt
     | Some e => Thrown e
     end, r, EvUnlink p res :: t).

Definition respond {R} (code : N) (b : Body) : M R unit :=
  fun r t => (Returned tt, r, EvRespond {| statusCode := code; body := b |} :: t).

(** [console.warn]: not observable. *)
Definition console_warn {R} (message : string) : M R unit := ret tt.

(** *** Tar validator *)

Definition invalid (e : string) : ValidationResult :=
  {| isValid := false; error := Some e |}.
Definition valid : ValidationResult := {| isValid := true; error := None |}.

Definition max_tar_size : N := 5 * 1024 * 1024 * 1024.

Definition validateDockerTarFile {R} (tarFilePath : string) : M R ValidationResult :=
  try_catch
    (stats <- fs_stat tarFilePath ;;
     if negb (isFile stats) then ret (invalid "Uploaded file is not a valid file")
     else if (size stats =? 0)%N then ret (invalid "Tar file is empty")
     else if (max_tar_size <? size stats)%N then
       ret (invalid "Tar file is too large (max 5GB)")
     else
       try_catch
         (_ <- execPromise (TarListHead tarFilePath) ;;
          full <- execPromise (TarList tarFilePath) ;;
          let fullList := stdout full in
          (if negb (Js.includes "manifest.json" fullList)
              && negb (Js.includes ".json" fullList)
           then console_warn
                  "Tar file may not be a Docker image tar (no manifest.json found)"
           else ret tt) ;;
          ret valid)
         (fun tarError => ret (invalid "File is not a valid tar archive")))
    (fun e => ret (invalid ("Validation failed: " ++ e))).


(** *** Image loader *)

Definition emptyLoad : LoadResult :=
  {| images := []; load_errors := []; load_warnings := [] |}.

(** [results.images.push(...l)], [results.warnings.push(m)] and
    [results.errors.push(m)] on the loader's object. *)
Definition images_push (l : list string) (r : LoadResult) : LoadResult :=
  {| images := images r ++ l; load_errors := load_errors r;
     load_warnings := load_warnings r |}.
Definition load_warnings_push (m : string) (r : LoadResult) : LoadResult :=
  {| images := images r; load_errors := load_errors r;
     load_warnings := load_warnings r ++ [m] |}.
Definition load_errors_push (m : string) (r : LoadResult) : LoadResult :=
  {| images := images r; load_errors := load_errors r ++ [m];
     load_warnings := load_warnings r |}.

Definition NoImagesLoaded : string :=
  "No Docker images were successfully loaded from the tar file".

(** [match.replace('Loaded image: ', '').trim()] *)
Definition loadedImageName (m : string) : string :=
  Js.trim (Js.replace_first "Loaded image: " m).

(** [match.replace('Loaded image ID: ', '').trim()] *)
Definition loadedImageId (m : string) : string :=
  Js.trim (Js.replace_first "Loaded image ID: " m).

(** [inspectOutput.trim().split(' ').filter(tag => tag && tag !== '<none>')] *)
Definition repoTags (inspectOutput : string) : list string :=
  filter (fun tag => negb (Js.is_empty tag) && negb (String.eqb tag "<none>"))
         (Js.split " " (Js.trim inspectOutput)).

(** [imagesOutput.trim().split('\n').filter(img => img &&
    img !== '<none>:<none>' && img.trim() !== '')] *)
Definition recentImages (imagesOutput : string) : list string :=
  filter (fun img => negb (Js.is_empty img)
                     && negb (String.eqb img "<none>:<none>")
                     && negb (Js.is_empty (Js.trim img)))
         (Js.split Js.lf (Js.trim imagesOutput)).

Definition inspectWarning (imageId : string) : string :=
  "Loaded image with ID " ++ imageId ++ " but couldn't determine name".

Definition recentImagesWarning : string :=
  "Could not parse loaded images from docker load output, using recently available images".

(** Body of the loop over the [Loaded image ID] matches. *)
Definition inspectImageId (m : string) : M LoadResult unit :=
  let imageId := loadedImageId m in
  try_catch
    (inspect <- execPromise (DockerInspect imageId) ;;
     modify (images_push (repoTags (stdout inspect))))
    (fun inspectError => modify (load_warnings_push (inspectWarning imageId))).

(** The last resort: the images the engine lists first. *)
Definition findRecentImages : M LoadResult unit :=
  try_catch
    (listed <- execPromise DockerImages ;;
     let recent := recentImages (stdout listed) in
     if (0 <? length recent)%nat then
       modify (load_warnings_push recentImagesWarning) ;;
       modify (images_push (firstn 5 recent))
     else ret tt)
    (fun imagesError => modify (load_warnings_push "Could not determine loaded images")).

Definition loadDockerImagesFromTar {R} (tarFilePath : string) : M R LoadResult :=
  call emptyLoad
    (try_catch
       (found <- fs_pathExists tarFilePath ;;
        if negb found then throw "Tar file not found"
        else
          loaded <- execPromise (DockerLoad tarFilePath) ;;
          (if negb (Js.is_empty (stderr loaded))
              && (Js.includes "Error" (stderr loaded)
                  || Js.includes "failed" (stderr loaded))
           then modify (load_warnings_push ("Docker load warning: " ++ stderr loaded))
           else ret tt) ;;
          forEach (Js.match_all "Loaded image: " (stdout loaded))
                  (fun m => modify (images_push [loadedImageName m])) ;;
          results <- get ;;
          (if (length (images results) =? 0)%nat then
             forEach (Js.match_all "Loaded image ID: " (stdout loaded)) inspectImageId ;;
             results <- get ;;
             if (length (images results) =? 0)%nat then findRecentImages else ret tt
           else ret tt) ;;
          results <- get ;;
          (if (length (images results) =? 0)%nat
           then modify (load_errors_push NoImagesLoaded)
           else ret tt) ;;
          get)
       (fun e =>
          ret {| images := [];
                 load_errors := ["Failed to load images from tar: " ++ e];
                 load_warnings := [] |})).

(** *** Registry pusher *)

Definition emptyPush : PushResult :=
  {| pushed := []; push_errors := []; push_warnings := [] |}.

Definition pushed_push (o : PushOutcome) (r : PushResult) : PushResult :=
  {| pushed := pushed r ++ [o]; push_errors := push_errors r;
     push_warnings := push_warnings r |}.
Definition push_errors_push (m : string) (r : PushResult) : PushResult :=
  {| pushed := pushed r; push_errors := push_errors r ++ [m];
     push_warnings := push_warnings r |}.
Definition push_warnings_push (m : string) (r : PushResult) : PushResult :=
  {| pushed := pushed r; push_errors := push_errors r;
     push_warnings := push_warnings r ++ [m] |}.

(** [process.env.LOCAL_REGISTRY_URL || '100.103.254.213:5001'] *)
Definition localRegistryUrl : string :=
  match env_LOCAL_REGISTRY_URL w with
  | Some u => if Js.is_empty u then "100.103.254.213:5001" else u
  | None => "100.103.254.213:5001"
  end.

(** [imageName.includes('/') ? imageName.split('/').pop() : imageName] *)
Definition imageBaseName (imageName : string) : string :=
  if Js.includes "/" imageName then Js.pop (Js.split "/" imageName) else imageName.

(** [const [repoName, originalTag = 'latest'] = imageBaseName.split(':')] *)
Definition repoName (imageName : string) : string :=
  nth 0 (Js.split ":" (imageBaseName imageName)) "undefined".
Definition originalTag (imageName : string) : string :=
  nth 1 (Js.split ":" (imageBaseName imageName)) "latest".

Definition originalLocalImageName (url imageName : string) : string :=
  url ++ "/" ++ repoName imageName ++ ":" ++ originalTag imageName.
Definition latestLocalImageName (url imageName : string) : string :=
  url ++ "/" ++ repoName imageName ++ ":latest".

Definition outcome (url imageName : string) (ty : PushType) (st : PushStatus)
           (e : option string) : PushOutcome :=
  {| originalName := imageName;
     localName := match ty with
                  | original => originalLocalImageName url imageName
                  | latest => latestLocalImageName url imageName
                  end;
     registryUrl := url;
     tag := match ty with original => originalTag imageName | latest => "latest" end;
     status := st;
     type := ty;
     push_error := e |}.

(** The warning on a push whose standard error mentions a problem. *)
Definition pushStderrWarning (target : string) (out : ExecOutput) : M PushResult unit :=
  if negb (Js.is_empty (stderr out))
     && (Js.includes "error" (stderr out) || Js.includes "failed" (stderr out))
  then modify (push_warnings_push ("Push warning for " ++ target ++ ": " ++ stderr out))
  else ret tt.

(** [docker rmi] of a local tag: failures are only logged. *)
Definition cleanupLocalTag (target : string) : M PushResult unit :=
  try_catch (execPromise (DockerRmi target) ;; ret tt) (fun cleanupError => ret tt).

(** Body of the loop over [imageNames]. *)
Definition pushImage (url imageName : string) : M PushResult unit :=
  try_catch
    (let originalLocal := originalLocalImageName url imageName in
     let latestLocal := latestLocalImageName url imageName in
     execPromise (DockerTag imageName originalLocal) ;;
     originalOut <- execPromise (DockerPush originalLocal) ;;
     pushStderrWarning originalLocal originalOut ;;
     execPromise (DockerTag imageName latestLocal) ;;
     latestOut <- execPromise (DockerPush latestLocal) ;;
     pushStderrWarning latestLocal latestOut ;;
     modify (pushed_push (outcome url imageName original success None)) ;;
     modify (pushed_push (outcome url imageName latest success None)) ;;
     cleanupLocalTag originalLocal ;;
     cleanupLocalTag latestLocal)
    (fun pushError =>
       modify (push_errors_push ("Failed to push " ++ imageName ++ ": " ++ pushError)) ;;
       modify (pushed_push (outcome url imageName original failed (Some pushError))) ;;
       modify (pushed_push (outcome url imageName latest failed (Some pushError)))).

(** The advisory reachability probe of the registry. *)
Definition probeRegistry (url : string) : M PushResult unit :=
  try_catch
    (registryTest <- execPromise (CurlRegistry url) ;;
     if Js.includes "Registry not accessible" (stdout registryTest) then
       modify (push_warnings_push
                 ("Local registry at " ++ url
                  ++ " may not be accessible. Proceeding with push attempts anyway."))
     else ret tt)
    (fun testError =>
       modify (push_warnings_push
                 ("Could not verify registry connectivity: " ++ testError))).

Definition pushImagesToLocalRegistry {R} (imageNames : list string) : M R PushResult :=
  call emptyPush
    (try_catch
       (probeRegistry localRegistryUrl ;;
        forEach imageNames (pushImage localRegistryUrl) ;;
        get)
       (fun e =>
          ret {| pushed := [];
                 push_errors := ["Failed to push images to local registry: " ++ e];
                 push_warnings := [] |})).

(** *** Pipeline orchestrator *)

Definition emptyPipeline : PipelineResult :=
  {| loadedImages := []; pushedImages := []; errors := []; warnings := [] |}.

Definition set_loadedImages (l : list string) (r : PipelineResult) : PipelineResult :=
  {| loadedImages := l; pushedImages := pushedImages r;
     errors := errors r; warnings := warnings r |}.
Definition set_pushedImages (l : list PushOutcome) (r : PipelineResult) : PipelineResult :=
  {| loadedImages := loadedImages r; pushedImages := l;
     errors := errors r; warnings := warnings r |}.
Definition errors_push (l : list string) (r : PipelineResult) : PipelineResult :=
  {| loadedImages := loadedImages r; pushedImages := pushedImages r;
     errors := errors r ++ l; warnings := warnings r |}.
Definition warnings_push (l : list string) (r : PipelineResult) : PipelineResult :=
  {| loadedImages := loadedImages r; pushedImages := pushedImages r;
     errors := errors r; warnings := warnings r ++ l |}.

Definition EngineUnavailable : string :=
  "Docker daemon is not accessible. Ensure Docker is running and accessible from this container.".

Definition processDockerTarFile {R} (file : File) : M R PipelineResult :=
  call emptyPipeline
    (try_catch
       (let tarFilePath := path file in
        try_catch (execPromise DockerVersion ;; ret tt)
                  (fun dockerError => throw EngineUnavailable) ;;
        loadResult <- loadDockerImagesFromTar tarFilePath ;;
        modify (set_loadedImages (images loadResult)) ;;
        (if (0 <? length (load_errors loadResult))%nat
         then modify (errors_push (load_errors loadResult)) else ret tt) ;;
        (if (0 <? length (load_warnings loadResult))%nat
         then modify (warnings_push (load_warnings loadResult)) else ret tt) ;;
        (if (0 <? length (images loadResult))%nat then
           try_catch
             (pushResult <- pushImagesToLocalRegistry (images loadResult) ;;
              modify (set_pushedImages (pushed pushResult)) ;;
              (if (0 <? length (push_errors pushResult))%nat
               then modify (errors_push (push_errors pushResult)) else ret tt) ;;
              (if (0 <? length (push_warnings pushResult))%nat
               then modify (warnings_push (push_warnings pushResult)) else ret tt))
             (fun pushError =>
                modify (errors_push ["Registry push failed: " ++ pushError]))
         else modify (warnings_push ["No images were loaded from the tar file"])) ;;
        try_catch
          (fs_unlink tarFilePath)
          (fun cleanupError =>
             modify (warnings_push ["Failed to cleanup tar file: " ++ cleanupError])) ;;
        get)
       (fun e => throw ("Docker tar processing failed: " ++ e))).

(** *** The upload route

    The handler of [app.post('/api/upload-docker-tar', ...)].  [req_file] is
    [req.file] as the multer middleware leaves it: absent when the request
    carries no file under the [dockerTar] field. *)
Definition postUploadDockerTar (req_file : option File) : M unit unit :=
  try_catch
    (match req_file with
     | None => respond 400 (ErrorBody "No tar file uploaded" None)
     | Some file =>
         validationResult <- validateDockerTarFile (path file) ;;
         if negb (isValid validationResult) then
           fs_unlink (path file) ;;
           respond 400 (ErrorBody "Invalid Docker tar file" (error validationResult))
         else
           dockerResult <- processDockerTarFile file ;;
           respond 200
             (UploadBody "Docker tar file uploaded and images processed successfully"
                         (filename file) dockerResult)
     end)
    (fun e =>
       match req_file with
       | Some file =>
           if negb (Js.is_empty (path file)) then
             try_catch (fs_unlink (path file))
                       (fun cleanupError =>
                          console_warn ("Failed to cleanup file after error: " ++ cleanupError))
           else ret tt
       | None => ret tt
       end ;;
       respond 500 (ErrorBody "Failed to process Docker tar upload" (Some e))).

End Pipeline.

(** From here on [++] is list concatenation unless marked otherwise. *)
Open Scope list_scope.

(** ** Observations on histories and results *)

(** What the catch block of the push loop adds to [results.errors]. *)
Definition failureMessage (imageName : string) (e : option string) : list string :=
  match e with
  | Some message => [("Failed to push " ++ imageName ++ ": " ++ message)%string]
  | None => []
  end.

(** The interactions of one iteration of the push loop (newest first),
    with the status and the error message its two outcomes carry. *)
Inductive PushRun (url imageName : string) : Trace -> PushStatus -> option string -> Prop :=
| run_tag_original_fails : forall e,
    PushRun url imageName
      [EvExec (DockerTag imageName (originalLocalImageName url imageName)) (ExecFail e)]
      failed (Some e)
| run_push_original_fails : forall o1 e,
    PushRun url imageName
      [EvExec (DockerPush (originalLocalImageName url imageName)) (ExecFail e);
       EvExec (DockerTag imageName (originalLocalImageName url imageName)) (ExecOk o1)]
      failed (Some e)
| run_tag_latest_fails : forall o1 o2 e,
    PushRun url imageName
      [EvExec (DockerTag imageName (latestLocalImageName url imageName)) (ExecFail e);
       EvExec (DockerPush (originalLocalImageName url imageName)) (ExecOk o2);
       EvExec (DockerTag imageName (originalLocalImageName url imageName)) (ExecOk o1)]
      failed (Some e)
| run_push_latest_fails : forall o1 o2 o3 e,
    PushRun url imageName
      [EvExec (DockerPush (latestLocalImageName url imageName)) (ExecFail e);
       EvExec (DockerTag imageName (latestLocalImageName url imageName)) (ExecOk o3);
       EvExec (DockerPush (originalLocalImageName url imageName)) (ExecOk o2);
       EvExec (DockerTag imageName (originalLocalImageName url imageName)) (ExecOk o1)]
      failed (Some e)
| run_all_pushed : forall o1 o2 o3 o4 r5 r6,
    PushRun url imageName
      [EvExec (DockerRmi (latestLocalImageName url imageName)) r6;
       EvExec (DockerRmi (originalLocalImageName url imageName)) r5;
       EvExec (DockerPush (latestLocalImageName url imageName)) (ExecOk o4);
       EvExec (DockerTag imageName (latestLocalImageName url imageName)) (ExecOk o3);
       EvExec (DockerPush (originalLocalImageName url imageName)) (ExecOk o2);
       EvExec (DockerTag imageName (originalLocalImageName url imageName)) (ExecOk o1)]
      success None.

(** The interactions of the whole push loop, with the outcomes and the error
    messages it records, in order. *)
Inductive PushRuns (url : string) :
  list string -> Trace -> list PushOutcome -> list string -> Prop :=
| runs_nil : PushRuns url [] [] [] []
| runs_cons : forall imageName imageNames seg segs st e outs errs,
    PushRun url imageName seg st e ->
    PushRuns url imageNames segs outs errs ->
    PushRuns url (imageName :: imageNames) (segs ++ seg)
      (outcome url imageName original st e :: outcome url imageName latest st e :: outs)
      (failureMessage imageName e ++ errs).

(** The warning the loader derives from the standard error of [docker load]. *)
Definition loadStderrWarning (out : ExecOutput) : list string :=
  if negb (Js.is_empty (stderr out))
     && (Js.includes "Error" (stderr out) || Js.includes "failed" (stderr out))
  then [("Docker load warning: " ++ stderr out)%string]
  else [].

(** First recovery strategy: the names on the [Loaded image: <name>] lines. *)
Definition loadedImageNames (loadOutput : string) : list string :=
  map loadedImageName (Js.match_all "Loaded image: " loadOutput).

(** Second recovery strategy: one [docker inspect] per [Loaded image ID]
    match, in order; a successful inspection contributes its repository
    tags, a failing one contributes a warning. *)
Inductive InspectRuns : list string -> Trace -> list string -> list string -> Prop :=
| inspect_none : InspectRuns [] [] [] []
| inspect_answers : forall m ms out seg names ws,
    InspectRuns ms seg names ws ->
    InspectRuns (m :: ms)
      (seg ++ [EvExec (DockerInspect (loadedImageId m)) (ExecOk out)])
      (repoTags (stdout out) ++ names) ws
| inspect_fails : forall m ms e seg names ws,
    InspectRuns ms seg names ws ->
    InspectRuns (m :: ms)
      (seg ++ [EvExec (DockerInspect (loadedImageId m)) (ExecFail e)])
      names (inspectWarning (loadedImageId m) :: ws).

(** Third recovery strategy: at most five of the images the engine lists. *)
Inductive RecentRun : Trace -> list string -> list string -> Prop :=
| recent_found : forall out,
    recentImages (stdout out) <> [] ->
    RecentRun [EvExec DockerImages (ExecOk out)]
      (firstn 5 (recentImages (stdout out))) [recentImagesWarning]
| recent_empty : forall out,
    recentImages (stdout out) = [] ->
    RecentRun [EvExec DockerImages (ExecOk out)] [] []
| recent_fails : forall e,
    RecentRun [EvExec DockerImages (ExecFail e)] [] ["Could not determine loaded images"].

(** The runs of the loader on [tarFilePath]: its interactions (newest
    first) and the [LoadResult] it returns.  The strategies appear in
    priority order, each one entered only when the previous ones recovered
    no name. *)
Inductive LoadRun (tarFilePath : string) : Trace -> LoadResult -> Prop :=
| load_missing :
    LoadRun tarFilePath [EvPathExists tarFilePath false]
      {| images := [];
         load_errors := ["Failed to load images from tar: Tar file not found"];
         load_warnings := [] |}
| load_fails : forall e,
    LoadRun tarFilePath
      [EvExec (DockerLoad tarFilePath) (ExecFail e); EvPathExists tarFilePath true]
      {| images := [];
         load_errors := [("Failed to load images from tar: " ++ e)%string];
         load_warnings := [] |}
| load_by_name : forall out,
    loadedImageNames (stdout out) <> [] ->
    LoadRun tarFilePath
      [EvExec (DockerLoad tarFilePath) (ExecOk out); EvPathExists tarFilePath true]
      {| images := loadedImageNames (stdout out);
         load_errors := [];
         load_warnings := loadStderrWarning out |}
| load_by_id : forall out seg2 names ws,
    loadedImageNames (stdout out) = [] ->
    InspectRuns (Js.match_all "Loaded image ID: " (stdout out)) seg2 names ws ->
    names <> [] ->
    LoadRun tarFilePath
      (seg2 ++ [EvExec (DockerLoad tarFilePath) (ExecOk out);
                EvPathExists tarFilePath true])
      {| images := names;
         load_errors := [];
         load_warnings := loadStderrWarning out ++ ws |}
| load_by_recency : forall out seg2 ws seg3 names ws3,
    loadedImageNames (stdout out) = [] ->
    InspectRuns (Js.match_all "Loaded image ID: " (stdout out)) seg2 [] ws ->
    RecentRun seg3 names ws3 ->
    LoadRun tarFilePath
      (seg3 ++ seg2 ++ [EvExec (DockerLoad tarFilePath) (ExecOk out);
                        EvPathExists tarFilePath true])
      {| images := names;
         load_errors := match names with [] => [NoImagesLoaded] | _ :: _ => [] end;
         load_warnings := loadStderrWarning out ++ ws ++ ws3 |}.

(** The stage of the pipeline an interaction belongs to. *)
Inductive Stage := Validation | EngineCheck | Loading | Pushing | Cleanup | Responding.

Definition stage (ev : Event) : Stage :=
  match ev with
  | EvStat _ _ => Validation
  | EvExec (TarListHead _) _ | EvExec (TarList _) _ => Validation
  | EvExec DockerVersion _ => EngineCheck
  | EvPathExists _ _ => Loading
  | EvExec (DockerLoad _) _ | EvExec (DockerInspect _) _ | EvExec DockerImages _ => Loading
  | EvExec (CurlRegistry _) _ | EvExec (DockerTag _ _) _
  | EvExec (DockerPush _) _ | EvExec (DockerRmi _) _ => Pushing
  | EvUnlink _ _ => Cleanup
  | EvRespond _ => Responding
  end.

(** The warning the orchestrator records when the final unlink rejects. *)
Definition cleanupWarning (unlinked : option string) : list string :=
  match unlinked with
  | None => []
  | Some e => [("Failed to cleanup tar file: " ++ e)%string]
  end.

(** The runs of the orchestrator on an uploaded file, for the registry
    [url]: its interactions (newest first) and how it completes. *)
Inductive ProcessRun (url : string) (file : File) :
  Trace -> Outcome PipelineResult -> Prop :=
| process_engine_down : forall e,
    ProcessRun url file [EvExec DockerVersion (ExecFail e)]
      (Thrown ("Docker tar processing failed: " ++ EngineUnavailable)%string)
| process_nothing_loaded : forall version segL lr unlinked,
    LoadRun (path file) segL lr ->
    images lr = [] ->
    ProcessRun url file
      ([EvUnlink (path file) unlinked] ++ segL
       ++ [EvExec DockerVersion (ExecOk version)])
      (Returned {| loadedImages := [];
                   pushedImages := [];
                   errors := load_errors lr;
                   warnings := load_warnings lr
                               ++ ["No images were loaded from the tar file"]
                               ++ cleanupWarning unlinked |})
| process_pushed : forall version segL lr probe segP outs errs pws unlinked,
    LoadRun (path file) segL lr ->
    images lr <> [] ->
    PushRuns url (images lr) segP outs errs ->
    ProcessRun url file
      ([EvUnlink (path file) unlinked] ++ segP ++ [EvExec (CurlRegistry url) probe]
       ++ segL ++ [EvExec DockerVersion (ExecOk version)])
      (Returned {| loadedImages := images lr;
                   pushedImages := outs;
                   errors := load_errors lr ++ errs;
                   warnings := load_warnings lr ++ pws ++ cleanupWarning unlinked |}).

(** The second unlink, made by the catch block of the route when
    [req.file.path] is truthy. *)
Definition retryUnlink (file : File) (unlinked : option string) : Trace :=
  if Js.is_empty (path file) then [] else [EvUnlink (path file) unlinked].

Definition uploadedMessage : string :=
  "Docker tar file uploaded and images processed successfully".

(** The runs of the upload route: its interactions, newest first, the
    response being the last of them. *)
Inductive UploadRun (url : string) : option File -> Trace -> Prop :=
| upload_without_file :
    UploadRun url None
      [EvRespond {| statusCode := 400; body := ErrorBody "No tar file uploaded" None |}]
| upload_rejected : forall file segV v,
    Forall (fun ev => stage ev = Validation) segV ->
    isValid v = false ->
    UploadRun url (Some file)
      ([EvRespond {| statusCode := 400;
                     body := ErrorBody "Invalid Docker tar file" (error v) |};
        EvUnlink (path file) None] ++ segV)
| upload_rejected_unlink_fails : forall file segV v e unlinked,
    Forall (fun ev => stage ev = Validation) segV ->
    isValid v = false ->
    UploadRun url (Some file)
      ([EvRespond {| statusCode := 500;
                     body := ErrorBody "Failed to process Docker tar upload" (Some e) |}]
       ++ retryUnlink file unlinked ++ [EvUnlink (path file) (Some e)] ++ segV)
| upload_processed : forall file segV segP d,
    Forall (fun ev => stage ev = Validation) segV ->
    ProcessRun url file segP (Returned d) ->
    UploadRun url (Some file)
      ([EvRespond {| statusCode := 200;
                     body := UploadBody uploadedMessage (filename file) d |}]
       ++ segP ++ segV)
| upload_failed : forall file segV segP e unlinked,
    Forall (fun ev => stage ev = Validation) segV ->
    ProcessRun url file segP (Thrown e) ->
    UploadRun url (Some file)
      ([EvRespond {| statusCode := 500;
                     body := ErrorBody "Failed to process Docker tar upload" (Some e) |}]
       ++ retryUnlink file unlinked ++ segP ++ segV).



(** ** Properties the specification states and the code does not meet *)

(** The pusher, run on the single reference [imageName], records the
    versioned push as a success and the latest push as a failure when the
    environment accepted the first and refused the second. *)
Definition latestRecordedIndependently (w : World) (imageName : string) : Prop :=
  forall res tr pushedOutput message,
    pushImagesToLocalRegistry w [imageName] tt [] = (Returned res, tt, tr) ->
    In (EvExec (DockerPush (originalLocalImageName (localRegistryUrl w) imageName))
               (ExecOk pushedOutput)) tr ->
    In (EvExec (DockerPush (latestLocalImageName (localRegistryUrl w) imageName))
               (ExecFail message)) tr ->
    map (fun o => (type o, status o)) (pushed res)
    = [(original, success); (latest, failed)].

(** The pusher, run on the single reference [imageName], attempts the push
    of the latest target. *)
Definition latestAlwaysAttempted (w : World) (imageName : string) : Prop :=
  forall res tr,
    pushImagesToLocalRegistry w [imageName] tt [] = (Returned res, tt, tr) ->
    exists answer,
      In (EvExec (DockerPush (latestLocalImageName (localRegistryUrl w) imageName))
                 answer) tr.

(** Before the route answers, a successful unlink of the uploaded file has
    taken place. *)
Definition deletedBeforeResponse (w : World) (file : File) : Prop :=
  exists resp before,
    snd (postUploadDockerTar w (Some file) tt []) = EvRespond resp :: before
    /\ In (EvUnlink (path file) None) before.

(** A loader run that recovers no image reports [NoImagesLoaded]. *)
Definition reportsNoImagesLoaded (w : World) (tarFilePath : string) : Prop :=
  forall lr tr,
    loadDockerImagesFromTar w tarFilePath tt [] = (Returned lr, tt, tr) ->
    images lr = [] ->
    In NoImagesLoaded (load_errors lr).

(** The loader warns about every inspected image id whose inspection yields
    no repository tag. *)
Definition warnsWhenInspectionYieldsNone (w : World) (tarFilePath : string) : Prop :=
  forall lr tr imageId out,
    loadDockerImagesFromTar w tarFilePath tt [] = (Returned lr, tt, tr) ->
    In (EvExec (DockerInspect imageId) (ExecOk out)) tr ->
    repoTags (stdout out) = [] ->
    In (inspectWarning imageId) (load_warnings lr).

(** The outcomes of a pusher run, none if it threw. *)
Definition pushedImagesOf {R} (run : Outcome PushResult * R * Trace) : list PushOutcome :=
  match fst (fst run) with
  | Returned res => pushed res
  | Thrown _ => []
  end.

(** ** Sample environments

    Deterministic environments used to run the pipeline on concrete
    uploads.  In all of them the staged upload is a regular file and still
    exists when the loader looks for it. *)

Definition ok (output : string) : ExecResult :=
  ExecOk {| stdout := output; stderr := "" |}.

Definition line (s : string) : string := (s ++ String Js.lf EmptyString)%string.

Definition sampleUpload : File :=
  {| filename := "1700000000000-app.tar";
     path := "/app/uploads/docker-images/1700000000000-app.tar" |}.

Definition sampleWorld (fileSize : N) (answer : string -> ExecResult)
           (unlinked : option string) : World :=
  {| env_LOCAL_REGISTRY_URL := None;
     w_exec := fun _ command => answer command;
     w_stat := fun _ _ => inl {| isFile := true; size := fileSize |};
     w_pathExists := fun _ _ => true;
     w_unlink := fun _ _ => unlinked |}.

(** Every command succeeds; the tar lists no JSON entry and holds one image
    that the engine reports by name. *)
Definition healthyAnswer (command : string) : ExecResult :=
  if prefix "tar -tf" command then ok (line "blobs/sha256/0a1b")
  else if prefix "docker load" command then ok (line "Loaded image: myapp:1.2.0")
  else ok "".

Definition healthy : World := sampleWorld 2048 healthyAnswer None.

(** As [healthy], except that every push of a [:latest] target is refused. *)
Definition latestPushFails : World :=
  sampleWorld 2048
    (fun command =>
       if prefix "docker push" command && Js.includes ":latest" command
       then ExecFail "connection reset by peer"
       else healthyAnswer command)
    None.

(** As [healthy], except that every push of the versioned target is refused. *)
Definition versionedPushFails : World :=
  sampleWorld 2048
    (fun command =>
       if prefix "docker push" command && Js.includes ":1.2.0" command
       then ExecFail "connection reset by peer"
       else healthyAnswer command)
    None.

(** As [healthy], except that the staged file cannot be unlinked. *)
Definition unlinkFails : World :=
  sampleWorld 2048 healthyAnswer (Some "EBUSY: resource busy or locked").

(** The tar holds one untagged image: the engine reports it by id, the
    inspection prints an empty list of repository tags and the engine lists
    no tagged image. *)
Definition untagged : World :=
  sampleWorld 2048
    (fun command =>
       if prefix "docker load" command then ok (line "Loaded image ID: sha256:0a1b2c")
       else if prefix "docker inspect" command then ok (line "")
       else ok "")
    None.

(** The tar is an archive the engine cannot load. *)
Definition loadFails : World :=
  sampleWorld 2048
    (fun command =>
       if prefix "docker load" command
       then ExecFail "Command failed: docker load: invalid tar header"
       else healthyAnswer command)
    None.

(** The staged upload is an empty file. *)
Definition emptyUpload : World := sampleWorld 0 healthyAnswer None.

(** ** Further JavaScript primitives *)

Module JsText.

Local Open Scope string_scope.

Definition tab : ascii := ascii_of_nat 9.

(** [c.toLowerCase()] on one code unit below 256: the Latin capitals
    [A]-[Z] and the accented capitals U+00C0-U+00DE, the multiplication
    sign U+00D7 apart. *)
Definition toLowerCaseChar (c : ascii) : ascii :=
  let n := nat_of_ascii c in
  if ((65 <=? n) && (n <=? 90))%nat
     || ((192 <=? n) && (n <=? 222) && negb (n =? 215))%nat
  then ascii_of_nat (n + 32)
  else c.

(** [s.toLowerCase()] *)
Fixpoint toLowerCase (s : string) : string :=
  match s with
  | EmptyString => EmptyString
  | String c s' => String (toLowerCaseChar c) (toLowerCase s')
  end.

(** [s.endsWith(suffix)] *)
Definition endsWith (suffix s : string) : bool :=
  (String.length suffix <=? String.length s)%nat
  && String.eqb (Js.drop (String.length s - String.length suffix) s) suffix.

(** [arr.join(sep)] on an array of strings. *)
Fixpoint join (sep : string) (l : list string) : string :=
  match l with
  | [] => EmptyString
  | x :: l' =>
      match l' with
      | [] => x
      | _ :: _ => x ++ sep ++ join sep l'
      end
  end.

(** A non-negative integer inside a template literal: its decimal digits. *)
Definition numberToString (n : N) : string :=
  NilEmpty.string_of_uint (N.to_uint n).

End JsText.

(** ** The multer configuration of the upload route *)

Module Upload.

Local Open Scope string_scope.

(** What [fileFilter] hands to its callback: [cb(null, true)] or
    [cb(new Error(message), false)]. *)
Inductive FilterDecision :=
| Accept
| Reject (message : string).

Definition fileFilter (originalname : string) : FilterDecision :=
  if JsText.endsWith ".tar" (JsText.toLowerCase originalname)
  then Accept
  else Reject "Only .tar files are allowed for Docker image uploads".

(** [filename]: the name the upload is stored under, [now] being the value
    of [Date.now()]. *)
Definition storedFilename (now : N) (originalname : string) : string :=
  JsText.numberToString now ++ "-" ++ originalname.

(** [limits.fileSize] *)
Definition fileSizeLimit : N := 5 * 1024 * 1024 * 1024.

End Upload.

(** ** The upload route behind its middleware

    [app.post('/api/upload-docker-tar', uploadDockerTar.single('dockerTar'),
    handler)]: multer reads the multipart body before the handler runs, and
    an error it passes to [next] is answered by the default error handler of
    Express, the server installing none of its own. *)

Module Multipart.

Local Open Scope string_scope.

(** A file part of the multipart body: the field it is sent under and the
    file name it announces (empty when the field was left without file). *)
Record Part := { fieldname : string; originalname : string }.

(** The disk behind [dockerTarStorage]: the clock, the upload directory,
    [path.join], and whether writing a part to a path succeeds ([None]) or
    fails with an error (the size limit of [limits.fileSize] being hit, a
    failed write). *)
Record Disk := {
  now : N;
  uploadDir : string;
  path_join : string -> string -> string;
  written : string -> option string
}.

(** [dockerTarStorage] on an accepted part: the file it stages. *)
Definition stage (disk : Disk) (p : Part) : File + string :=
  let name := Upload.storedFilename (now disk) (originalname p) in
  let staged := path_join disk (uploadDir disk) name in
  match written disk staged with
  | None => inl {| filename := name; path := staged |}
  | Some e => inr e
  end.

(** What the middleware hands on: [next()] with [req.file] as it stands, or
    [next(err)]. *)
Inductive Staging :=
| Next (req_file : option File)
| NextError (message : string).

(** [uploadDockerTar.single(name)] on the file parts of a body, in order.
    A part without file name is skipped.  A part under another field, or a
    second file under [name], is refused with multer's [Unexpected field];
    a part the file filter rejects is refused with the filter's error; an
    accepted part is staged and becomes [req.file].  The first error ends
    the request. *)
Fixpoint single_from (disk : Disk) (name : string) (filesLeft : nat)
         (req_file : option File) (parts : list Part) : Staging :=
  match parts with
  | [] => Next req_file
  | p :: rest =>
      if Js.is_empty (originalname p) then single_from disk name filesLeft req_file rest
      else if negb (String.eqb (fieldname p) name) || (filesLeft =? 0)%nat
      then NextError "Unexpected field"
      else
        match Upload.fileFilter (originalname p) with
        | Upload.Reject message => NextError message
        | Upload.Accept =>
            match stage disk p with
            | inl file => single_from disk name (filesLeft - 1) (Some file) rest
            | inr e => NextError e
            end
        end
  end.

Definition single (disk : Disk) (name : string) (parts : list Part) : Staging :=
  single_from disk name 1 None parts.

(** How a request is answered: by the handler, with the history of its
    run, or by the default error handler of Express, with the status of the
    error (500 for an error that carries none, as all of multer's) and an
    error page as body. *)
Inductive Served :=
| ByHandler (history : Trace)
| ByExpress (status : N) (err : string).

Definition serve (w : World) (disk : Disk) (parts : list Part) (t : Trace) : Served :=
  match single disk "dockerTar" parts with
  | Next req_file => ByHandler (snd (postUploadDockerTar w req_file tt t))
  | NextError e => ByExpress 500 e
  end.

(** The files attached under a field. *)
Definition attached (name : string) (parts : list Part) : list Part :=
  filter (fun p => String.eqb (fieldname p) name && negb (Js.is_empty (originalname p)))
         parts.

(** Every POST without a file under [dockerTar] is answered 400 with
    [{ error: 'No tar file uploaded' }], the response being the only
    interaction. *)
Definition refusedWith400 (w : World) (disk : Disk) (parts : list Part) : Prop :=
  attached "dockerTar" parts = [] ->
  forall t : Trace,
    serve w disk parts t
    = ByHandler (EvRespond {| statusCode := 400;
                              body := ErrorBody "No tar file uploaded" None |} :: t).

(** A disk that stores every part. *)
Definition sampleDisk : Disk :=
  {| now := 1700000000000;
     uploadDir := "/app/uploads/docker-images";
     path_join := fun dir name => dir ++ "/" ++ name;
     written := fun _ => None |}.

End Multipart.

(** ** The status and registry routes

    These routes only run shell commands.  Their history is the list of the
    command lines run so far, newest first, each with its outcome; the
    environment answers from it. *)

Module Shell.

Local Open Scope string_scope.

Definition Log := list (string * ExecResult).

Record Env := {
  LOCAL_REGISTRY_URL : option string;
  exec : Log -> string -> ExecResult
}.

Definition Sh (A : Type) : Type := Log -> Outcome A * Log.

Definition ret {A} (a : A) : Sh A := fun l => (Returned a, l).

Definition bind {A B} (m : Sh A) (f : A -> Sh B) : Sh B :=
  fun l =>
    match m l with
    | (Returned a, l') => f a l'
    | (Thrown e, l') => (Thrown e, l')
    end.

Definition throw {A} (message : string) : Sh A := fun l => (Thrown message, l).

Definition try_catch {A} (m : Sh A) (h : string -> Sh A) : Sh A :=
  fun l =>
    match m l with
    | (Returned a, l') => (Returned a, l')
    | (Thrown e, l') => h e l'
    end.

Declare Scope sh_scope.
Delimit Scope sh_scope with sh.
Notation "x <- c1 ;; c2" := (bind c1 (fun x => c2))
  (at level 61, c1 at next level, right associativity) : sh_scope.
Notation "c1 ;; c2" := (bind c1 (fun _ => c2))
  (at level 61, right associativity) : sh_scope.
Local Open Scope sh_scope.

(** What a route answers: [res.json(body)] or [res.status(code).json({ error })]. *)
Inductive Reply (A : Type) :=
| Json (body : A)
| Failure (code : N) (error : string).
Arguments Failure {A} code error.

Section Routes.

Variable env : Env.

Definition execPromise (command : string) : Sh ExecOutput :=
  fun l =>
    let res := exec env l command in
    (match res with
     | ExecOk out => Returned out
     | ExecFail e => Thrown e
     end, (command, res) :: l).

(** [process.env.LOCAL_REGISTRY_URL || '100.103.254.213:5001'] *)
Definition registryUrl : string :=
  match LOCAL_REGISTRY_URL env with
  | Some u => if Js.is_empty u then "100.103.254.213:5001" else u
  | None => "100.103.254.213:5001"
  end.

Definition dockerVersionCommand : string :=
  "docker version --format " ++ Js.quoted "{{.Server.Version}}".

Definition dockerImagesCommand : string :=
  "docker images --format "
  ++ Js.quoted ("table {{.Repository}}:{{.Tag}}" ++ String JsText.tab "{{.ID}}"
                ++ String JsText.tab "{{.Size}}"
                ++ String JsText.tab "{{.CreatedSince}}").

Definition registryProbeCommand (url : string) : string :=
  "curl -f http://" ++ url ++ "/v2/ --connect-timeout 5".

(** *** [getDockerImagesStatus] *)

Record LocalImage := {
  name : string;
  id : string;
  size : string;
  created : string
}.

Record ImagesStatus := {
  localImages : list LocalImage;
  registryInfo_url : string;
  registryInfo_accessible : bool;
  dockerDaemon_accessible : bool;
  dockerDaemon_version : option string
}.

(** [parts[i] || 'unknown'] *)
Definition part (parts : list string) (i : nat) : string :=
  match nth_error parts i with
  | Some s => if Js.is_empty s then "unknown" else s
  | None => "unknown"
  end.

(** The callback of [imageLines.map]. *)
Definition parseImageLine (line : string) : LocalImage :=
  let parts := Js.split JsText.tab line in
  {| name := part parts 0; id := part parts 1;
     size := part parts 2; created := part parts 3 |}.

(** [imagesOutput.split('\n').slice(1).filter(line => line.trim()).map(...)] *)
Definition parseImageTable (imagesOutput : string) : list LocalImage :=
  map parseImageLine
      (filter (fun line => negb (Js.is_empty (Js.trim line)))
              (tl (Js.split Js.lf imagesOutput))).

Definition getDockerImagesStatus : Sh ImagesStatus :=
  try_catch
    (let status :=
       {| localImages := [];
          registryInfo_url := registryUrl;
          registryInfo_accessible := false;
          dockerDaemon_accessible := false;
          dockerDaemon_version := None |} in
     status <-
       try_catch
         (version <- execPromise dockerVersionCommand ;;
          ret {| localImages := localImages status;
                 registryInfo_url := registryInfo_url status;
                 registryInfo_accessible := registryInfo_accessible status;
                 dockerDaemon_accessible := true;
                 dockerDaemon_version := Some (Js.trim (stdout version)) |})
         (fun dockerError => ret status) ;;
     status <-
       (if dockerDaemon_accessible status then
          try_catch
            (listed <- execPromise dockerImagesCommand ;;
             ret {| localImages := parseImageTable (stdout listed);
                    registryInfo_url := registryInfo_url status;
                    registryInfo_accessible := registryInfo_accessible status;
                    dockerDaemon_accessible := dockerDaemon_accessible status;
                    dockerDaemon_version := dockerDaemon_version status |})
            (fun imagesError => ret status)
        else ret status) ;;
     status <-
       try_catch
         (execPromise (registryProbeCommand (registryInfo_url status)) ;;
          ret {| localImages := localImages status;
                 registryInfo_url := registryInfo_url status;
                 registryInfo_accessible := true;
                 dockerDaemon_accessible := dockerDaemon_accessible status;
                 dockerDaemon_version := dockerDaemon_version status |})
         (fun registryError => ret status) ;;
     ret status)
    (fun e => throw ("Failed to get Docker images status: " ++ e)).

(** The handler of [app.get('/api/docker-images-status', ...)]. *)
Definition getDockerImagesStatusRoute : Log -> Reply ImagesStatus * Log :=
  fun l =>
    match getDockerImagesStatus l with
    | (Returned status, l') => (Json status, l')
    | (Thrown e, l') => (Failure 500 "Failed to get Docker images status", l')
    end.

(** *** [pullImageFromRegistry] *)

Record PullResult := {
  imageName : string;
  success : bool;
  error : option string;
  output : option string
}.

(** The name handed to [docker pull]. *)
Definition fullImageName (imageName : string) : string :=
  if negb (Js.includes registryUrl imageName)
  then registryUrl ++ "/" ++ imageName
  else imageName.

Definition dockerPullCommand (fullName : string) : string :=
  "docker pull " ++ Js.quoted fullName.

Definition pullImageFromRegistry (imageName : string) : Sh PullResult :=
  try_catch
    (let full := fullImageName imageName in
     try_catch
       (pulled <- execPromise (dockerPullCommand full) ;;
        ret {| imageName := full; success := true; error := None;
               output := Some (stdout pulled) |})
       (fun pullError =>
          ret {| imageName := full; success := false; error := Some pullError;
                 output := None |}))
    (fun e => throw ("Failed to pull image from registry: " ++ e)).

(** The handler of [app.post('/api/pull-from-registry', ...)];
    [body_imageName] is [req.body.imageName] when it is a string. *)
Definition pullFromRegistryRoute (body_imageName : option string)
  : Log -> Reply PullResult * Log :=
  fun l =>
    match body_imageName with
    | None => (Failure 400 "Image name is required", l)
    | Some imageName =>
        if Js.is_empty imageName then (Failure 400 "Image name is required", l)
        else
          match pullImageFromRegistry imageName l with
          | (Returned result, l') => (Json result, l')
          | (Thrown e, l') => (Failure 500 "Failed to pull image from registry", l')
          end
    end.

End Routes.

End Shell.

(** ** The container status of the services *)

Module Services.

Local Open Scope string_scope.

(** What the code reads of a container listed by dockerode. *)
Record Container := {
  Id : string;
  Names : list string;
  State : string
}.

(** [docker.listContainers({ all })]: the containers, or the message of the
    rejection. *)
Definition Docker := bool -> list Container + string.

Record ServiceConfig := { imageName : string; containerName : string }.

Definition dockerServices : list (string * ServiceConfig) :=
  [("buco", {| imageName := "buco-service"; containerName := "buco-container" |});
   ("subco", {| imageName := "subco-service"; containerName := "subco-container" |});
   ("mqtt", {| imageName := "mqtt-service"; containerName := "mqtt-container" |});
   ("dhcp", {| imageName := "dhcp-service"; containerName := "dhcp-container" |})].

Record ServiceStatus := {
  running : bool;
  status_containerName : string;
  status_imageName : string
}.

(** [c.Names.some(name => name.includes(fragment))] *)
Definition isNamed (fragment : string) (c : Container) : bool :=
  existsb (fun name => Js.includes fragment name) (Names c).

Definition serviceStatus (containers : list Container) (config : ServiceConfig)
  : ServiceStatus :=
  {| running := match find (isNamed (containerName config)) containers with
                | Some container => String.eqb (State container) "running"
                | None => false
                end;
     status_containerName := containerName config;
     status_imageName := imageName config |}.

Definition getDockerServicesStatus (docker : Docker)
  : Outcome (list (string * ServiceStatus)) :=
  match docker true with
  | inl containers =>
      Returned (map (fun entry => (fst entry, serviceStatus containers (snd entry)))
                    dockerServices)
  | inr e => Thrown ("Failed to get Docker status: " ++ e)
  end.

Record WatchtowerResult := {
  status : string;
  message : string;
  method : string
}.

Definition triggerWatchtowerUpdate (docker : Docker) : Outcome WatchtowerResult :=
  match docker false with
  | inl containers =>
      match find (isNamed "watchtower") containers with
      | Some watchtowerContainer =>
          Returned {| status := "success";
                      message := "Watchtower update triggered";
                      method := "watchtower" |}
      | None => Thrown "Watchtower update failed: Watchtower container not found"
      end
  | inr e => Thrown ("Watchtower update failed: " ++ e)
  end.

End Services.

(** ** The self-test of the Docker setup

    The handler of [app.get('/api/test-docker-setup', ...)].  Besides shell
    commands it touches the upload directory; its history records both.
    [uploadDir] and [path.join] are what Node hands to the handler. *)

Module SetupTest.

Local Open Scope string_scope.

Inductive Step :=
| Exec (command : string) (result : ExecResult)
| PathExists (p : string) (found : bool)
| WriteFile (p data : string) (failure : option string)
| Unlink (p : string) (failure : option string).

Definition Log := list Step.

Record Env := {
  LOCAL_REGISTRY_URL : option string;
  uploadDir : string;
  path_join : string -> string -> string;
  exec : Log -> string -> ExecResult;
  pathExists : Log -> string -> bool;
  writeFile : Log -> string -> string -> option string;
  unlink : Log -> string -> option string
}.

(** The four objects of [testResults]; an [error] property that was never
    assigned is [None]. *)
Record DaemonTest := {
  daemon_accessible : bool;
  daemon_version : option string;
  daemon_error : option string
}.

Record RegistryTest := {
  registry_accessible : bool;
  registry_url : string;
  registry_error : option string
}.

Record DirectoryTest := {
  directory_exists : bool;
  directory_writable : bool;
  directory_error : option string
}.

Record CommandsTest := {
  load : bool;
  tag : bool;
  push : bool;
  loadError : option string;
  tagError : option string;
  pushError : option string
}.

Record TestResults := {
  dockerDaemon : DaemonTest;
  localRegistry : RegistryTest;
  uploadDirectory : DirectoryTest;
  dockerCommands : CommandsTest
}.


Definition St (A : Type) : Type := TestResults -> Log -> Outcome A * TestResults * Log.

Definition ret {A} (a : A) : St A := fun r l => (Returned a, r, l).

Definition bind {A B} (m : St A) (f : A -> St B) : St B :=
  fun r l =>
    match m r l with
    | (Returned a, r', l') => f a r' l'
    | (Thrown e, r', l') => (Thrown e, r', l')
    end.

Definition try_catch {A} (m : St A) (h : string -> St A) : St A :=
  fun r l =>
    match m r l with
    | (Returned a, r', l') => (Returned a, r', l')
    | (Thrown e, r', l') => h e r' l'
    end.

Definition get : St TestResults := fun r l => (Returned r, r, l).
Definition modify (f : TestResults -> TestResults) : St unit :=
  fun r l => (Returned tt, f r, l).

Declare Scope setup_scope.
Delimit Scope setup_scope with setup.
Notation "x <- c1 ;; c2" := (bind c1 (fun x => c2))
  (at level 61, c1 at next level, right associativity) : setup_scope.
Notation "c1 ;; c2" := (bind c1 (fun _ => c2))
  (at level 61, right associativity) : setup_scope.
Local Open Scope setup_scope.


Section Route.

Variable env : Env.

Definition execPromise (command : string) : St ExecOutput :=
  fun r l =>
    let res := exec env l command in
    (match res with
     | ExecOk out => Returned out
     | ExecFail e => Thrown e
     end, r, Exec command res :: l).

Definition fs_pathExists (p : string) : St bool :=
  fun r l => let found := pathExists env l p in (Returned found, r, PathExists p found :: l).


Definition fs_unlink (p : string) : St unit :=
  fun r l =>
    let res := unlink env l p in
    (match res with None => Returned tt | Some e => Thrown e end,
     r, Unlink p res :: l).

(** [process.env.LOCAL_REGISTRY_URL || '100.103.254.213:5001'] *)
Definition registryUrl : string :=
  match LOCAL_REGISTRY_URL env with
  | Some u => if Js.is_empty u then "100.103.254.213:5001" else u
  | None => "100.103.254.213:5001"
  end.












End Route.

End SetupTest.

(** ** Vocabulary of the further properties *)

(** [pushedImages.filter(p => p.status === 'success').length], the count the
    pusher logs and the dashboard displays. *)
Definition successCount (l : list PushOutcome) : nat :=
  length (filter (fun p => match status p with success => true | failed => false end) l).




(** The place of a stage in the pipeline. *)
Definition stageRank (s : Stage) : nat :=
  match s with
  | Validation => 0
  | EngineCheck => 1
  | Loading => 2
  | Pushing => 3
  | Cleanup => 4
  | Responding => 5
  end.

(** A history (newest first) whose interactions never go back to an
    earlier stage. *)
Fixpoint inStageOrder (seg : Trace) : bool :=
  match seg with
  | [] => true
  | ev :: earlier =>
      forallb (fun ev' => (stageRank (stage ev') <=? stageRank (stage ev))%nat) earlier
      && inStageOrder earlier
  end.

(** The warning the pusher records for the answer of its registry probe. *)
Definition probeWarning (url : string) (probe : ExecResult) : list string :=
  match probe with
  | ExecOk registryTest =>
      if Js.includes "Registry not accessible" (stdout registryTest)
      then [("Local registry at " ++ url
             ++ " may not be accessible. Proceeding with push attempts anyway.")%string]
      else []
  | ExecFail testError =>
      [("Could not verify registry connectivity: " ++ testError)%string]
  end.

(** ** The dashboard

    What [handleDockerTarUpload] of the React dashboard shows for a 200
    answer of the upload route, whose body always holds a [dockerResult]. *)

Module Dashboard.

Definition count (n : nat) : string := JsText.numberToString (N.of_nat n).

Definition uploadMessage (result_message : string) (dockerResult : PipelineResult)
  : string :=
  let message := ("Success: " ++ result_message)%string in
  let message :=
    (message ++ String Js.lf "Loaded " ++ count (length (loadedImages dockerResult))
     ++ " images")%string in
  let message :=
    if (0 <? length (pushedImages dockerResult))%nat
    then (message ++ ", pushed " ++ count (successCount (pushedImages dockerResult))
          ++ " to registry")%string
    else message in
  let message :=
    if (0 <? length (errors dockerResult))%nat
    then (message ++ String Js.lf "Errors: "
          ++ JsText.join ", " (errors dockerResult))%string
    else message in
  if (0 <? length (warnings dockerResult))%nat
  then (message ++ String Js.lf "Warnings: "
        ++ JsText.join ", " (warnings dockerResult))%string
  else message.

End Dashboard.

(** What [docker load] prints for images it reports by name: one
    [Loaded image: <name>] line per image. *)
Fixpoint dockerLoadReport (names : list string) : string :=
  match names with
  | [] => EmptyString
  | n :: rest => ("Loaded image: " ++ n ++ String Js.lf (dockerLoadReport rest))%string
  end.

(** A name that fits on a line as it is: not empty, without line terminator
    and without white space at either end. *)
Definition isPlainName (n : string) : bool :=
  negb (Js.is_empty n) && String.eqb (Js.take_line n) n && String.eqb (Js.trim n) n.

(** A table cell: not empty, without TAB and without LF. *)
Definition isCell (s : string) : bool :=
  negb (Js.is_empty s)
  && negb (Js.includes (String JsText.tab EmptyString) s)
  && negb (Js.includes (String Js.lf EmptyString) s).

(** A row [docker images] can print for the table format of
    [getDockerImagesStatus]: four cells, the first one starting with a
    visible character. *)
Definition isRow (i : Shell.LocalImage) : bool :=
  isCell (Shell.name i) && isCell (Shell.id i)
  && isCell (Shell.size i) && isCell (Shell.created i)
  && match Shell.name i with
     | EmptyString => false
     | String c _ => negb (Js.is_space c)
     end.

Definition renderRow (i : Shell.LocalImage) : string :=
  (Shell.name i
   ++ String JsText.tab (Shell.id i
   ++ String JsText.tab (Shell.size i
   ++ String JsText.tab (Shell.created i))))%string.

(** The table: the header line, then one line per row. *)
Fixpoint renderRows (rows : list Shell.LocalImage) : string :=
  match rows with
  | [] => EmptyString
  | i :: rest => (renderRow i ++ String Js.lf (renderRows rest))%string
  end.

Definition renderTable (header : string) (rows : list Shell.LocalImage) : string :=
  (header ++ String Js.lf (renderRows rows))%string.

(** The tar holds one image that the engine reports by id only; its
    inspection prints two repository tags. *)
Definition reportedById : World :=
  sampleWorld 2048
    (fun command =>
       if prefix "docker load" command then ok (line "Loaded image ID: sha256:0a1b2c")
       else if prefix "docker inspect" command then ok (line "myapp:1.2.0 myapp:latest ")
       else healthyAnswer command)
    None.

(** A row and the header of the table of [docker images]. *)
Definition sampleRow : Shell.LocalImage :=
  {| Shell.name := "myapp:1.2.0"; Shell.id := "0a1b2c3d4e5f";
     Shell.size := "12.3MB"; Shell.created := "2 days ago" |}.

Definition sampleHeader : string :=
  ("REPOSITORY:TAG" ++ String JsText.tab ("IMAGE ID" ++ String JsText.tab ("SIZE"
   ++ String JsText.tab "CREATED")))%string.

(** ** Proof support *)

Ltac unfold_monad :=
  unfold console_warn in *;
  unfold try_catch, bind, ret, throw, get, modify, call, execPromise, fs_stat,
    fs_unlink, fs_pathExists, respond in *;
  cbv beta iota zeta in *.

Ltac reduce :=
  cbv beta iota zeta; cbn [negb andb orb]; cbv beta iota zeta.

(** One case split on the next answer of the environment or on the next
    branch condition of the code. *)
Ltac next_case :=
  match goal with
  | |- context [match w_exec ?w ?t ?c with _ => _ end] =>
      let E := fresh "Hexec" in destruct (w_exec w t c) eqn:E
  | |- context [match w_stat ?w ?t ?p with _ => _ end] =>
      let E := fresh "Hstat" in destruct (w_stat w t p) eqn:E
  | |- context [match w_unlink ?w ?t ?p with _ => _ end] =>
      let E := fresh "Hunlink" in destruct (w_unlink w t p) eqn:E
  | |- context [if ?b then _ else _] =>
      let E := fresh "Hcond" in destruct b eqn:E
  end; cbv beta iota zeta.

Lemma bind_returned {R A B} (m : M R A) (f : A -> M R B) r t a r' t' :
  m r t = (Returned a, r', t') -> bind m f r t = f a r' t'.
Proof. intros H. unfold bind. rewrite H. reflexivity. Qed.

Lemma bind_thrown {R A B} (m : M R A) (f : A -> M R B) r t e r' t' :
  m r t = (Thrown e, r', t') -> bind m f r t = (Thrown e, r', t').
Proof. intros H. unfold bind. rewrite H. reflexivity. Qed.

Arguments bind_returned {R A B m f r t a r' t'} _.
Arguments bind_thrown {R A B m f r t e r' t'} _.

Lemma bind_get {R B} (f : R -> M R B) r t : bind get f r t = f r r t.
Proof. reflexivity. Qed.

Lemma bind_ret {R A B} (a : A) (f : A -> M R B) r t : bind (ret a) f r t = f a r t.
Proof. reflexivity. Qed.

Lemma bind_modify {R B} (g : R -> R) (f : unit -> M R B) r t :
  bind (modify g) f r t = f tt (g r) t.
Proof. reflexivity. Qed.

Lemma bind_assoc {R A B C} (m : M R A) (f : A -> M R B) (g : B -> M R C) r t :
  bind (bind m f) g r t = bind m (fun x => bind (f x) g) r t.
Proof.
  unfold bind. destruct (m r t) as [[[a | e] r'] t']; reflexivity.
Qed.

Lemma ret_run {R A} (a : A) (r : R) t : ret a r t = (Returned a, r, t).
Proof. reflexivity. Qed.

Lemma get_run {R} (r : R) t : get r t = (Returned r, r, t).
Proof. reflexivity. Qed.

Lemma modify_run {R} (g : R -> R) (r : R) t : modify g r t = (Returned tt, g r, t).
Proof. reflexivity. Qed.

Create Rewrite HintDb monad.
#[export] Hint Rewrite @bind_assoc @bind_get @bind_ret @bind_modify
  @ret_run @get_run @modify_run : monad.

Ltac msimp := repeat (progress (autorewrite with monad; reduce)).

Lemma when_modify {R} (c : bool) (f : R -> R) (r : R) (t : Trace) :
  (if c then modify f else ret tt) r t = (Returned tt, if c then f r else r, t).
Proof. destruct c; reflexivity. Qed.

(** A history known to end in [t] fixes the segment put in front of it. *)
Lemma segment_eq (seg seg' t : Trace) : (seg ++ t = seg' ++ t)%list -> seg = seg'.
Proof. apply app_inv_tail. Qed.

Ltac fix_segment H seg' :=
  match type of H with
  | (?seg ++ ?t)%list = _ =>
      let E := fresh "Eseg" in
      assert (E : seg = seg') by (apply (@segment_eq seg seg' t); exact H);
      subst seg
  end.

Lemma in_stage (s : Stage) (seg : Trace) (ev : Event) :
  Forall (fun ev => stage ev = s) seg -> In ev seg -> stage ev = s.
Proof. intros HF Hin. rewrite Forall_forall in HF. apply HF. exact Hin. Qed.

(** Case analysis on the position of an event in a history built from
    segments. *)
Ltac in_cases H :=
  repeat match type of H with
         | In _ (_ ++ _) => apply in_app_or in H; destruct H as [H | H]
         | In _ (_ :: _) => destruct H as [H | H]
         | In _ [] => destruct H
         | In _ (retryUnlink _ _) =>
             unfold retryUnlink in H; destruct (Js.is_empty _)
         end.

(** An event cannot sit in a segment of another stage. *)
Ltac wrong_stage H :=
  solve [ discriminate H
        | match goal with
          | HF : Forall (fun ev => stage ev = _) ?seg |- _ =>
              match type of H with
              | In _ seg => apply (@in_stage _ _ _ HF) in H; cbn [stage] in H; discriminate H
              end
          end ].

(** Membership in a computed history. *)
Ltac found := cbn [In]; repeat (first [ left; reflexivity | right ]).

(** The value of a closed run, as an equation. *)
Ltac evaluate run E :=
  let v := eval vm_compute in run in
  assert (E : run = v) by (vm_compute; reflexivity).

(** ** JavaScript strings: the last path segment *)

Module JsFacts.

Lemma prefix_char (sep c : ascii) (s : string) :
  prefix (String sep EmptyString) (String c s) = Ascii.eqb c sep.
Proof.
  cbn [prefix]. destruct (Ascii.ascii_dec sep c) as [ <- | Hne ].
  - rewrite Ascii.eqb_refl. destruct s; reflexivity.
  - symmetry. apply Ascii.eqb_neq. congruence.
Qed.

Lemma split_nonempty (sep : ascii) (s : string) : Js.split sep s <> [].
Proof.
  destruct s as [ | c s ]; cbn [Js.split]; [ discriminate | ].
  destruct (Ascii.eqb c sep); [ discriminate | ].
  destruct (Js.split sep s); discriminate.
Qed.

(** Without separator there is nothing to split. *)
Lemma split_without_separator (sep : ascii) (s : string) :
  Js.includes (String sep EmptyString) s = false -> Js.split sep s = [s].
Proof.
  induction s as [ | c s IH ]; intros Hnone; [ reflexivity | ].
  cbn [Js.includes] in Hnone. rewrite prefix_char in Hnone.
  apply orb_false_iff in Hnone. destruct Hnone as [Hc Hs].
  cbn [Js.split]. rewrite Hc, (IH Hs). reflexivity.
Qed.

Lemma includes_separator (sep : ascii) (pre rest : string) :
  Js.includes (String sep EmptyString) (pre ++ String sep rest)%string = true.
Proof.
  induction pre as [ | c pre IH ].
  - cbn [append Js.includes]. rewrite prefix_char, Ascii.eqb_refl. reflexivity.
  - cbn [append Js.includes]. rewrite IH. apply orb_true_r.
Qed.

Lemma split_separator_length (sep : ascii) (pre rest : string) :
  2 <= length (Js.split sep (pre ++ String sep rest)%string).
Proof.
  induction pre as [ | c pre IH ].
  - cbn [append Js.split]. rewrite Ascii.eqb_refl. cbn [length].
    pose proof (split_nonempty sep rest) as Hne.
    destruct (Js.split sep rest); [ contradiction | cbn [length]; lia ].
  - cbn [append Js.split].
    destruct (Ascii.eqb c sep); [ cbn [length]; lia | ].
    destruct (Js.split sep (pre ++ String sep rest)%string); cbn [length] in *; lia.
Qed.

(** Whatever precedes the last separator is dropped by [split] and [pop]. *)
Lemma pop_split_separator (sep : ascii) (pre rest : string) :
  Js.pop (Js.split sep (pre ++ String sep rest)%string) = Js.pop (Js.split sep rest).
Proof.
  unfold Js.pop. induction pre as [ | c pre IH ].
  - cbn [append Js.split]. rewrite Ascii.eqb_refl.
    pose proof (split_nonempty sep rest) as Hne.
    destruct (Js.split sep rest); [ contradiction | reflexivity ].
  - cbn [append Js.split].
    pose proof (split_separator_length sep pre rest) as Hlen.
    destruct (Js.split sep (pre ++ String sep rest)%string) as [ | h [ | h' l ] ];
      cbn [length] in Hlen; try lia.
    destruct (Ascii.eqb c sep); exact IH.
Qed.

End JsFacts.

(** ** Tar validator *)

Section ValidatorFacts.

Variable w : World.
Variable R : Type.

Lemma validate_returns (p : string) (r : R) (t : Trace) :
  exists v t', validateDockerTarFile w p r t = (Returned v, r, t').
Proof.
  unfold validateDockerTarFile. unfold_monad.
  repeat next_case; eauto.
Qed.

Lemma validate_run (p : string) (r : R) (t : Trace) :
  exists v seg,
    validateDockerTarFile w p r t = (Returned v, r, seg ++ t)
    /\ Forall (fun ev => stage ev = Validation) seg.
Proof.
  unfold validateDockerTarFile. unfold_monad.
  repeat next_case;
    eexists;
    match goal with
    | |- exists _, (_, _, ?e1 :: ?e2 :: ?e3 :: t) = _ /\ _ => exists [e1; e2; e3]
    | |- exists _, (_, _, ?e1 :: ?e2 :: t) = _ /\ _ => exists [e1; e2]
    | |- exists _, (_, _, ?e1 :: t) = _ /\ _ => exists [e1]
    end;
    (split; [ reflexivity | repeat constructor ]).
Qed.

End ValidatorFacts.

(** C7. On a regular file, [validateDockerTarFile] reports an empty file
    first (whatever the path, hence whatever the extension), then a file
    above 5 GiB, and only then runs the two tar listing commands, reporting
    an invalid archive as soon as one of them errors.  The histories show
    that no later check runs once an earlier one has failed.  The validator
    returns on every input and in every environment; it never throws. *)
Theorem validate_checks_in_order :
  forall (w : World) (R : Type) (tarFilePath : string) (r : R) (t : Trace),
    (exists v t', validateDockerTarFile w tarFilePath r t = (Returned v, r, t'))
    /\ forall st : Stats,
        w_stat w t tarFilePath = inl st ->
        isFile st = true ->
        let t1 := EvStat tarFilePath (inl st) :: t in
        (size st = 0%N ->
         validateDockerTarFile w tarFilePath r t
         = (Returned (invalid "Tar file is empty"), r, t1))
        /\ ((5 * 1024 * 1024 * 1024 < size st)%N ->
            validateDockerTarFile w tarFilePath r t
            = (Returned (invalid "Tar file is too large (max 5GB)"), r, t1))
        /\ (size st <> 0%N -> (size st <= 5 * 1024 * 1024 * 1024)%N ->
            forall message,
              w_exec w t1 (render (TarListHead tarFilePath)) = ExecFail message ->
              validateDockerTarFile w tarFilePath r t
              = (Returned (invalid "File is not a valid tar archive"), r,
                 EvExec (TarListHead tarFilePath) (ExecFail message) :: t1))
        /\ (size st <> 0%N -> (size st <= 5 * 1024 * 1024 * 1024)%N ->
            forall head message,
              w_exec w t1 (render (TarListHead tarFilePath)) = ExecOk head ->
              let t2 := EvExec (TarListHead tarFilePath) (ExecOk head) :: t1 in
              w_exec w t2 (render (TarList tarFilePath)) = ExecFail message ->
              validateDockerTarFile w tarFilePath r t
              = (Returned (invalid "File is not a valid tar archive"), r,
                 EvExec (TarList tarFilePath) (ExecFail message) :: t2)).
Proof.
  intros w R p r t. split; [ apply validate_returns | ].
  intros st Hstat Hfile t1.
  assert (Hlim : max_tar_size = (5 * 1024 * 1024 * 1024)%N) by reflexivity.
  unfold validateDockerTarFile. unfold_monad. rewrite Hstat, Hfile.
  reduce. subst t1.
  repeat split.
  - intros Hz. rewrite Hz. reflexivity.
  - intros Hbig.
    assert (Hnz : (size st =? 0)%N = false) by (apply N.eqb_neq; lia).
    assert (Hlt : (max_tar_size <? size st)%N = true) by (apply N.ltb_lt; lia).
    rewrite Hnz, Hlt. reflexivity.
  - intros Hnz Hle message Hhead.
    apply N.eqb_neq in Hnz. rewrite Hnz.
    assert (Hlt : (max_tar_size <? size st)%N = false) by (apply N.ltb_ge; lia).
    rewrite Hlt. reduce. rewrite Hhead. reflexivity.
  - intros Hnz Hle head message Hhead Hfull.
    apply N.eqb_neq in Hnz. rewrite Hnz.
    assert (Hlt : (max_tar_size <? size st)%N = false) by (apply N.ltb_ge; lia).
    rewrite Hlt. reduce. rewrite Hhead. reduce. rewrite Hfull. reflexivity.
Qed.

(** C8. Whenever a run of [validateDockerTarFile] executes the full tar
    listing and that command succeeds, the result is [{ isValid: true }],
    whatever the listing contains: a listing without [manifest.json] and
    without any [.json] entry only triggers a console warning. *)
Theorem validate_listing_succeeds_is_valid :
  forall (w : World) (R : Type) (tarFilePath : string) (r r' : R) (t seg : Trace)
         (o : Outcome ValidationResult) (listing : ExecOutput),
    validateDockerTarFile w tarFilePath r t = (o, r', (seg ++ t)%list) ->
    In (EvExec (TarList tarFilePath) (ExecOk listing)) seg ->
    o = Returned valid.
Proof.
  intros w R p r r' t seg o listing Hrun Hin.
  revert Hrun. unfold validateDockerTarFile. unfold_monad.
  repeat next_case; intros Hrun; inversion Hrun as [[Ho Hr Ht]]; try reflexivity;
    exfalso; symmetry in Ht;
    match type of Ht with
    | _ = ?e1 :: ?e2 :: ?e3 :: t => fix_segment Ht [e1; e2; e3]
    | _ = ?e1 :: ?e2 :: t => fix_segment Ht [e1; e2]
    | _ = ?e1 :: t => fix_segment Ht [e1]
    end;
    simpl in Hin; intuition discriminate.
Qed.

(** ** Registry pusher *)

Section PusherFacts.

Variable w : World.

Lemma pushImage_run (url imageName : string) (r : PushResult) (t : Trace) :
  exists r' seg st e,
    pushImage w url imageName r t = (Returned tt, r', (seg ++ t)%list)
    /\ PushRun url imageName seg st e
    /\ pushed r' = (pushed r ++ [outcome url imageName original st e;
                                 outcome url imageName latest st e])%list
    /\ push_errors r' = (push_errors r ++ failureMessage imageName e)%list
    /\ exists ws, push_warnings r' = (push_warnings r ++ ws)%list.
Proof.
  unfold pushImage, pushStderrWarning, cleanupLocalTag. unfold_monad.
  repeat next_case;
    (eexists; eexists; eexists; eexists;
     split; [ match goal with
              | |- (_, _, ?tr) = _ =>
                  match tr with
                  | ?e1 :: ?e2 :: ?e3 :: ?e4 :: ?e5 :: ?e6 :: t =>
                      change tr with ([e1; e2; e3; e4; e5; e6] ++ t)%list
                  | ?e1 :: ?e2 :: ?e3 :: ?e4 :: t =>
                      change tr with ([e1; e2; e3; e4] ++ t)%list
                  | ?e1 :: ?e2 :: ?e3 :: t => change tr with ([e1; e2; e3] ++ t)%list
                  | ?e1 :: ?e2 :: t => change tr with ([e1; e2] ++ t)%list
                  | ?e1 :: t => change tr with ([e1] ++ t)%list
                  end
              end; reflexivity
            | split; [ constructor | ] ]).
  all: unfold pushed_push, push_errors_push, push_warnings_push; cbn [pushed push_errors push_warnings failureMessage].
  all: rewrite <- ?app_assoc, ?app_nil_r; cbn [app].
  all: repeat split; try reflexivity.
  all: try (eexists; rewrite <- ?app_assoc; reflexivity).
  all: try (exists []; rewrite app_nil_r; reflexivity).
Qed.

Lemma pushLoop_runs (url : string) (imageNames : list string) :
  forall (r : PushResult) (t : Trace),
  exists r' seg outs errs,
    forEach imageNames (pushImage w url) r t = (Returned tt, r', seg ++ t)
    /\ PushRuns url imageNames seg outs errs
    /\ pushed r' = pushed r ++ outs
    /\ push_errors r' = push_errors r ++ errs
    /\ exists ws, push_warnings r' = push_warnings r ++ ws.
Proof.
  induction imageNames as [ | imageName rest IH ]; intros r t.
  - exists r, [], [], []. cbn [forEach]. unfold ret.
    repeat split; try constructor; rewrite ?app_nil_r; try reflexivity.
    exists []. rewrite app_nil_r. reflexivity.
  - destruct (pushImage_run url imageName r t)
      as (r1 & seg1 & st & e & Hrun & Hone & Hp1 & He1 & ws1 & Hw1).
    destruct (IH r1 (seg1 ++ t))
      as (r2 & seg2 & outs & errs & Hloop & Hruns & Hp2 & He2 & ws2 & Hw2).
    exists r2, (seg2 ++ seg1).
    eexists. eexists.
    split; [ | split; [ apply (runs_cons Hone Hruns) | ] ].
    + cbn [forEach]. unfold bind at 1. rewrite Hrun. rewrite Hloop.
      rewrite app_assoc. reflexivity.
    + rewrite Hp2, Hp1, He2, He1, Hw2, Hw1. rewrite <- !app_assoc.
      repeat split; try reflexivity. exists (ws1 ++ ws2). reflexivity.
Qed.

Lemma probeRegistry_run (url : string) (r : PushResult) (t : Trace) :
  exists r' probe,
    probeRegistry w url r t = (Returned tt, r', EvExec (CurlRegistry url) probe :: t)
    /\ pushed r' = pushed r
    /\ push_errors r' = push_errors r.
Proof.
  unfold probeRegistry. unfold_monad. repeat next_case; eauto.
Qed.

Lemma pushImages_runs (R : Type) (imageNames : list string) (r : R) (t : Trace) :
  exists res seg probe outs errs,
    pushImagesToLocalRegistry w imageNames r t
    = (Returned res, r, seg ++ EvExec (CurlRegistry (localRegistryUrl w)) probe :: t)
    /\ PushRuns (localRegistryUrl w) imageNames seg outs errs
    /\ pushed res = outs
    /\ push_errors res = errs.
Proof.
  destruct (probeRegistry_run (localRegistryUrl w) emptyPush t)
    as (r0 & probe & Hprobe & Hp0 & He0).
  destruct (pushLoop_runs (localRegistryUrl w) imageNames r0
              (EvExec (CurlRegistry (localRegistryUrl w)) probe :: t))
    as (r1 & seg & outs & errs & Hloop & Hruns & Hp1 & He1 & _).
  exists r1, seg, probe, outs, errs.
  unfold pushImagesToLocalRegistry, call, try_catch, bind, get.
  rewrite Hprobe, Hloop, Hp1, He1, Hp0, He0. auto.
Qed.

End PusherFacts.

(** *** What a run of the push loop entails *)

Lemma PushRun_stage url imageName seg st e :
  PushRun url imageName seg st e -> Forall (fun ev => stage ev = Pushing) seg.
Proof. intros H. destruct H; repeat constructor. Qed.

Lemma PushRuns_stage url imageNames seg outs errs :
  PushRuns url imageNames seg outs errs -> Forall (fun ev => stage ev = Pushing) seg.
Proof.
  induction 1 as [ | imageName imageNames seg segs st e outs errs Hone _ IH ].
  - constructor.
  - apply Forall_app. split; [ exact IH | apply (PushRun_stage Hone) ].
Qed.

(** The first command of an iteration is always the tagging of the
    versioned target. *)
Lemma PushRun_attempt url imageName seg st e :
  PushRun url imageName seg st e ->
  exists answer,
    In (EvExec (DockerTag imageName (originalLocalImageName url imageName)) answer) seg.
Proof. intros H. destruct H; eexists; cbn [In]; eauto 10. Qed.

Lemma PushRun_status url imageName seg st e :
  PushRun url imageName seg st e ->
  (st = success /\ e = None) \/ (st = failed /\ exists message, e = Some message).
Proof. intros H. destruct H; eauto. Qed.

Lemma PushRuns_attempts url imageNames seg outs errs :
  PushRuns url imageNames seg outs errs ->
  forall imageName, In imageName imageNames ->
  exists answer,
    In (EvExec (DockerTag imageName (originalLocalImageName url imageName)) answer) seg.
Proof.
  induction 1 as [ | n ns seg segs st e outs errs Hone _ IH ]; intros imageName Hin.
  - destruct Hin.
  - destruct Hin as [ <- | Hin ].
    + destruct (PushRun_attempt Hone) as (answer & Ha).
      exists answer. apply in_or_app. right. exact Ha.
    + destruct (IH _ Hin) as (answer & Ha).
      exists answer. apply in_or_app. left. exact Ha.
Qed.


Lemma PushRuns_length url imageNames seg outs errs :
  PushRuns url imageNames seg outs errs -> length outs = 2 * length imageNames.
Proof.
  induction 1 as [ | n ns seg segs st e outs errs _ _ IH ].
  - reflexivity.
  - cbn [length]. rewrite IH. lia.
Qed.



(** C1, counterexample.  With [myapp:1.2.0] as only reference: where the
    registry accepts the versioned push and refuses the latest one, both
    outcomes are recorded as failed; where it refuses the versioned push,
    the latest push is never attempted. *)
Lemma latest_push_depends_on_versioned_push :
  ~ latestRecordedIndependently latestPushFails "myapp:1.2.0"
  /\ ~ latestAlwaysAttempted versionedPushFails "myapp:1.2.0".
Proof.
  split; intros H.
  - evaluate (pushImagesToLocalRegistry (R := unit) latestPushFails ["myapp:1.2.0"] tt []) E.
    specialize (H _ _ {| stdout := ""; stderr := "" |} "connection reset by peer" E).
    assert (Hc : map (fun o => (type o, status o))
                     (pushed
                        {| pushed :=
                             [outcome "100.103.254.213:5001" "myapp:1.2.0" original failed
                                      (Some "connection reset by peer");
                              outcome "100.103.254.213:5001" "myapp:1.2.0" latest failed
                                      (Some "connection reset by peer")];
                           push_errors :=
                             ["Failed to push myapp:1.2.0: connection reset by peer"];
                           push_warnings := [] |})
                 = [(original, success); (latest, failed)]).
    { apply H; vm_compute; found. }
    vm_compute in Hc. discriminate Hc.
  - evaluate (pushImagesToLocalRegistry (R := unit) versionedPushFails ["myapp:1.2.0"] tt []) E.
    destruct (H _ _ E) as (answer & Hin).
    vm_compute in Hin. intuition discriminate.
Qed.

(** C1, as amended.  Whatever the environment answers, the pusher returns
    and its run is a [PushRuns]: per reference, the latest target is tagged
    and pushed only after the tag and the push of the versioned target
    succeeded, and the two outcomes of a reference always carry the same
    status and error, both [success] when all four commands succeeded and
    both [failed], with one entry in [errors], as soon as one of them
    failed.  In particular, for a reference whose versioned push succeeded
    and whose latest push failed, both outcomes are [failed] and carry the
    message of the latest push. *)
Theorem push_outcomes_share_status :
  forall w : World,
    (forall (R : Type) (imageNames : list string) (r : R) (t : Trace),
      exists res seg probe,
        pushImagesToLocalRegistry w imageNames r t
        = (Returned res, r, seg ++ EvExec (CurlRegistry (localRegistryUrl w)) probe :: t)
        /\ PushRuns (localRegistryUrl w) imageNames seg (pushed res) (push_errors res))
    /\ (forall (R : Type) (imageName : string) (r r' : R) (t seg : Trace)
               (res : PushResult) (pushedOutput : ExecOutput) (message : string),
          pushImagesToLocalRegistry w [imageName] r t = (Returned res, r', seg ++ t) ->
          In (EvExec (DockerPush (originalLocalImageName (localRegistryUrl w) imageName))
                     (ExecOk pushedOutput)) seg ->
          In (EvExec (DockerPush (latestLocalImageName (localRegistryUrl w) imageName))
                     (ExecFail message)) seg ->
          map (fun o => (type o, status o, push_error o)) (pushed res)
          = [(original, failed, Some message); (latest, failed, Some message)]).
Proof.
  intros w. split.
  - intros R imageNames r t.
    destruct (pushImages_runs w imageNames r t)
      as (res & seg & probe & outs & errs & Hrun & Hruns & Hp & He).
    exists res, seg, probe. rewrite Hp, He. auto.
  - intros R imageName r r' t seg res pushedOutput message Hrun Hok Hfail.
    destruct (pushImages_runs w [imageName] r t)
      as (res' & seg' & probe & outs & errs & Hrun' & Hruns & Hp & He).
    rewrite Hrun' in Hrun. injection Hrun as -> _ Hseg.
    change (seg' ++ EvExec (CurlRegistry (localRegistryUrl w)) probe :: t)
      with (seg' ++ [EvExec (CurlRegistry (localRegistryUrl w)) probe] ++ t) in Hseg.
    rewrite app_assoc in Hseg. apply segment_eq in Hseg. subst seg.
    inversion Hruns as [ | n ns sg sgs st e os es Hone Hrest ]; subst.
    inversion Hrest; subst. cbn [app] in *.
    destruct Hone; cbn [app] in Hok, Hfail; in_cases Hok; in_cases Hfail;
      try discriminate Hok; try discriminate Hfail.
    all: injection Hfail as <-.
    all: match goal with Hp' : _ = pushed _ |- _ => rewrite <- Hp' end.
    all: reflexivity.
Qed.



(** ** Image loader *)

Section LoaderFacts.

Variable w : World.

Lemma collectNames_run (ms : list string) :
  forall (r : LoadResult) (t : Trace),
    forEach ms (fun m => modify (images_push [loadedImageName m])) r t
    = (Returned tt,
       {| images := images r ++ map loadedImageName ms;
          load_errors := load_errors r;
          load_warnings := load_warnings r |}, t).
Proof.
  induction ms as [ | m ms IH ]; intros r t; cbn [forEach map].
  - unfold ret. rewrite app_nil_r. destruct r; reflexivity.
  - unfold bind at 1. unfold modify at 1. rewrite IH.
    unfold images_push; cbn [images load_errors load_warnings].
    rewrite <- app_assoc. reflexivity.
Qed.

Lemma inspectLoop_runs (ms : list string) :
  forall (r : LoadResult) (t : Trace),
  exists r' seg names ws,
    forEach ms (inspectImageId w) r t = (Returned tt, r', seg ++ t)
    /\ InspectRuns ms seg names ws
    /\ images r' = images r ++ names
    /\ load_errors r' = load_errors r
    /\ load_warnings r' = load_warnings r ++ ws.
Proof.
  induction ms as [ | m ms IH ]; intros r t.
  - exists r, [], [], []. cbn [forEach]. unfold ret. rewrite !app_nil_r.
    repeat split; constructor.
  - cbn [forEach]. unfold bind at 1. unfold inspectImageId at 1. unfold_monad.
    destruct (w_exec w t (render (DockerInspect (loadedImageId m)))) as [out | e] eqn:Hexec.
    + destruct (IH (images_push (repoTags (stdout out)) r)
                   (EvExec (DockerInspect (loadedImageId m)) (ExecOk out) :: t))
        as (r' & seg & names & ws & Hloop & Hruns & Hi & He & Hw).
      rewrite Hloop.
      exists r', (seg ++ [EvExec (DockerInspect (loadedImageId m)) (ExecOk out)]).
      eexists. eexists.
      split; [ rewrite <- app_assoc; reflexivity | ].
      split; [ apply (inspect_answers m out Hruns) | ].
      rewrite Hi, He, Hw. unfold images_push; cbn [images load_errors load_warnings].
      rewrite <- app_assoc. auto.
    + destruct (IH (load_warnings_push (inspectWarning (loadedImageId m)) r)
                   (EvExec (DockerInspect (loadedImageId m)) (ExecFail e) :: t))
        as (r' & seg & names & ws & Hloop & Hruns & Hi & He & Hw).
      rewrite Hloop.
      exists r', (seg ++ [EvExec (DockerInspect (loadedImageId m)) (ExecFail e)]).
      eexists. eexists.
      split; [ rewrite <- app_assoc; reflexivity | ].
      split; [ apply (inspect_fails m e Hruns) | ].
      rewrite Hi, He, Hw. unfold load_warnings_push; cbn [images load_errors load_warnings].
      rewrite <- app_assoc. auto.
Qed.

Lemma findRecentImages_run (r : LoadResult) (t : Trace) :
  exists r' seg names ws,
    findRecentImages w r t = (Returned tt, r', seg ++ t)
    /\ RecentRun seg names ws
    /\ images r' = images r ++ names
    /\ load_errors r' = load_errors r
    /\ load_warnings r' = load_warnings r ++ ws.
Proof.
  unfold findRecentImages. unfold_monad.
  destruct (w_exec w t (render DockerImages)) as [out | e] eqn:Hexec; reduce.
  - destruct (recentImages (stdout out)) as [ | img imgs ] eqn:Hrecent.
    + cbn [length Nat.ltb Nat.leb]. reduce.
      exists r, [EvExec DockerImages (ExecOk out)], [], [].
      rewrite !app_nil_r. repeat split. apply recent_empty. assumption.
    + cbn [length Nat.ltb Nat.leb]. reduce.
      eexists. exists [EvExec DockerImages (ExecOk out)].
      exists (firstn 5 (img :: imgs)), [recentImagesWarning].
      split; [ reflexivity | ]. rewrite <- Hrecent.
      split; [ apply recent_found; rewrite Hrecent; discriminate | ].
      unfold images_push, load_warnings_push; cbn [images load_errors load_warnings].
      auto.
  - eexists. exists [EvExec DockerImages (ExecFail e)], [].
    eexists.
    split; [ reflexivity | ]. split; [ apply recent_fails | ].
    unfold load_warnings_push; cbn [images load_errors load_warnings].
    rewrite app_nil_r. auto.
Qed.

Lemma load_runs (R : Type) (p : string) (r : R) (t : Trace) :
  exists lr seg,
    loadDockerImagesFromTar w p r t = (Returned lr, r, seg ++ t)
    /\ LoadRun p seg lr.
Proof.
  unfold loadDockerImagesFromTar, call, try_catch.
  unfold bind at 1. unfold fs_pathExists at 1.
  destruct (w_pathExists w t p) eqn:Hexists; reduce.
  2:{ unfold throw. eexists. exists [EvPathExists p false].
      split; [ reflexivity | constructor ]. }
  unfold bind at 1. unfold execPromise at 1. reduce.
  destruct (w_exec w (EvPathExists p true :: t) (render (DockerLoad p)))
    as [out | e] eqn:Hload; reduce.
  2:{ eexists. exists [EvExec (DockerLoad p) (ExecFail e); EvPathExists p true].
      split; [ reflexivity | constructor ]. }
  rewrite (bind_returned (when_modify _ _ _ _)).
  match goal with
  | |- context [bind _ _ ?r1 _] =>
      assert (Hr1 : r1 = {| images := []; load_errors := [];
                           load_warnings := loadStderrWarning out |})
        by (unfold loadStderrWarning; destruct (negb _ && _); reflexivity);
      rewrite Hr1; clear Hr1
  end.
  rewrite (bind_returned (collectNames_run _ _ _)).
  cbn [images load_errors load_warnings app]. fold (loadedImageNames (stdout out)).
  msimp. cbn [images].
  destruct (loadedImageNames (stdout out)) as [ | name names ] eqn:Hnames.
  - cbn [length Nat.eqb]. msimp.
    match goal with
    | |- context [bind (forEach ?ms _) _ ?r0 ?t0] =>
        destruct (inspectLoop_runs ms r0 t0)
          as (r2 & seg2 & names2 & ws2 & Hloop & Hruns & Hi & He & Hw)
    end.
    cbn [images load_errors load_warnings app] in Hi, He, Hw.
    rewrite (bind_returned Hloop). msimp. rewrite Hi.
    destruct names2 as [ | name2 names2 ].
    + cbn [length Nat.eqb]. msimp.
      destruct (findRecentImages_run r2 (seg2 ++ EvExec (DockerLoad p) (ExecOk out)
                                             :: EvPathExists p true :: t))
        as (r3 & seg3 & names3 & ws3 & Hrecent & Hrun3 & Hi3 & He3 & Hw3).
      rewrite Hi, He, Hw in *. cbn [app] in Hi3.
      rewrite (bind_returned Hrecent). msimp. rewrite Hi3.
      rewrite (bind_returned (when_modify _ _ _ _)). msimp.
      eexists. exists (seg3 ++ seg2 ++ [EvExec (DockerLoad p) (ExecOk out);
                                        EvPathExists p true]).
      split; [ rewrite <- !app_assoc; reflexivity | ].
      pose proof (load_by_recency p out Hnames Hruns Hrun3) as Hspec.
      destruct names3 as [ | name3 names3 ]; cbn [length Nat.eqb];
        unfold load_errors_push; destruct r3 as [i3 e3 w3];
        cbn [images load_errors load_warnings] in *; subst;
        rewrite <- ?app_assoc; exact Hspec.
    + cbn [length Nat.eqb]. msimp. rewrite Hi.
      cbn [length Nat.eqb]. msimp.
      eexists. exists (seg2 ++ [EvExec (DockerLoad p) (ExecOk out);
                               EvPathExists p true]).
      split; [ rewrite <- !app_assoc; reflexivity | ].
      assert (Hne : name2 :: names2 <> []) by discriminate.
      pose proof (load_by_id p out Hnames Hruns Hne) as Hspec.
      destruct r2 as [i2 e2 w2]; cbn [images load_errors load_warnings] in *;
        subst; exact Hspec.
  - cbn [length Nat.eqb]. msimp. cbn [images length Nat.eqb]. msimp.
    eexists. exists [EvExec (DockerLoad p) (ExecOk out); EvPathExists p true].
    split; [ reflexivity | ].
    rewrite <- Hnames. apply load_by_name. rewrite Hnames. discriminate.
Qed.

End LoaderFacts.

(** *** What a run of the loader entails *)

Lemma InspectRuns_stage ms seg names ws :
  InspectRuns ms seg names ws -> Forall (fun ev => stage ev = Loading) seg.
Proof.
  induction 1; [ constructor | | ];
    (apply Forall_app; split; [ assumption | repeat constructor ]).
Qed.

Lemma RecentRun_stage seg names ws :
  RecentRun seg names ws -> Forall (fun ev => stage ev = Loading) seg.
Proof. destruct 1; repeat constructor. Qed.

Lemma RecentRun_at_most_five seg names ws :
  RecentRun seg names ws -> length names <= 5.
Proof.
  destruct 1; cbn [length]; try lia.
  rewrite length_firstn. lia.
Qed.

Lemma InspectRuns_events ms seg names ws :
  InspectRuns ms seg names ws ->
  forall ev, In ev seg -> exists imageId answer, ev = EvExec (DockerInspect imageId) answer.
Proof.
  induction 1 as [ | m ms out seg names ws _ IH | m ms e seg names ws _ IH ];
    intros ev Hin.
  - destruct Hin.
  - in_cases Hin; eauto.
  - in_cases Hin; eauto.
Qed.

Lemma RecentRun_events seg names ws :
  RecentRun seg names ws ->
  forall ev, In ev seg -> exists answer, ev = EvExec DockerImages answer.
Proof. destruct 1; intros ev Hin; in_cases Hin; eauto. Qed.

(** A loader run whose [docker load] succeeded and that recovered no name
    reports exactly [NoImagesLoaded]. *)
Lemma LoadRun_nothing_recovered p seg lr out :
  LoadRun p seg lr ->
  In (EvExec (DockerLoad p) (ExecOk out)) seg ->
  images lr = [] ->
  load_errors lr = [NoImagesLoaded].
Proof.
  intros Hrun Hin Hnone.
  destruct Hrun as [ | e | out' Hn | out' seg2 names ws Hn H2 Hne
                     | out' seg2 ws seg3 names ws3 Hn H2 H3 ];
    cbn [images load_errors] in *.
  - in_cases Hin; discriminate Hin.
  - in_cases Hin; discriminate Hin.
  - contradiction.
  - contradiction.
  - subst names. reflexivity.
Qed.

(** A loader run without a successful [docker load] reports why the load
    failed, and nothing else. *)
Lemma LoadRun_load_failed p seg lr :
  LoadRun p seg lr ->
  (forall out, ~ In (EvExec (DockerLoad p) (ExecOk out)) seg) ->
  images lr = []
  /\ exists message,
      load_errors lr = [("Failed to load images from tar: " ++ message)%string].
Proof.
  intros Hrun Hnot.
  destruct Hrun as [ | e | out' Hn | out' seg2 names ws Hn H2 Hne
                     | out' seg2 ws seg3 names ws3 Hn H2 H3 ];
    cbn [images load_errors].
  - split; [ reflexivity | ]. exists "Tar file not found". reflexivity.
  - split; [ reflexivity | ]. exists e. reflexivity.
  - exfalso. apply (Hnot out'). left. reflexivity.
  - exfalso. apply (Hnot out'). apply in_or_app. right. left. reflexivity.
  - exfalso. apply (Hnot out'). apply in_or_app. right.
    apply in_or_app. right. left. reflexivity.
Qed.

(** A loader run whose [docker load] succeeded, taken apart by strategy. *)
Lemma LoadRun_strategies p seg lr out :
  LoadRun p seg lr ->
  In (EvExec (DockerLoad p) (ExecOk out)) seg ->
  exists seg2 names2 ws2 seg3 names3 ws3,
    seg = seg3 ++ seg2 ++ [EvExec (DockerLoad p) (ExecOk out); EvPathExists p true]
    /\ images lr = loadedImageNames (stdout out) ++ names2 ++ names3
    /\ load_warnings lr = loadStderrWarning out ++ ws2 ++ ws3
    /\ match loadedImageNames (stdout out) with
       | [] => InspectRuns (Js.match_all "Loaded image ID: " (stdout out))
                           seg2 names2 ws2
       | _ :: _ => seg2 = [] /\ names2 = [] /\ ws2 = []
       end
    /\ match loadedImageNames (stdout out) ++ names2 with
       | [] => RecentRun seg3 names3 ws3
       | _ :: _ => seg3 = [] /\ names3 = [] /\ ws3 = []
       end.
Proof.
  intros Hrun Hin.
  destruct Hrun as [ | e | out' Hn | out' seg2 names ws Hn H2 Hne
                     | out' seg2 ws seg3 names ws3 Hn H2 H3 ].
  - in_cases Hin; discriminate Hin.
  - in_cases Hin; discriminate Hin.
  - in_cases Hin; try discriminate Hin.
    injection Hin as <-.
    exists [], [], [], [], [], [].
    cbn [images load_warnings app]. rewrite !app_nil_r.
    destruct (loadedImageNames (stdout out')); [ contradiction | auto 10 ].
  - assert (out' = out) as ->.
    { in_cases Hin; try discriminate Hin.
      - destruct (InspectRuns_events H2 _ Hin) as (i & a & Hev). discriminate Hev.
      - injection Hin as <-. reflexivity. }
    exists seg2, names, ws, [], [], [].
    cbn [images load_warnings app]. rewrite Hn, !app_nil_r. cbn [app].
    destruct names; [ contradiction | auto 10 ].
  - assert (out' = out) as ->.
    { in_cases Hin; try discriminate Hin.
      - destruct (RecentRun_events H3 _ Hin) as (a & Hev). discriminate Hev.
      - destruct (InspectRuns_events H2 _ Hin) as (i & a & Hev). discriminate Hev.
      - injection Hin as <-. reflexivity. }
    exists seg2, [], ws, seg3, names, ws3.
    cbn [images load_warnings app]. rewrite Hn. cbn [app]. auto 10.
Qed.

Lemma LoadRun_stage p seg lr :
  LoadRun p seg lr -> Forall (fun ev => stage ev = Loading) seg.
Proof.
  destruct 1 as [ | e | out Hn | out seg2 names ws Hn H2 Hne
                  | out seg2 ws seg3 names ws3 Hn H2 H3 ];
    repeat (apply Forall_app; split);
    eauto using InspectRuns_stage, RecentRun_stage;
    repeat constructor.
Qed.

(** ** Pipeline orchestrator *)

Section OrchestratorFacts.

Variable w : World.

Lemma try_catch_returned {R A} (m : M R A) (h : string -> M R A) r t a r' t' :
  m r t = (Returned a, r', t') -> try_catch m h r t = (Returned a, r', t').
Proof. intros H. unfold try_catch. rewrite H. reflexivity. Qed.

Lemma when_errors_push (l : list string) (r : PipelineResult) (t : Trace) :
  (if (0 <? length l)%nat then modify (errors_push l) else ret tt) r t
  = (Returned tt, errors_push l r, t).
Proof.
  destruct l; [ | reflexivity ].
  cbn [length Nat.ltb Nat.leb]. unfold ret, errors_push. rewrite app_nil_r.
  destruct r; reflexivity.
Qed.

Lemma when_warnings_push (l : list string) (r : PipelineResult) (t : Trace) :
  (if (0 <? length l)%nat then modify (warnings_push l) else ret tt) r t
  = (Returned tt, warnings_push l r, t).
Proof.
  destruct l; [ | reflexivity ].
  cbn [length Nat.ltb Nat.leb]. unfold ret, warnings_push. rewrite app_nil_r.
  destruct r; reflexivity.
Qed.

Lemma cleanup_run (p : string) (r : PipelineResult) (t : Trace) :
  try_catch (fs_unlink w p)
            (fun cleanupError =>
               modify (warnings_push
                         [("Failed to cleanup tar file: " ++ cleanupError)%string])) r t
  = (Returned tt, warnings_push (cleanupWarning (w_unlink w t p)) r,
     EvUnlink p (w_unlink w t p) :: t).
Proof.
  unfold try_catch, fs_unlink. reduce.
  destruct (w_unlink w t p); [ reflexivity | ].
  unfold warnings_push, cleanupWarning. rewrite app_nil_r. destruct r; reflexivity.
Qed.

Lemma process_runs (R : Type) (file : File) (r : R) (t : Trace) :
  exists o seg,
    processDockerTarFile w file r t = (o, r, seg ++ t)
    /\ ProcessRun (localRegistryUrl w) file seg o.
Proof.
  unfold processDockerTarFile, call.
  unfold try_catch at 1. unfold bind at 1.
  unfold try_catch at 1. unfold bind at 1. unfold execPromise at 1. reduce.
  destruct (w_exec w t (render DockerVersion)) as [version | e] eqn:Hversion; reduce.
  2:{ unfold throw. eexists. exists [EvExec DockerVersion (ExecFail e)].
      split; [ reflexivity | constructor ]. }
  unfold ret at 1. reduce.
  destruct (load_runs w (path file) emptyPipeline
                      (EvExec DockerVersion (ExecOk version) :: t))
    as (lr & segL & Hload & HrunL).
  rewrite (bind_returned Hload). msimp.
  rewrite (bind_returned (when_errors_push _ _ _)).
  rewrite (bind_returned (when_warnings_push _ _ _)).
  destruct (images lr) as [ | name names ] eqn:Himages.
  - change ((0 <? Datatypes.length (@nil string))%nat) with false. msimp.
    rewrite (bind_returned (cleanup_run _ _ _)). msimp.
    eexists. eexists ([EvUnlink (path file) _] ++ segL
                      ++ [EvExec DockerVersion (ExecOk version)]).
    split; [ rewrite <- !app_assoc; reflexivity | ].
    pose proof (process_nothing_loaded (localRegistryUrl w) file version
                  (w_unlink w (segL ++ EvExec DockerVersion (ExecOk version) :: t)
                            (path file)) HrunL Himages) as Hspec.
    unfold warnings_push, errors_push, set_loadedImages, emptyPipeline.
    cbn [loadedImages pushedImages errors warnings app].
    rewrite <- ?app_assoc. exact Hspec.
  - change ((0 <? Datatypes.length (name :: names))%nat) with true. reduce.
    rewrite <- Himages.
    match goal with
    | |- context [bind (try_catch _ _) _ ?r0 ?t0] =>
        destruct (pushImages_runs w (images lr) r0 t0)
          as (res & segP & probe & outs & errs & Hpush & Hruns & Hp & He)
    end.
    match goal with
    | |- context [bind (try_catch ?m ?h) _ ?r0 ?t0] =>
        assert (Hblock : try_catch m h r0 t0
                         = (Returned tt,
                            warnings_push (push_warnings res)
                              (errors_push (push_errors res)
                                 (set_pushedImages (pushed res) r0)),
                            segP ++ EvExec (CurlRegistry (localRegistryUrl w)) probe :: t0))
    end.
    { apply try_catch_returned. rewrite (bind_returned Hpush). msimp.
      rewrite (bind_returned (when_errors_push _ _ _)).
      apply when_warnings_push. }
    rewrite (bind_returned Hblock).
    rewrite (bind_returned (cleanup_run _ _ _)). msimp.
    eexists. eexists ([EvUnlink (path file) _] ++ segP
                      ++ [EvExec (CurlRegistry (localRegistryUrl w)) probe]
                      ++ segL ++ [EvExec DockerVersion (ExecOk version)]).
    split; [ rewrite <- !app_assoc; reflexivity | ].
    assert (Hne : images lr <> []) by (rewrite Himages; discriminate).
    pose proof (process_pushed file version probe (push_warnings res)
                  (w_unlink w (segP ++ EvExec (CurlRegistry (localRegistryUrl w)) probe
                                    :: segL ++ EvExec DockerVersion (ExecOk version) :: t)
                            (path file)) HrunL Hne Hruns) as Hspec.
    unfold warnings_push, errors_push, set_loadedImages, set_pushedImages, emptyPipeline.
    cbn [loadedImages pushedImages errors warnings app].
    rewrite Hp, He. rewrite <- ?app_assoc. exact Hspec.
Qed.

End OrchestratorFacts.

(** ** The upload route *)

Section RouteFacts.

Variable w : World.

Lemma upload_runs (req_file : option File) (t : Trace) :
  exists seg,
    postUploadDockerTar w req_file tt t = (Returned tt, tt, seg ++ t)
    /\ UploadRun (localRegistryUrl w) req_file seg.
Proof.
  destruct req_file as [ file | ].
  2:{ eexists. split; [ | apply upload_without_file ]. reflexivity. }
  unfold postUploadDockerTar, try_catch.
  destruct (validate_run w (path file) tt t) as (v & segV & Hval & HsegV).
  rewrite (bind_returned Hval).
  destruct (isValid v) eqn:Hvalid; reduce.
  - destruct (process_runs w file tt (segV ++ t)) as (o & segP & Hproc & HrunP).
    destruct o as [ d | e ].
    + rewrite (bind_returned Hproc). unfold respond.
      eexists. split; [ | eapply upload_processed; eassumption ].
      rewrite <- !app_assoc. reflexivity.
    + rewrite (bind_thrown Hproc).
      assert (Hretry : exists unlinked,
                 (if negb (Js.is_empty (path file))
                  then try_catch (fs_unlink w (path file))
                         (fun cleanupError =>
                            console_warn ("Failed to cleanup file after error: "
                                          ++ cleanupError)%string)
                  else ret tt) tt (segP ++ segV ++ t)
                 = (Returned tt, tt, retryUnlink file unlinked ++ segP ++ segV ++ t)).
      { unfold retryUnlink. destruct (Js.is_empty (path file)); reduce.
        - exists None. reflexivity.
        - unfold_monad.
          match goal with
          | |- context [w_unlink w ?h ?p] =>
              exists (w_unlink w h p); destruct (w_unlink w h p); reflexivity
          end. }
      destruct Hretry as (unlinked & Hretry).
      rewrite (bind_returned Hretry). unfold respond.
      eexists. split; [ | eapply upload_failed with (unlinked := unlinked); eassumption ].
      rewrite <- !app_assoc. reflexivity.
  - unfold bind at 1. unfold fs_unlink at 1. reduce.
    destruct (w_unlink w (segV ++ t) (path file)) as [ e | ] eqn:Hunlink; reduce.
    + assert (Hretry : exists unlinked,
                 (if negb (Js.is_empty (path file))
                  then try_catch (fs_unlink w (path file))
                         (fun cleanupError =>
                            console_warn ("Failed to cleanup file after error: "
                                          ++ cleanupError)%string)
                  else ret tt) tt (EvUnlink (path file) (Some e) :: segV ++ t)
                 = (Returned tt, tt,
                    retryUnlink file unlinked ++ EvUnlink (path file) (Some e) :: segV ++ t)).
      { unfold retryUnlink. destruct (Js.is_empty (path file)); reduce.
        - exists None. reflexivity.
        - unfold_monad.
          match goal with
          | |- context [w_unlink w ?h ?p] =>
              exists (w_unlink w h p); destruct (w_unlink w h p); reflexivity
          end. }
      destruct Hretry as (unlinked & Hretry).
      rewrite (bind_returned Hretry). unfold respond.
      eexists. split; [ | eapply upload_rejected_unlink_fails with (unlinked := unlinked) (e := e); eassumption ].
      rewrite <- !app_assoc. reflexivity.
    + unfold respond.
      eexists. split; [ | eapply upload_rejected; eassumption ].
      reflexivity.
Qed.

End RouteFacts.

(** The run of the push loop on a list, around one of its references. *)
Lemma PushRuns_at url l1 n l2 seg outs errs :
  PushRuns url (l1 ++ n :: l2) seg outs errs ->
  exists s1 sn s2 st e o1 o2 e1 e2,
    seg = s2 ++ sn ++ s1
    /\ PushRuns url l1 s1 o1 e1
    /\ PushRun url n sn st e
    /\ PushRuns url l2 s2 o2 e2
    /\ outs = o1 ++ outcome url n original st e :: outcome url n latest st e :: o2
    /\ errs = e1 ++ failureMessage n e ++ e2.
Proof.
  revert seg outs errs. induction l1 as [ | m l1 IH ]; intros seg outs errs H.
  - cbn [app] in H.
    inversion H as [ | n' ns sg sgs st e os es Hone Hrest ]; subst.
    exists [], sg, sgs, st, e, [], os, [], es.
    rewrite app_nil_r. repeat split; try reflexivity; try assumption. constructor.
  - cbn [app] in H.
    inversion H as [ | n' ns sg sgs st e os es Hone Hrest ]; subst.
    destruct (IH _ _ _ Hrest)
      as (s1 & sn & s2 & st' & e' & o1 & o2 & e1 & e2
          & Hseg & H1 & Hn & H2 & Houts & Herrs).
    subst sgs os es.
    exists (s1 ++ sg), sn, s2, st', e'.
    exists (outcome url m original st e :: outcome url m latest st e :: o1), o2.
    exists (failureMessage m e ++ e1), e2.
    split; [ rewrite <- !app_assoc; reflexivity | ].
    split; [ exact (runs_cons Hone H1) | ].
    split; [ exact Hn | ]. split; [ exact H2 | ].
    split; [ reflexivity | rewrite <- app_assoc; reflexivity ].
Qed.

(** A reference recorded as pushed went through its four commands, the
    removal of its two local tags behind them. *)
Lemma PushRun_success url imageName seg e :
  PushRun url imageName seg success e ->
  exists o1 o2 o3 o4 r5 r6,
    seg = [EvExec (DockerRmi (latestLocalImageName url imageName)) r6;
           EvExec (DockerRmi (originalLocalImageName url imageName)) r5;
           EvExec (DockerPush (latestLocalImageName url imageName)) (ExecOk o4);
           EvExec (DockerTag imageName (latestLocalImageName url imageName)) (ExecOk o3);
           EvExec (DockerPush (originalLocalImageName url imageName)) (ExecOk o2);
           EvExec (DockerTag imageName (originalLocalImageName url imageName)) (ExecOk o1)].
Proof.
  intros H. inversion H; subst. do 6 eexists. reflexivity.
Qed.

(** Within the commands of one reference, a target is only pushed once it
    has been tagged, successfully, as that reference. *)
Lemma PushRun_pushes_its_tag url imageName seg st e :
  PushRun url imageName seg st e ->
  forall target answer,
    In (EvExec (DockerPush target) answer) seg ->
    exists newer tagged older,
      seg = newer ++ EvExec (DockerPush target) answer
            :: EvExec (DockerTag imageName target) (ExecOk tagged) :: older.
Proof.
  intros H target answer Hin.
  destruct H; cbn [In] in Hin;
    repeat match type of Hin with
           | _ \/ _ => destruct Hin as [ Hin | Hin ]
           | False => destruct Hin
           end;
    try discriminate Hin; injection Hin as <- <-;
    first [ exists []; do 2 eexists; reflexivity
          | eexists [_]; do 2 eexists; reflexivity
          | eexists [_; _]; do 2 eexists; reflexivity
          | eexists [_; _; _]; do 2 eexists; reflexivity
          | eexists [_; _; _; _]; do 2 eexists; reflexivity ].
Qed.

(** C9. The pusher takes the repository and the tag of a reference from
    what follows its last [/]: every registry or namespace prefix is
    dropped.  Two references with the same last segment [base], prefixed
    or not, therefore get the same two targets, those of [base] itself.
    When both stand in the input list, the commands of the later one come
    later in the history, and each of its pushes is the push of a target
    that has just been tagged as the later reference: if both references
    are recorded as pushed, the versioned target and the latest target were
    first tagged and pushed as the earlier reference, then tagged and pushed
    again, under the very same names, as the later one. *)
Theorem shared_last_segment_shares_targets :
  forall (w : World) (a b base : string),
    Js.includes "/" base = false ->
    (a = base \/ exists pre, a = (pre ++ "/" ++ base)%string) ->
    (b = base \/ exists pre, b = (pre ++ "/" ++ base)%string) ->
    let url := localRegistryUrl w in
    let versioned := originalLocalImageName url base in
    let newest := latestLocalImageName url base in
    (imageBaseName a = base /\ imageBaseName b = base)
    /\ (originalLocalImageName url a = versioned
        /\ originalLocalImageName url b = versioned)
    /\ (latestLocalImageName url a = newest /\ latestLocalImageName url b = newest)
    /\ forall (R : Type) (l1 l2 l3 : list string) (r : R) (t : Trace),
        exists res probe s1 segA s2 segB s3 stA eA stB eB,
          pushImagesToLocalRegistry w (l1 ++ a :: l2 ++ b :: l3) r t
          = (Returned res, r,
             s3 ++ segB ++ s2 ++ segA ++ s1 ++ EvExec (CurlRegistry url) probe :: t)
          /\ In {| originalName := a; localName := versioned; registryUrl := url;
                   tag := originalTag base; status := stA; type := original;
                   push_error := eA |} (pushed res)
          /\ In {| originalName := b; localName := versioned; registryUrl := url;
                   tag := originalTag base; status := stB; type := original;
                   push_error := eB |} (pushed res)
          /\ (forall target answer,
                 In (EvExec (DockerPush target) answer) segA ->
                 (target = versioned \/ target = newest)
                 /\ exists newer tagged older,
                     segA = newer ++ EvExec (DockerPush target) answer
                            :: EvExec (DockerTag a target) (ExecOk tagged) :: older)
          /\ (forall target answer,
                 In (EvExec (DockerPush target) answer) segB ->
                 (target = versioned \/ target = newest)
                 /\ exists newer tagged older,
                     segB = newer ++ EvExec (DockerPush target) answer
                            :: EvExec (DockerTag b target) (ExecOk tagged) :: older)
          /\ (stA = success ->
              exists o1 o2 o3 o4 r5 r6,
                segA = [EvExec (DockerRmi newest) r6;
                        EvExec (DockerRmi versioned) r5;
                        EvExec (DockerPush newest) (ExecOk o4);
                        EvExec (DockerTag a newest) (ExecOk o3);
                        EvExec (DockerPush versioned) (ExecOk o2);
                        EvExec (DockerTag a versioned) (ExecOk o1)])
          /\ (stB = success ->
              exists o1 o2 o3 o4 r5 r6,
                segB = [EvExec (DockerRmi newest) r6;
                        EvExec (DockerRmi versioned) r5;
                        EvExec (DockerPush newest) (ExecOk o4);
                        EvExec (DockerTag b newest) (ExecOk o3);
                        EvExec (DockerPush versioned) (ExecOk o2);
                        EvExec (DockerTag b versioned) (ExecOk o1)]).
Proof.
  intros w a b base Hbase Ha Hb url versioned newest.
  assert (Hplain : imageBaseName base = base).
  { unfold imageBaseName. rewrite Hbase. reflexivity. }
  assert (Hdrop : forall x,
             (x = base \/ exists pre, x = (pre ++ "/" ++ base)%string) ->
             imageBaseName x = base).
  { intros x [ -> | (pre & ->) ]; [ exact Hplain | ].
    unfold imageBaseName.
    change (pre ++ "/" ++ base)%string with (pre ++ String "/" base)%string.
    change "/"%string with (String "/" EmptyString).
    rewrite JsFacts.includes_separator, JsFacts.pop_split_separator.
    rewrite (JsFacts.split_without_separator _ _ Hbase). reflexivity. }
  assert (Hrepo : forall x, imageBaseName x = base -> repoName x = repoName base).
  { intros x Hx. unfold repoName. rewrite Hx, Hplain. reflexivity. }
  assert (Htag : forall x, imageBaseName x = base -> originalTag x = originalTag base).
  { intros x Hx. unfold originalTag. rewrite Hx, Hplain. reflexivity. }
  assert (Hversioned : forall x, imageBaseName x = base ->
                                 originalLocalImageName url x = versioned).
  { intros x Hx. unfold versioned, originalLocalImageName.
    rewrite (Hrepo x Hx), (Htag x Hx). reflexivity. }
  assert (Hnewest : forall x, imageBaseName x = base ->
                              latestLocalImageName url x = newest).
  { intros x Hx. unfold newest, latestLocalImageName.
    rewrite (Hrepo x Hx). reflexivity. }
  pose proof (Hdrop a Ha) as HA. pose proof (Hdrop b Hb) as HB.
  split; [ split; assumption | ].
  split; [ split; [ exact (Hversioned a HA) | exact (Hversioned b HB) ] | ].
  split; [ split; [ exact (Hnewest a HA) | exact (Hnewest b HB) ] | ].
  intros R l1 l2 l3 r t.
  destruct (pushImages_runs w (l1 ++ a :: l2 ++ b :: l3) r t)
    as (res & seg & probe & outs & errs & Hrun & Hruns & Hp & _).
  fold url in Hrun, Hruns.
  destruct (PushRuns_at _ _ _ Hruns)
    as (s1 & segA & rest & stA & eA & o1 & oRest & e1 & eRest
        & Hseg & _ & HrunA & Hrest & Houts & _).
  destruct (PushRuns_at _ _ _ Hrest)
    as (s2 & segB & s3 & stB & eB & o2 & o3 & e2 & e3
        & Hseg' & _ & HrunB & _ & Houts' & _).
  exists res, probe, s1, segA, s2, segB, s3, stA, eA, stB, eB.
  split; [ | split; [ | split; [ | split; [ | split; [ | split ] ] ] ] ].
  - rewrite Hrun, Hseg, Hseg'. rewrite <- !app_assoc. reflexivity.
  - rewrite Hp, Houts. apply in_or_app. right. left.
    unfold outcome. rewrite (Hversioned a HA), (Htag a HA). reflexivity.
  - rewrite Hp, Houts, Houts'. apply in_or_app. right. right. right.
    apply in_or_app. right. left.
    unfold outcome. rewrite (Hversioned b HB), (Htag b HB). reflexivity.
  - intros target answer Hin. split.
    + rewrite <- (Hversioned a HA), <- (Hnewest a HA).
      destruct HrunA; cbn [In] in Hin;
        repeat match type of Hin with
               | _ \/ _ => destruct Hin as [ Hin | Hin ]
               | False => destruct Hin
               end;
        try discriminate Hin; injection Hin as <- _; auto.
    + exact (PushRun_pushes_its_tag HrunA _ _ Hin).
  - intros target answer Hin. split.
    + rewrite <- (Hversioned b HB), <- (Hnewest b HB).
      destruct HrunB; cbn [In] in Hin;
        repeat match type of Hin with
               | _ \/ _ => destruct Hin as [ Hin | Hin ]
               | False => destruct Hin
               end;
        try discriminate Hin; injection Hin as <- _; auto.
    + exact (PushRun_pushes_its_tag HrunB _ _ Hin).
  - intros ->. rewrite <- (Hversioned a HA), <- (Hnewest a HA).
    exact (PushRun_success HrunA).
  - intros ->. rewrite <- (Hversioned b HB), <- (Hnewest b HB).
    exact (PushRun_success HrunB).
Qed.

(** *** Whole requests *)





Lemma stage_differs (s s' : Stage) (seg : Trace) :
  s <> s' -> Forall (fun ev => stage ev = s) seg -> Forall (fun ev => stage ev <> s') seg.
Proof.
  intros Hne HF. apply (Forall_impl _ (P := fun ev => stage ev = s)); [ | exact HF ].
  intros ev Hev. rewrite Hev. exact Hne.
Qed.

(** C4, counterexample.  For the archive the engine cannot load, the loader
    returns no image and its errors do not hold [NoImagesLoaded]: they hold
    the message of the failed load. *)
Lemma failed_load_reports_its_own_error :
  ~ reportsNoImagesLoaded loadFails (path sampleUpload).
Proof.
  intros H.
  evaluate (loadDockerImagesFromTar (R := unit) loadFails (path sampleUpload) tt []) E.
  specialize (H _ _ E eq_refl).
  vm_compute in H. intuition discriminate.
Qed.

(** C4, as amended.  The loader returns on every input and in every
    environment; it never throws.  When it recovers no image, its errors are
    exactly [NoImagesLoaded] if its [docker load] succeeded (no strategy
    produced a name), and otherwise exactly the message of the failed load.
    A request that entered the loader is answered with status 200, and when
    the result holds no loaded image it holds no pushed image, nothing of
    the push stage (probe, tag, push, rmi) was run before the answer, and
    the errors of the result are those of the loader. *)
Theorem nothing_loaded_skips_push :
  forall w : World,
    (forall (R : Type) (tarFilePath : string) (r : R) (t : Trace),
      exists lr seg,
        loadDockerImagesFromTar w tarFilePath r t = (Returned lr, r, seg ++ t)
        /\ (forall out,
              In (EvExec (DockerLoad tarFilePath) (ExecOk out)) seg ->
              images lr = [] ->
              load_errors lr = [NoImagesLoaded])
        /\ ((forall out, ~ In (EvExec (DockerLoad tarFilePath) (ExecOk out)) seg) ->
            images lr = []
            /\ exists message,
                load_errors lr
                = [("Failed to load images from tar: " ++ message)%string]))
    /\ (forall (file : File) (t seg : Trace) (found : bool),
          snd (postUploadDockerTar w (Some file) tt t) = seg ++ t ->
          In (EvPathExists (path file) found) seg ->
          exists d before,
            seg = EvRespond {| statusCode := 200;
                               body := UploadBody uploadedMessage (filename file) d |}
                  :: before
            /\ (loadedImages d = [] ->
                pushedImages d = []
                /\ Forall (fun ev => stage ev <> Pushing) before
                /\ (forall out,
                      In (EvExec (DockerLoad (path file)) (ExecOk out)) before ->
                      errors d = [NoImagesLoaded])
                /\ ((forall out,
                       ~ In (EvExec (DockerLoad (path file)) (ExecOk out)) before) ->
                    exists message,
                      errors d
                      = [("Failed to load images from tar: " ++ message)%string]))).
Proof.
  intros w. split.
  - intros R p r t.
    destruct (load_runs w p r t) as (lr & seg & Hrun & Hshape).
    exists lr, seg. split; [ exact Hrun | ]. split.
    + intros out Hin Hnone. eapply LoadRun_nothing_recovered; eassumption.
    + intros Hnot. eapply LoadRun_load_failed; eassumption.
  - intros file t seg found Hrun Hin.
    destruct (upload_runs w (Some file) t) as (seg' & Hrun' & Hshape).
    rewrite Hrun' in Hrun. cbn [snd] in Hrun.
    apply segment_eq in Hrun. subst seg'.
    inversion Hshape as [ | f segV v HV Hv | f segV v e u HV Hv
                          | f segV segP d HV HP | f segV segP e u HV HP ]; subst.
    + in_cases Hin; wrong_stage Hin.
    + in_cases Hin; wrong_stage Hin.
    + inversion HP as [ | version segL lr u HL Hi
                        | version segL lr probe' segR outs errs pws u HL Hne HR ]; subst.
      * pose proof (LoadRun_stage HL) as HLs.
        eexists. eexists. split; [ reflexivity | ].
        cbn [loadedImages pushedImages errors]. intros _.
        split; [ reflexivity | ]. split; [ | split ].
        -- cbn [app]. constructor; [ discriminate | ].
           repeat (apply Forall_app; split).
           ++ apply (stage_differs (s := Loading)); [ discriminate | exact HLs ].
           ++ repeat constructor. discriminate.
           ++ apply (stage_differs (s := Validation)); [ discriminate | exact HV ].
        -- intros out Hok.
           in_cases Hok; try wrong_stage Hok.
           eapply LoadRun_nothing_recovered; eassumption.
        -- intros Hnot.
           apply (LoadRun_load_failed HL).
           intros out Hok. apply (Hnot out).
           cbn [app]. right. apply in_or_app. left. apply in_or_app. left. exact Hok.
      * eexists. eexists. split; [ reflexivity | ].
        cbn [loadedImages]. intros Hnone. contradiction.
    + inversion HP; subst.
      in_cases Hin; wrong_stage Hin.
Qed.

(** What [single] makes of a body with no file under its field: nothing,
    or the refusal of the first file sent under another field. *)
Lemma single_without_file (disk : Multipart.Disk) (name : string)
      (parts : list Multipart.Part) :
  Multipart.attached name parts = [] ->
  forall (filesLeft : nat) (req_file : option File),
    Multipart.single_from disk name filesLeft req_file parts
    = if forallb (fun p => Js.is_empty (Multipart.originalname p)) parts
      then Multipart.Next req_file
      else Multipart.NextError "Unexpected field".
Proof.
  induction parts as [ | p parts IH ]; intros Hnone filesLeft req_file;
    [ reflexivity | ].
  cbn [Multipart.attached filter] in Hnone.
  cbn [Multipart.single_from forallb].
  destruct (Js.is_empty (Multipart.originalname p)) eqn:Hname; cbn [negb andb] in *.
  - rewrite andb_false_r in Hnone. apply IH. exact Hnone.
  - rewrite andb_true_r in Hnone.
    destruct (String.eqb (Multipart.fieldname p) name); [ discriminate Hnone | ].
    reflexivity.
Qed.

(** C10, counterexample.  A POST that carries a file under the field
    [file] attaches none under [dockerTar]; multer refuses it with
    [Unexpected field] and Express answers 500: the handler, and with it the
    400 response, is never reached. *)
Lemma unexpected_field_is_answered_500 :
  ~ Multipart.refusedWith400 healthy Multipart.sampleDisk
      [{| Multipart.fieldname := "file"; Multipart.originalname := "app.tar" |}].
Proof.
  intros H. specialize (H eq_refl []). vm_compute in H. discriminate H.
Qed.

(** C10, as amended.  A POST with no file under [dockerTar] is answered in
    one of two ways, and in neither is a validation, load or push step run.
    When it carries no file at all, the handler runs with [req.file] absent:
    it answers 400 with [{ error: 'No tar file uploaded' }], the response
    being its sole interaction.  When it carries a file under another
    field, multer refuses the request with [Unexpected field] before the
    handler runs and Express answers 500. *)
Theorem upload_without_file_is_refused :
  forall (w : World) (disk : Multipart.Disk) (parts : list Multipart.Part) (t : Trace),
    Multipart.attached "dockerTar" parts = [] ->
    (forallb (fun p => Js.is_empty (Multipart.originalname p)) parts = true ->
     Multipart.single disk "dockerTar" parts = Multipart.Next None
     /\ Multipart.serve w disk parts t
        = Multipart.ByHandler
            (EvRespond {| statusCode := 400;
                          body := ErrorBody "No tar file uploaded" None |} :: t))
    /\ (forallb (fun p => Js.is_empty (Multipart.originalname p)) parts = false ->
        Multipart.single disk "dockerTar" parts = Multipart.NextError "Unexpected field"
        /\ Multipart.serve w disk parts t = Multipart.ByExpress 500 "Unexpected field")
    /\ postUploadDockerTar w None tt t
       = (Returned tt, tt,
          EvRespond {| statusCode := 400; body := ErrorBody "No tar file uploaded" None |}
          :: t).
Proof.
  intros w disk parts t Hnone.
  pose proof (@single_without_file disk "dockerTar" parts Hnone 1 None) as Hsingle.
  fold (Multipart.single disk "dockerTar" parts) in Hsingle.
  unfold Multipart.serve. rewrite Hsingle.
  split; [ | split; [ | reflexivity ] ]; intros Hfiles; rewrite Hfiles;
    split; reflexivity.
Qed.

Lemma ProcessRun_silent url file seg o :
  ProcessRun url file seg o -> Forall (fun ev => stage ev <> Responding) seg.
Proof.
  intros H.
  destruct H as [ e | version segL lr u HL Hi
                  | version segL lr probe segR outs errs pws u HL Hne HR ].
  - repeat constructor. discriminate.
  - pose proof (LoadRun_stage HL) as HLs.
    cbn [app]. constructor; [ discriminate | ].
    apply Forall_app. split.
    + apply (stage_differs (s := Loading)); [ discriminate | exact HLs ].
    + repeat constructor. discriminate.
  - pose proof (LoadRun_stage HL) as HLs. pose proof (PushRuns_stage HR) as HRs.
    cbn [app]. constructor; [ discriminate | ].
    apply Forall_app. split.
    + apply (stage_differs (s := Pushing)); [ discriminate | exact HRs ].
    + constructor; [ discriminate | ].
      apply Forall_app. split.
      * apply (stage_differs (s := Loading)); [ discriminate | exact HLs ].
      * repeat constructor. discriminate.
Qed.

Lemma retryUnlink_attempt (file : File) (unlinked : option string) :
  path file <> "" -> retryUnlink file unlinked = [EvUnlink (path file) unlinked].
Proof.
  intros Hpath. unfold retryUnlink.
  destruct (path file); [ contradiction | reflexivity ].
Qed.

(** C3, counterexample.  Where the staged file cannot be unlinked, the route
    answers without any successful unlink of it. *)
Lemma upload_may_survive_the_response :
  ~ deletedBeforeResponse unlinkFails sampleUpload.
Proof.
  intros (resp & before & Hrun & Hin).
  vm_compute in Hrun. injection Hrun as _ Hbefore. subst before.
  vm_compute in Hin. intuition discriminate.
Qed.

(** C3, as amended.  For an upload staged under a non-empty path, every run
    of the route ends with its single response, and an unlink of the staged
    file is attempted before it on every exit path, so the file is unlinked
    before the response unless an unlink fails.  A 400 rejection is only
    sent once that unlink succeeded.  A result is only sent once the unlink
    succeeded or its failure was recorded as a warning of the result.  On
    the 500 paths a failed unlink is only logged. *)
Theorem upload_unlink_attempted_before_response :
  forall (w : World) (file : File) (t : Trace),
    path file <> "" ->
    exists resp before,
      snd (postUploadDockerTar w (Some file) tt t) = (EvRespond resp :: before) ++ t
      /\ Forall (fun ev => stage ev <> Responding) before
      /\ (exists unlinked, In (EvUnlink (path file) unlinked) before)
      /\ ((forall e, ~ In (EvUnlink (path file) (Some e)) before) ->
          In (EvUnlink (path file) None) before)
      /\ (statusCode resp = 400%N -> In (EvUnlink (path file) None) before)
      /\ (forall message name d,
            body resp = UploadBody message name d ->
            In (EvUnlink (path file) None) before
            \/ exists e, In ("Failed to cleanup tar file: " ++ e)%string (warnings d)).
Proof.
  intros w file t Hpath.
  enough (Hmain :
    exists resp before,
      snd (postUploadDockerTar w (Some file) tt t) = (EvRespond resp :: before) ++ t
      /\ Forall (fun ev => stage ev <> Responding) before
      /\ (exists unlinked, In (EvUnlink (path file) unlinked) before)
      /\ (statusCode resp = 400%N -> In (EvUnlink (path file) None) before)
      /\ (forall message name d,
            body resp = UploadBody message name d ->
            In (EvUnlink (path file) None) before
            \/ exists e, In ("Failed to cleanup tar file: " ++ e)%string (warnings d))).
  { destruct Hmain as (resp & before & Hrun & Hsilent & Hattempt & H400 & H200).
    exists resp, before. repeat (split; [ assumption | ]).
    split; [ | split; assumption ].
    intros Hnofail. destruct Hattempt as ([ e | ] & Hin); [ | exact Hin ].
    destruct (Hnofail e Hin). }
  destruct (upload_runs w (Some file) t) as (seg & Hrun & Hshape).
  rewrite Hrun. cbn [snd].
  inversion Hshape as [ | f segV v HV Hv | f segV v e u HV Hv
                        | f segV segP d HV HP | f segV segP e u HV HP ]; subst.
  - eexists. eexists. split; [ reflexivity | ].
    split; [ | split; [ | split ] ].
    + constructor; [ discriminate | ].
      apply (stage_differs (s := Validation)); [ discriminate | exact HV ].
    + exists None. left. reflexivity.
    + intros _. left. reflexivity.
    + cbn [body]. discriminate.
  - rewrite (@retryUnlink_attempt file u Hpath).
    eexists. eexists. split; [ reflexivity | ].
    split; [ | split; [ | split ] ].
    + constructor; [ discriminate | ]. constructor; [ discriminate | ].
      apply (stage_differs (s := Validation)); [ discriminate | exact HV ].
    + exists u. left. reflexivity.
    + cbn [statusCode]. discriminate.
    + cbn [body]. discriminate.
  - pose proof (ProcessRun_silent HP) as Hsilent.
    eexists. eexists. split; [ reflexivity | ].
    split; [ | split; [ | split ] ].
    + apply Forall_app. split; [ exact Hsilent | ].
      apply (stage_differs (s := Validation)); [ discriminate | exact HV ].
    + inversion HP; subst; eexists; left; reflexivity.
    + cbn [statusCode]. discriminate.
    + cbn [body]. intros message name d' Hbody.
      injection Hbody as _ _ <-.
      inversion HP as [ | version segL lr u HL Hi
                        | version segL lr probe segR outs errs pws u HL Hne HR ]; subst;
        cbn [warnings]; destruct u as [ e | ];
        try (left; left; reflexivity);
        right; exists e; rewrite !in_app_iff; cbn [cleanupWarning In]; auto.
  - pose proof (ProcessRun_silent HP) as Hsilent.
    rewrite (@retryUnlink_attempt file u Hpath).
    eexists. eexists. split; [ reflexivity | ].
    split; [ | split; [ | split ] ].
    + constructor; [ discriminate | ].
      apply Forall_app. split; [ exact Hsilent | ].
      apply (stage_differs (s := Validation)); [ discriminate | exact HV ].
    + exists u. left. reflexivity.
    + cbn [statusCode]. discriminate.
    + cbn [body]. discriminate.
Qed.

(** C6, counterexample.  For the tar holding one untagged image the
    inspection succeeds and yields no repository tag, yet the loader records
    no warning about that image. *)
Lemma silent_when_inspection_yields_none :
  ~ warnsWhenInspectionYieldsNone untagged (path sampleUpload).
Proof.
  intros H.
  evaluate (loadDockerImagesFromTar (R := unit) untagged (path sampleUpload) tt []) E.
  specialize (H _ _ "sha256:0a1b2c" {| stdout := line ""; stderr := "" |} E).
  assert (Hc : In (inspectWarning "sha256:0a1b2c") []).
  { apply H; [ vm_compute; found | reflexivity ]. }
  destruct Hc.
Qed.

(** C6, as amended.  The loader returns in every environment, and a run
    whose [docker load] succeeded tries the recovery strategies in priority
    order, stopping at the first that yields a name.  (1) The names on the
    [Loaded image: <name>] lines.  (2) Only if there is none: one inspection
    per [Loaded image ID: <id>] line, collecting the repository tags, with a
    warning for each inspection that fails.  (3) Only if there is still
    none: the images the engine lists, cut to five, with the approximation
    warning when there is at least one.  The result holds the names of the
    strategy that stopped the search and the warnings of the strategies
    tried. *)
Theorem load_strategies_in_priority_order :
  forall (w : World) (R : Type) (tarFilePath : string) (r : R) (t : Trace),
  exists lr seg,
    loadDockerImagesFromTar w tarFilePath r t = (Returned lr, r, seg ++ t)
    /\ forall out,
        In (EvExec (DockerLoad tarFilePath) (ExecOk out)) seg ->
        exists seg2 names2 ws2 seg3 names3 ws3,
          seg = seg3 ++ seg2 ++ [EvExec (DockerLoad tarFilePath) (ExecOk out);
                                 EvPathExists tarFilePath true]
          /\ images lr = loadedImageNames (stdout out) ++ names2 ++ names3
          /\ load_warnings lr = loadStderrWarning out ++ ws2 ++ ws3
          /\ match loadedImageNames (stdout out) with
             | [] => InspectRuns (Js.match_all "Loaded image ID: " (stdout out))
                                 seg2 names2 ws2
             | _ :: _ => seg2 = [] /\ names2 = [] /\ ws2 = []
             end
          /\ match loadedImageNames (stdout out) ++ names2 with
             | [] => RecentRun seg3 names3 ws3 /\ length names3 <= 5
             | _ :: _ => seg3 = [] /\ names3 = [] /\ ws3 = []
             end.
Proof.
  intros w R p r t.
  destruct (load_runs w p r t) as (lr & seg & Hrun & Hshape).
  exists lr, seg. split; [ exact Hrun | ].
  intros out Hin.
  destruct (@LoadRun_strategies _ _ _ _ Hshape Hin)
    as (seg2 & names2 & ws2 & seg3 & names3 & ws3 & Hseg & Hi & Hw & H2 & H3).
  exists seg2, names2, ws2, seg3, names3, ws3.
  repeat (split; [ assumption | ]).
  destruct (loadedImageNames (stdout out) ++ names2); [ | exact H3 ].
  split; [ exact H3 | eapply RecentRun_at_most_five; exact H3 ].
Qed.

(** ** The theorems at work on the sample environments *)

(** C7 at work: the empty upload is reported as empty, right after the stat. *)
Lemma empty_upload_is_reported :
  validateDockerTarFile emptyUpload (path sampleUpload) tt []
  = (Returned (invalid "Tar file is empty"), tt,
     [EvStat (path sampleUpload) (inl {| isFile := true; size := 0 |})]).
Proof.
  destruct (validate_checks_in_order emptyUpload (path sampleUpload) tt [])
    as (_ & Hchecks).
  destruct (Hchecks {| isFile := true; size := 0 |} eq_refl eq_refl)
    as (Hempty & _).
  exact (Hempty eq_refl).
Defined.

(** C8 at work: a listing that names no [manifest.json] and no [.json] entry
    passes validation. *)
Lemma listing_without_manifest_is_valid :
  Js.includes "manifest.json" (line "blobs/sha256/0a1b") = false
  /\ Js.includes ".json" (line "blobs/sha256/0a1b") = false
  /\ fst (fst (validateDockerTarFile healthy (path sampleUpload) tt []))
     = Returned valid.
Proof.
  split; [ reflexivity | ]. split; [ reflexivity | ].
  destruct (validateDockerTarFile healthy (path sampleUpload) tt [])
    as [[o r'] tr] eqn:E.
  cbn [fst].
  apply (@validate_listing_succeeds_is_valid healthy unit (path sampleUpload) tt r'
           [] tr o {| stdout := line "blobs/sha256/0a1b"; stderr := "" |}).
  - rewrite app_nil_r. exact E.
  - vm_compute in E. injection E as _ _ <-. found.
Defined.

(** C3 at work: on the healthy upload the unlink precedes the response. *)
Lemma healthy_upload_is_unlinked :
  exists resp before,
    snd (postUploadDockerTar healthy (Some sampleUpload) tt []) = (EvRespond resp :: before) ++ []
    /\ Forall (fun ev => stage ev <> Responding) before
    /\ (exists unlinked, In (EvUnlink (path sampleUpload) unlinked) before)
    /\ ((forall e, ~ In (EvUnlink (path sampleUpload) (Some e)) before) ->
        In (EvUnlink (path sampleUpload) None) before)
    /\ (statusCode resp = 400%N -> In (EvUnlink (path sampleUpload) None) before)
    /\ (forall message name d,
          body resp = UploadBody message name d ->
          In (EvUnlink (path sampleUpload) None) before
          \/ exists e, In ("Failed to cleanup tar file: " ++ e)%string (warnings d)).
Proof.
  apply (upload_unlink_attempted_before_response healthy sampleUpload []).
  vm_compute. discriminate.
Defined.

(** C4 at work: the untagged tar yields no name by any strategy; the route
    answers 200 with nothing loaded, nothing pushed and [NoImagesLoaded]. *)
Lemma untagged_upload_loads_nothing :
  exists d before,
    snd (postUploadDockerTar untagged (Some sampleUpload) tt [])
    = EvRespond {| statusCode := 200;
                   body := UploadBody uploadedMessage (filename sampleUpload) d |}
      :: before
    /\ loadedImages d = []
    /\ pushedImages d = []
    /\ errors d = [NoImagesLoaded]
    /\ Forall (fun ev => stage ev <> Pushing) before.
Proof.
  destruct (nothing_loaded_skips_push untagged) as (_ & Hroute).
  destruct (postUploadDockerTar untagged (Some sampleUpload) tt []) as [[o r'] tr] eqn:E.
  destruct (Hroute sampleUpload [] tr true) as (d & before & Hseg & Hnone).
  - rewrite E, app_nil_r. reflexivity.
  - vm_compute in E. injection E as _ _ <-. found.
  - exists d, before. cbn [snd]. split; [ exact Hseg | ].
    vm_compute in E. injection E as _ _ <-.
    injection Hseg as Hd Hbefore.
    assert (Hloaded : loadedImages d = []) by (rewrite <- Hd; reflexivity).
    destruct (Hnone Hloaded) as (Hpushed & Hstages & Hok & _).
    split; [ exact Hloaded | ]. split; [ exact Hpushed | ].
    split; [ | exact Hstages ].
    apply (Hok {| stdout := line "Loaded image ID: sha256:0a1b2c"; stderr := "" |}).
    rewrite <- Hbefore. found.
Defined.


(** C1 at work: the registry accepts [myapp:1.2.0] and refuses
    [myapp:latest]; both outcomes are recorded as failed. *)
Lemma refused_latest_fails_both :
  map (fun o => (type o, status o, push_error o))
      (pushedImagesOf (pushImagesToLocalRegistry latestPushFails ["myapp:1.2.0"] tt []))
  = [(original, failed, Some "connection reset by peer");
     (latest, failed, Some "connection reset by peer")].
Proof.
  destruct (push_outcomes_share_status latestPushFails) as (_ & Hparticular).
  destruct (pushImagesToLocalRegistry latestPushFails ["myapp:1.2.0"] tt [])
    as [[o r'] tr] eqn:E.
  assert (Ho : exists res, o = Returned res)
    by (vm_compute in E; injection E as <- _ _; eexists; reflexivity).
  destruct Ho as (res & ->). cbn [pushedImagesOf fst].
  apply (Hparticular unit "myapp:1.2.0" tt r' [] tr res
           {| stdout := ""; stderr := "" |} "connection reset by peer").
  - rewrite app_nil_r. exact E.
  - vm_compute in E. injection E as _ _ <-. vm_compute. found.
  - vm_compute in E. injection E as _ _ <-. vm_compute. found.
Defined.

(** C6 at work: on the healthy upload the first strategy recovers
    [myapp:1.2.0] and neither an inspection nor the image listing is run. *)
Lemma named_image_stops_the_search :
  exists lr,
    loadDockerImagesFromTar healthy (path sampleUpload) tt []
    = (Returned lr, tt,
       [EvExec (DockerLoad (path sampleUpload))
               (ExecOk {| stdout := line "Loaded image: myapp:1.2.0"; stderr := "" |});
        EvPathExists (path sampleUpload) true])
    /\ images lr = ["myapp:1.2.0"].
Proof.
  destruct (load_strategies_in_priority_order healthy (path sampleUpload) tt [])
    as (lr & seg & Hrun & Hstrategies).
  exists lr.
  assert (Hseg : seg = [EvExec (DockerLoad (path sampleUpload))
                               (ExecOk {| stdout := line "Loaded image: myapp:1.2.0";
                                          stderr := "" |});
                        EvPathExists (path sampleUpload) true]).
  { rewrite app_nil_r in Hrun. vm_compute in Hrun. injection Hrun as _ <-.
    reflexivity. }
  subst seg. split; [ exact Hrun | ].
  destruct (Hstrategies {| stdout := line "Loaded image: myapp:1.2.0"; stderr := "" |})
    as (seg2 & names2 & ws2 & seg3 & names3 & ws3 & _ & Hi & _ & H2 & H3).
  - left. reflexivity.
  - vm_compute in H2. destruct H2 as (_ & -> & _).
    vm_compute in H3. destruct H3 as (_ & -> & _).
    rewrite Hi. reflexivity.
Defined.

(** C9 at work: [teamA/app:1.0] and [teamB/app:1.0] get the same two
    targets, and with both in the list each target is tagged and pushed
    twice, the second time as [teamB/app:1.0]. *)
Lemma teamA_and_teamB_share_targets :
  (originalLocalImageName (localRegistryUrl healthy) "teamA/app:1.0"
   = "100.103.254.213:5001/app:1.0"%string
   /\ originalLocalImageName (localRegistryUrl healthy) "teamB/app:1.0"
      = "100.103.254.213:5001/app:1.0"%string)
  /\ (latestLocalImageName (localRegistryUrl healthy) "teamA/app:1.0"
      = "100.103.254.213:5001/app:latest"%string
      /\ latestLocalImageName (localRegistryUrl healthy) "teamB/app:1.0"
         = "100.103.254.213:5001/app:latest"%string)
  /\ snd (pushImagesToLocalRegistry healthy ["teamA/app:1.0"; "teamB/app:1.0"] tt [])
     = [EvExec (DockerRmi "100.103.254.213:5001/app:latest") (ok "");
        EvExec (DockerRmi "100.103.254.213:5001/app:1.0") (ok "");
        EvExec (DockerPush "100.103.254.213:5001/app:latest") (ok "");
        EvExec (DockerTag "teamB/app:1.0" "100.103.254.213:5001/app:latest") (ok "");
        EvExec (DockerPush "100.103.254.213:5001/app:1.0") (ok "");
        EvExec (DockerTag "teamB/app:1.0" "100.103.254.213:5001/app:1.0") (ok "");
        EvExec (DockerRmi "100.103.254.213:5001/app:latest") (ok "");
        EvExec (DockerRmi "100.103.254.213:5001/app:1.0") (ok "");
        EvExec (DockerPush "100.103.254.213:5001/app:latest") (ok "");
        EvExec (DockerTag "teamA/app:1.0" "100.103.254.213:5001/app:latest") (ok "");
        EvExec (DockerPush "100.103.254.213:5001/app:1.0") (ok "");
        EvExec (DockerTag "teamA/app:1.0" "100.103.254.213:5001/app:1.0") (ok "");
        EvExec (CurlRegistry "100.103.254.213:5001") (ok "")].
Proof.
  destruct (@shared_last_segment_shares_targets healthy
              "teamA/app:1.0" "teamB/app:1.0" "app:1.0" eq_refl
              (or_intror (ex_intro _ "teamA"%string eq_refl))
              (or_intror (ex_intro _ "teamB"%string eq_refl)))
    as (_ & Hversioned & Hnewest & _).
  split; [ exact Hversioned | ]. split; [ exact Hnewest | ].
  vm_compute. reflexivity.
Defined.

(** C10 at work: a form sent with the [dockerTar] field left empty is
    answered 400 by the handler; the same POST with a file under [file] is
    answered 500 by Express. *)
Lemma empty_field_is_answered_400 :
  Multipart.serve healthy Multipart.sampleDisk
    [{| Multipart.fieldname := "dockerTar"; Multipart.originalname := "" |}] []
  = Multipart.ByHandler
      [EvRespond {| statusCode := 400; body := ErrorBody "No tar file uploaded" None |}]
  /\ Multipart.serve healthy Multipart.sampleDisk
       [{| Multipart.fieldname := "dockerTar"; Multipart.originalname := "" |};
        {| Multipart.fieldname := "file"; Multipart.originalname := "app.tar" |}] []
     = Multipart.ByExpress 500 "Unexpected field".
Proof.
  split.
  - destruct (@upload_without_file_is_refused healthy Multipart.sampleDisk
                [{| Multipart.fieldname := "dockerTar"; Multipart.originalname := "" |}]
                [] eq_refl)
      as (Hnofile & _).
    exact (proj2 (Hnofile eq_refl)).
  - destruct (@upload_without_file_is_refused healthy Multipart.sampleDisk
                [{| Multipart.fieldname := "dockerTar"; Multipart.originalname := "" |};
                 {| Multipart.fieldname := "file"; Multipart.originalname := "app.tar" |}]
                [] eq_refl)
      as (_ & Hother & _).
    exact (proj2 (Hother eq_refl)).
Defined.

(** * Further properties of the backend *)

(** ** Tar validator *)

(** X1. A tar file the validator accepts has passed every check. *)
Theorem accepted_upload_passed_every_check :
  forall (w : World) (R : Type) (tarFilePath : string) (r r' : R) (t seg : Trace)
         (v : ValidationResult),
    validateDockerTarFile w tarFilePath r t = (Returned v, r', seg ++ t) ->
    isValid v = true ->
    exists st head full,
      seg = [EvExec (TarList tarFilePath) (ExecOk full);
             EvExec (TarListHead tarFilePath) (ExecOk head);
             EvStat tarFilePath (inl st)]
      /\ isFile st = true
      /\ (0 < size st <= max_tar_size)%N
      /\ error v = None.
Proof.
  intros w R p r r' t seg v. unfold validateDockerTarFile. unfold_monad.
  repeat next_case; intros Hrun Hvalid;
    inversion Hrun as [[Hv Hr Ht]]; subst v; try discriminate Hvalid;
    symmetry in Ht;
    match type of Ht with
    | _ = ?e1 :: ?e2 :: ?e3 :: t => fix_segment Ht [e1; e2; e3]
    end;
    match goal with
    | Hf : negb (isFile ?st) = false, Hz : (size ?st =? 0)%N = false,
      Hl : (max_tar_size <? size ?st)%N = false |- _ =>
        exists st; do 2 eexists; split; [ reflexivity | ];
        apply negb_false_iff in Hf; apply N.eqb_neq in Hz; apply N.ltb_ge in Hl;
        repeat split; try assumption; try reflexivity; lia
    end.
Qed.

(** X2. The validator never throws, and every rejection carries its
    reason: [Validation failed: <message>] when [fs.stat] failed, the
    message of the first failed check on the file's kind and size (nothing
    but the [stat] was done then), or [File is not a valid tar archive]
    when one of the two listing commands errored.  An accepted file carries
    no error. *)
Theorem validator_rejections :
  forall (w : World) (R : Type) (tarFilePath : string) (r : R) (t : Trace),
    exists v seg,
      validateDockerTarFile w tarFilePath r t = (Returned v, r, seg ++ t)
      /\ (isValid v = true /\ error v = None
          \/ isValid v = false
             /\ exists message,
                 error v = Some message
                 /\ ((exists e, w_stat w t tarFilePath = inr e
                                /\ seg = [EvStat tarFilePath (inr e)]
                                /\ message = ("Validation failed: " ++ e)%string)
                     \/ (exists st, w_stat w t tarFilePath = inl st
                                    /\ seg = [EvStat tarFilePath (inl st)]
                                    /\ (isFile st = false
                                        /\ message = "Uploaded file is not a valid file"
                                        \/ isFile st = true /\ size st = 0%N
                                           /\ message = "Tar file is empty"
                                        \/ isFile st = true /\ (max_tar_size < size st)%N
                                           /\ message = "Tar file is too large (max 5GB)"))
                     \/ (exists e, In (EvExec (TarListHead tarFilePath) (ExecFail e)) seg
                                   \/ In (EvExec (TarList tarFilePath) (ExecFail e)) seg)
                        /\ message = "File is not a valid tar archive")).
Proof.
  intros w R p r t. unfold validateDockerTarFile. unfold_monad.
  repeat next_case;
    eexists;
    match goal with
    | |- exists _, (_, _, ?e1 :: ?e2 :: ?e3 :: t) = _ /\ _ => exists [e1; e2; e3]
    | |- exists _, (_, _, ?e1 :: ?e2 :: t) = _ /\ _ => exists [e1; e2]
    | |- exists _, (_, _, ?e1 :: t) = _ /\ _ => exists [e1]
    end;
    (split; [ reflexivity | ]);
    try (left; split; reflexivity);
    right; (split; [ reflexivity | ]); eexists; (split; [ reflexivity | ]).
  all: repeat match goal with
         | H : negb _ = true |- _ => apply negb_true_iff in H
         | H : negb _ = false |- _ => apply negb_false_iff in H
         | H : (_ =? _)%N = true |- _ => apply N.eqb_eq in H
         | H : (_ <? _)%N = true |- _ => apply N.ltb_lt in H
         end.
  all: try solve [ right; right; split; [ eexists; cbn [In]; eauto | reflexivity ] ].
  all: try solve [ left; eexists; repeat split; reflexivity ].
  all: right; left; eexists; (split; [ reflexivity | ]); (split; [ reflexivity | ]);
    tauto.
Qed.

(** X3. The size limit of the upload middleware is the validator's ceiling:
    a staged file whose size is within the limit of [multer] is never
    reported as too large. *)
Theorem upload_within_limit_is_never_too_large :
  forall (w : World) (R : Type) (tarFilePath : string) (r r' : R) (t t' : Trace)
         (st : Stats) (v : ValidationResult),
    w_stat w t tarFilePath = inl st ->
    (size st <= Upload.fileSizeLimit)%N ->
    validateDockerTarFile w tarFilePath r t = (Returned v, r', t') ->
    error v <> Some "Tar file is too large (max 5GB)".
Proof.
  intros w R p r r' t t' st v Hstat Hsize.
  unfold validateDockerTarFile. unfold_monad. rewrite Hstat. reduce.
  assert (Hlt : (max_tar_size <? size st)%N = false).
  { apply N.ltb_ge. exact Hsize. }
  rewrite Hlt.
  repeat next_case; intros Hrun; inversion Hrun; subst v; discriminate.
Qed.

(** ** Image loader *)

Lemma LoadRun_errors p seg lr :
  LoadRun p seg lr ->
  (images lr = [] /\ exists message, load_errors lr = [message])
  \/ (images lr <> [] /\ load_errors lr = []).
Proof.
  destruct 1 as [ | e | out Hn | out seg2 names ws Hn H2 Hne
                  | out seg2 ws seg3 names ws3 Hn H2 H3 ]; cbn [images load_errors].
  - left. eauto.
  - left. eauto.
  - right. auto.
  - right. auto.
  - destruct names; [ left; eauto | right; split; [ discriminate | reflexivity ] ].
Qed.

(** X4. The loader never throws, only talks to the engine about loading,
    and reports an error exactly when it recovered no image: then exactly
    one. *)
Theorem loader_reports_one_error_iff_nothing_loaded :
  forall (w : World) (R : Type) (tarFilePath : string) (r : R) (t : Trace),
    exists lr seg,
      loadDockerImagesFromTar w tarFilePath r t = (Returned lr, r, seg ++ t)
      /\ Forall (fun ev => stage ev = Loading) seg
      /\ ((images lr = [] /\ exists message, load_errors lr = [message])
          \/ (images lr <> [] /\ load_errors lr = [])).
Proof.
  intros w R p r t.
  destruct (load_runs w p r t) as (lr & seg & Hrun & Hshape).
  exists lr, seg. split; [ exact Hrun | ].
  split; [ exact (LoadRun_stage Hshape) | exact (LoadRun_errors Hshape) ].
Qed.

Lemma repoTags_named (inspectOutput : string) :
  Forall (fun n => n <> EmptyString /\ n <> "<none>"%string) (repoTags inspectOutput).
Proof.
  apply Forall_forall. intros n Hin. unfold repoTags in Hin.
  apply filter_In in Hin. destruct Hin as (_ & Hkeep).
  apply andb_true_iff in Hkeep. destruct Hkeep as (Hne & Hnone).
  split.
  - intros ->. discriminate Hne.
  - intros ->. discriminate Hnone.
Qed.

Lemma recentImages_named (imagesOutput : string) :
  Forall (fun n => n <> EmptyString /\ n <> "<none>:<none>"%string
                   /\ Js.trim n <> EmptyString)
         (recentImages imagesOutput).
Proof.
  apply Forall_forall. intros n Hin. unfold recentImages in Hin.
  apply filter_In in Hin. destruct Hin as (_ & Hkeep).
  apply andb_true_iff in Hkeep. destruct Hkeep as (Hkeep & Hblank).
  apply andb_true_iff in Hkeep. destruct Hkeep as (Hne & Hnone).
  repeat split.
  - intros ->. discriminate Hne.
  - intros ->. discriminate Hnone.
  - intros E. rewrite E in Hblank. discriminate Hblank.
Qed.

Lemma InspectRuns_named ms seg names ws :
  InspectRuns ms seg names ws ->
  Forall (fun n => n <> EmptyString /\ n <> "<none>"%string) names.
Proof.
  induction 1 as [ | m ms out seg names ws _ IH | m ms e seg names ws _ IH ].
  - constructor.
  - apply Forall_app. split; [ apply repoTags_named | exact IH ].
  - exact IH.
Qed.

Lemma RecentRun_named seg names ws :
  RecentRun seg names ws ->
  Forall (fun n => n <> EmptyString /\ n <> "<none>:<none>"%string
                   /\ Js.trim n <> EmptyString) names.
Proof.
  destruct 1 as [ out Hne | out He | e ]; try constructor.
  pose proof (recentImages_named (stdout out)) as HF.
  rewrite <- (firstn_skipn 5 (recentImages (stdout out))) in HF.
  apply Forall_app in HF. exact (proj1 HF).
Qed.

(** X5. When the output of [docker load] names no image, whatever the
    loader recovers is a usable reference: a name obtained by inspecting
    the loaded ids is neither empty nor [<none>]; names taken from the
    engine's listing are at most five, none of them empty, blank or
    [<none>:<none>]. *)
Theorem fallback_names_are_usable :
  forall (w : World) (R : Type) (tarFilePath : string) (r r' : R) (t seg : Trace)
         (lr : LoadResult) (out : ExecOutput),
    loadDockerImagesFromTar w tarFilePath r t = (Returned lr, r', seg ++ t) ->
    In (EvExec (DockerLoad tarFilePath) (ExecOk out)) seg ->
    loadedImageNames (stdout out) = [] ->
    Forall (fun n => n <> EmptyString) (images lr)
    /\ ((forall answer, ~ In (EvExec DockerImages answer) seg) ->
        Forall (fun n => n <> "<none>"%string) (images lr))
    /\ ((exists answer, In (EvExec DockerImages answer) seg) ->
        length (images lr) <= 5
        /\ Forall (fun n => n <> "<none>:<none>"%string /\ Js.trim n <> EmptyString)
                  (images lr)).
Proof.
  intros w R p r r' t seg lr out Hrun Hin Hnone.
  destruct (load_runs w p r t) as (lr' & seg' & Hrun' & Hshape).
  rewrite Hrun' in Hrun. inversion Hrun as [[Hlr Hr Hseg]].
  fix_segment Hseg seg. subst lr'. clear Hrun Hrun'.
  destruct Hshape as [ | e | out' Hn | out' seg2 names ws Hn H2 Hne
                       | out' seg2 ws seg3 names ws3 Hn H2 H3 ];
    cbn [images].
  - in_cases Hin; discriminate Hin.
  - in_cases Hin; discriminate Hin.
  - in_cases Hin; try discriminate Hin.
    injection Hin as ->. contradiction.
  - pose proof (InspectRuns_named H2) as Hnamed.
    pose proof (InspectRuns_events H2) as Hevs.
    split; [ | split ].
    + eapply Forall_impl; [ | exact Hnamed ]. intros n (Hn1 & _). exact Hn1.
    + intros _. eapply Forall_impl; [ | exact Hnamed ]. intros n (_ & Hn2). exact Hn2.
    + intros (answer & Ha). exfalso.
      in_cases Ha; try discriminate Ha.
      destruct (Hevs _ Ha) as (imageId & answer' & E). discriminate E.
  - pose proof (RecentRun_named H3) as Hnamed.
    pose proof (RecentRun_at_most_five H3) as Hfive.
    split; [ | split ].
    + eapply Forall_impl; [ | exact Hnamed ]. intros n (Hn1 & _). exact Hn1.
    + intros Hno. destruct H3 as [ out3 Hne3 | out3 He3 | e3 ]; try constructor.
      exfalso. apply (Hno (ExecOk out3)). apply in_or_app. left. left. reflexivity.
    + intros _. split; [ exact Hfive | ].
      eapply Forall_impl; [ | exact Hnamed ]. intros n (_ & Hn2). exact Hn2.
Qed.

(** ** JavaScript strings: prefixes, lines and matches *)

Module JsTextFacts.

Lemma append_assoc (a b c : string) : ((a ++ b) ++ c)%string = (a ++ (b ++ c))%string.
Proof. induction a as [ | x a IH ]; cbn [append]; [ | rewrite IH ]; reflexivity. Qed.

Lemma append_empty (a : string) : (a ++ EmptyString)%string = a.
Proof. induction a as [ | x a IH ]; cbn [append]; [ | rewrite IH ]; reflexivity. Qed.

Lemma length_append (a b : string) :
  String.length (a ++ b)%string = String.length a + String.length b.
Proof. induction a as [ | x a IH ]; cbn [append String.length]; [ | rewrite IH ]; reflexivity. Qed.

Lemma prefix_append (a b : string) : prefix a (a ++ b)%string = true.
Proof.
  induction a as [ | x a IH ]; cbn [append prefix].
  - destruct b; reflexivity.
  - destruct (Ascii.ascii_dec x x) as [ _ | Hne ]; [ exact IH | contradiction ].
Qed.

Lemma drop_append (a b : string) : Js.drop (String.length a) (a ++ b)%string = b.
Proof.
  induction a as [ | x a IH ]; cbn [append String.length Js.drop]; [ | exact IH ].
  destruct b; reflexivity.
Qed.


(** A line followed by a line feed is what [.+] consumes. *)
Lemma take_line_append (n rest : string) :
  Js.take_line n = n -> Js.take_line (n ++ String Js.lf rest)%string = n.
Proof.
  induction n as [ | c n IH ]; intros Hline; [ reflexivity | ].
  cbn [append Js.take_line] in *.
  destruct (Js.is_line_terminator c); [ discriminate Hline | ].
  injection Hline as Hline. rewrite (IH Hline). reflexivity.
Qed.

Lemma match_here_line (lit n rest : string) :
  n <> EmptyString -> Js.take_line n = n ->
  Js.match_here lit (lit ++ n ++ String Js.lf rest)%string = Some (lit ++ n)%string.
Proof.
  intros Hne Hline. unfold Js.match_here.
  rewrite prefix_append, drop_append, (take_line_append _ Hline).
  destruct n; [ contradiction | reflexivity ].
Qed.

(** Stepping over a match resumes the search right behind it. *)
Lemma match_all_from_skip (lit x y : string) :
  Js.match_all_from (String.length x) lit (x ++ y)%string
  = Js.match_all_from 0 lit y.
Proof.
  induction x as [ | c x IH ]; cbn [append String.length].
  - reflexivity.
  - cbn [Js.match_all_from]. exact IH.
Qed.

(** One [<lit><text>] line gives one match; the search goes on behind
    its line feed. *)
Lemma match_all_line (c0 : ascii) (lit' n rest : string) :
  Js.is_line_terminator c0 = false ->
  n <> EmptyString -> Js.take_line n = n ->
  Js.match_all (String c0 lit') (String c0 lit' ++ n ++ String Js.lf rest)%string
  = (String c0 lit' ++ n)%string :: Js.match_all (String c0 lit') rest.
Proof.
  intros Hc0 Hne Hline. unfold Js.match_all.
  pose proof (match_here_line (String c0 lit') rest Hne Hline) as Hhere.
  cbn [append] in *. cbn [Js.match_all_from]. rewrite Hhere.
  f_equal.
  replace (String.length (String c0 (lit' ++ n)) - 1)
    with (String.length (lit' ++ n)%string) by (cbn [String.length]; lia).
  rewrite <- append_assoc, match_all_from_skip.
  cbn [Js.match_all_from]. unfold Js.match_here. cbn [prefix].
  destruct (Ascii.ascii_dec c0 Js.lf) as [ -> | _ ]; [ discriminate Hc0 | reflexivity ].
Qed.

Lemma replace_first_prefix (lit n : string) :
  Js.replace_first lit (lit ++ n)%string = n.
Proof.
  destruct (lit ++ n)%string eqn:E; cbn [Js.replace_first];
    rewrite <- E, prefix_append, drop_append; reflexivity.
Qed.

End JsTextFacts.

Lemma isPlainName_spec (n : string) :
  isPlainName n = true -> n <> EmptyString /\ Js.take_line n = n /\ Js.trim n = n.
Proof.
  unfold isPlainName. intros H.
  apply andb_true_iff in H. destruct H as (H & Htrim).
  apply andb_true_iff in H. destruct H as (Hne & Hline).
  apply String.eqb_eq in Htrim. apply String.eqb_eq in Hline.
  repeat split; try assumption.
  intros ->. discriminate Hne.
Qed.

(** Reading back the report of [docker load]: the names, in order. *)
Lemma loadedImageNames_report (names : list string) :
  forallb isPlainName names = true ->
  loadedImageNames (dockerLoadReport names) = names.
Proof.
  induction names as [ | n names IH ]; intros Hplain; [ reflexivity | ].
  cbn [forallb] in Hplain. apply andb_true_iff in Hplain.
  destruct Hplain as (Hn & Hrest).
  destruct (isPlainName_spec _ Hn) as (Hne & Hline & Htrim).
  unfold loadedImageNames in *. cbn [dockerLoadReport].
  rewrite (@JsTextFacts.match_all_line "L" "oaded image: " n
             (dockerLoadReport names) eq_refl Hne Hline).
  cbn [map]. rewrite (IH Hrest). f_equal.
  unfold loadedImageName. rewrite JsTextFacts.replace_first_prefix. exact Htrim.
Qed.

(** X6. Round trip through the report of [docker load]: when the engine
    answers with one [Loaded image: <name>] line per image, the loader
    returns exactly these names, in order, with no error, and asks the
    engine nothing else. *)
Theorem loader_reads_back_reported_names :
  forall (w : World) (R : Type) (tarFilePath : string) (r r' : R) (t seg : Trace)
         (lr : LoadResult) (out : ExecOutput) (names : list string),
    loadDockerImagesFromTar w tarFilePath r t = (Returned lr, r', seg ++ t) ->
    In (EvExec (DockerLoad tarFilePath) (ExecOk out)) seg ->
    stdout out = dockerLoadReport names ->
    names <> [] ->
    forallb isPlainName names = true ->
    images lr = names
    /\ load_errors lr = []
    /\ seg = [EvExec (DockerLoad tarFilePath) (ExecOk out);
              EvPathExists tarFilePath true].
Proof.
  intros w R p r r' t seg lr out names Hrun Hin Hout Hne Hplain.
  destruct (load_runs w p r t) as (lr' & seg' & Hrun' & Hshape).
  rewrite Hrun' in Hrun. inversion Hrun as [[Hlr Hr Hseg]].
  fix_segment Hseg seg. subst lr'. clear Hrun Hrun'.
  pose proof (loadedImageNames_report _ Hplain) as Hread. rewrite <- Hout in Hread.
  destruct Hshape as [ | e | out' Hn | out' seg2 names' ws Hn H2 Hne'
                       | out' seg2 ws seg3 names' ws3 Hn H2 H3 ];
    cbn [images load_errors].
  - in_cases Hin; discriminate Hin.
  - in_cases Hin; discriminate Hin.
  - in_cases Hin; try discriminate Hin.
    injection Hin as ->. auto.
  - exfalso. pose proof (InspectRuns_events H2) as Hevs.
    in_cases Hin; try discriminate Hin.
    + destruct (Hevs _ Hin) as (imageId & answer & E). discriminate E.
    + injection Hin as ->. rewrite Hread in Hn. contradiction.
  - exfalso. pose proof (InspectRuns_events H2) as Hevs.
    pose proof (RecentRun_events H3) as Hevs3.
    in_cases Hin; try discriminate Hin.
    + destruct (Hevs3 _ Hin) as (answer & E). discriminate E.
    + destruct (Hevs _ Hin) as (imageId & answer & E). discriminate E.
    + injection Hin as ->. rewrite Hread in Hn. contradiction.
Qed.

(** ** Pipeline orchestrator *)

(** The engine check is the oldest interaction of the orchestrator, and the
    only one of its stage; its answer decides how the orchestrator
    completes. *)
Lemma ProcessRun_engine_check url file seg o :
  ProcessRun url file seg o ->
  exists answer rest,
    seg = rest ++ [EvExec DockerVersion answer]
    /\ Forall (fun ev => stage ev = Loading \/ stage ev = Pushing \/ stage ev = Cleanup)
              rest
    /\ match o with
       | Returned _ =>
           (exists version, answer = ExecOk version)
           /\ exists unlinked middle,
               rest = EvUnlink (path file) unlinked :: middle
               /\ Forall (fun ev => stage ev = Loading \/ stage ev = Pushing) middle
       | Thrown e =>
           (exists message, answer = ExecFail message)
           /\ rest = []
           /\ e = ("Docker tar processing failed: " ++ EngineUnavailable)%string
       end.
Proof.
  intros H.
  destruct H as [ e | version segL lr u HL Hi
                  | version segL lr probe segR outs errs pws u HL Hne HR ].
  - exists (ExecFail e), []. split; [ reflexivity | ]. split; [ constructor | ].
    split; [ eauto | split; reflexivity ].
  - pose proof (LoadRun_stage HL) as HLs.
    assert (Hmid : Forall (fun ev => stage ev = Loading \/ stage ev = Pushing) segL).
    { eapply Forall_impl; [ | exact HLs ]. intros ev Hev. left. exact Hev. }
    exists (ExecOk version), ([EvUnlink (path file) u] ++ segL).
    split; [ rewrite <- app_assoc; reflexivity | ].
    split.
    + constructor; [ cbn [stage]; auto | ].
      eapply Forall_impl; [ | exact Hmid ]. intros ev [ Hev | Hev ]; auto.
    + split; [ eauto | ]. exists u, segL. split; [ reflexivity | exact Hmid ].
  - pose proof (LoadRun_stage HL) as HLs. pose proof (PushRuns_stage HR) as HRs.
    assert (Hmid : Forall (fun ev => stage ev = Loading \/ stage ev = Pushing)
                          (segR ++ [EvExec (CurlRegistry url) probe] ++ segL)).
    { apply Forall_app. split.
      - eapply Forall_impl; [ | exact HRs ]. intros ev Hev. right. exact Hev.
      - constructor; [ right; reflexivity | ].
        eapply Forall_impl; [ | exact HLs ]. intros ev Hev. left. exact Hev. }
    exists (ExecOk version),
      ([EvUnlink (path file) u] ++ segR ++ [EvExec (CurlRegistry url) probe] ++ segL).
    split; [ rewrite <- !app_assoc; reflexivity | ].
    split.
    + constructor; [ cbn [stage]; auto | ].
      eapply Forall_impl; [ | exact Hmid ]. intros ev [ Hev | Hev ]; auto.
    + split; [ eauto | ]. eexists u, _. split; [ reflexivity | exact Hmid ].
Qed.

(** X7. The orchestrator first asks the engine for its version.  When that
    fails it throws [Docker tar processing failed: Docker daemon is not
    accessible...] and has done nothing else, not even removed the file.
    When it succeeds the orchestrator returns a result, whatever the loader
    and the pusher meet, and the attempt to unlink the file is its last
    interaction, the only one besides loading and pushing. *)
Theorem process_throws_only_when_engine_is_down :
  forall (w : World) (R : Type) (file : File) (r : R) (t : Trace),
    exists o seg,
      processDockerTarFile w file r t = (o, r, seg ++ t)
      /\ ((exists e,
              seg = [EvExec DockerVersion (ExecFail e)]
              /\ o = Thrown ("Docker tar processing failed: " ++ EngineUnavailable)%string)
          \/ (exists d version unlinked middle,
                 o = Returned d
                 /\ seg = EvUnlink (path file) unlinked :: middle
                          ++ [EvExec DockerVersion (ExecOk version)]
                 /\ Forall (fun ev => stage ev = Loading \/ stage ev = Pushing) middle)).
Proof.
  intros w R file r t.
  destruct (process_runs w file r t) as (o & seg & Hrun & Hshape).
  exists o, seg. split; [ exact Hrun | ].
  destruct (ProcessRun_engine_check Hshape) as (answer & rest & Hseg & _ & Ho).
  destruct o as [ d | e ].
  - destruct Ho as ((version & ->) & u & middle & -> & Hmid).
    right. exists d, version, u, middle. auto.
  - destruct Ho as ((message & ->) & -> & ->).
    left. exists message. auto.
Qed.

(** ** Upload route *)

(** X8. The status of the single response follows from what happened
    before it.  It is 200 exactly when the engine check was made and
    succeeded, whatever loading and pushing did afterwards.  A failed
    engine check gives 500 with the engine message as details.  When the
    engine was never asked, the request carried no file or the validator
    rejected it: the answer is a 400, unless unlinking the rejected file
    failed, which turns it into a 500 carrying the message of the unlink. *)
Theorem response_status_by_cause :
  forall (w : World) (req_file : option File) (t : Trace),
    exists resp before,
      snd (postUploadDockerTar w req_file tt t) = EvRespond resp :: before ++ t
      /\ ((exists version, In (EvExec DockerVersion (ExecOk version)) before)
          <-> statusCode resp = 200%N)
      /\ ((exists e, In (EvExec DockerVersion (ExecFail e)) before) ->
          resp = {| statusCode := 500;
                    body := ErrorBody "Failed to process Docker tar upload"
                              (Some ("Docker tar processing failed: "
                                     ++ EngineUnavailable)%string) |})
      /\ ((forall answer, ~ In (EvExec DockerVersion answer) before) ->
          (req_file = None
           /\ resp = {| statusCode := 400;
                        body := ErrorBody "No tar file uploaded" None |})
          \/ (exists file reason,
                 req_file = Some file
                 /\ In (EvUnlink (path file) None) before
                 /\ resp = {| statusCode := 400;
                              body := ErrorBody "Invalid Docker tar file" reason |})
          \/ (exists file e,
                 req_file = Some file
                 /\ In (EvUnlink (path file) (Some e)) before
                 /\ resp = {| statusCode := 500;
                              body := ErrorBody "Failed to process Docker tar upload"
                                                (Some e) |})).
Proof.
  intros w req t.
  destruct (upload_runs w req t) as (seg & Hrun & Hshape).
  rewrite Hrun. cbn [snd].
  inversion Hshape as [ | f segV v HV Hv | f segV v e u HV Hv
                        | f segV segP d HV HP | f segV segP e u HV HP ]; subst.
  - eexists. exists []. split; [ reflexivity | ].
    split; [ split | split ].
    + intros (version & []).
    + cbn [statusCode]. discriminate.
    + intros (e & []).
    + intros _. left. auto.
  - eexists. eexists. split; [ reflexivity | ].
    split; [ split | split ].
    + intros (version & Hin). in_cases Hin; wrong_stage Hin.
    + cbn [statusCode]. discriminate.
    + intros (e & Hin). in_cases Hin; wrong_stage Hin.
    + intros _. right. left. exists f, (error v).
      split; [ reflexivity | ]. split; [ left; reflexivity | reflexivity ].
  - eexists. eexists. split; [ cbn [app]; reflexivity | ].
    split; [ split | split ].
    + intros (version & Hin). in_cases Hin; wrong_stage Hin.
    + cbn [statusCode]. discriminate.
    + intros (e' & Hin). in_cases Hin; wrong_stage Hin.
    + intros _. right. right. exists f, e.
      split; [ reflexivity | ]. split; [ | reflexivity ].
      apply in_or_app. right. left. reflexivity.
  - destruct (ProcessRun_engine_check HP)
      as (answer & rest & -> & Hrest & (version & ->) & _).
    assert (Hin : In (EvExec DockerVersion (ExecOk version))
                     ((rest ++ [EvExec DockerVersion (ExecOk version)]) ++ segV)).
    { apply in_or_app. left. apply in_or_app. right. left. reflexivity. }
    eexists. eexists. split; [ cbn [app]; reflexivity | ].
    split; [ split | split ].
    + intros _. reflexivity.
    + intros _. exists version. exact Hin.
    + intros (e & Hin'). exfalso. in_cases Hin'; try wrong_stage Hin'.
      * rewrite Forall_forall in Hrest. apply Hrest in Hin'. cbn [stage] in Hin'.
        destruct Hin' as [ Hin' | [ Hin' | Hin' ] ]; discriminate Hin'.
    + intros Hno. destruct (Hno _ Hin).
  - destruct (ProcessRun_engine_check HP)
      as (answer & rest & -> & Hrest & (message & ->) & -> & ->).
    assert (Hin : In (EvExec DockerVersion (ExecFail message))
                     (retryUnlink f u ++ ([] ++ [EvExec DockerVersion (ExecFail message)])
                      ++ segV)).
    { apply in_or_app. right. left. reflexivity. }
    eexists. eexists. split; [ cbn [app]; reflexivity | ].
    split; [ split | split ].
    + intros (version & Hin'). exfalso. in_cases Hin'; wrong_stage Hin'.
    + cbn [statusCode]. discriminate.
    + intros _. reflexivity.
    + intros Hno. destruct (Hno _ Hin).
Qed.

(** ** Registry pusher *)

Lemma successCount_cons (o : PushOutcome) (l : list PushOutcome) :
  successCount (o :: l)
  = (match status o with success => 1 | failed => 0 end) + successCount l.
Proof. unfold successCount. cbn [filter]. destruct (status o); reflexivity. Qed.

Lemma PushRuns_successes url imageNames seg outs errs :
  PushRuns url imageNames seg outs errs ->
  successCount outs + 2 * length errs = 2 * length imageNames
  /\ length errs <= length imageNames.
Proof.
  induction 1 as [ | n ns seg segs st e outs errs Hone _ IH ].
  - split; reflexivity.
  - rewrite !successCount_cons. cbn [status outcome].
    rewrite length_app. cbn [length].
    destruct (PushRun_status Hone) as [ (-> & ->) | (-> & message & ->) ];
      cbn [failureMessage length]; lia.
Qed.


(** ** Pipeline orchestrator: the aggregated result *)

(** X10. The result of the orchestrator tells "nothing loaded" from
    "loaded".  With no image loaded it holds no push outcome, exactly one
    error (the loader's) and the warning [No images were loaded from the
    tar file], and no push command was run.  With images loaded it holds
    two outcomes per image, and its errors are exactly the references
    whose push failed: successes and twice the errors add up to the number
    of outcomes. *)
Theorem result_tells_nothing_loaded_from_loaded :
  forall (w : World) (R : Type) (file : File) (r r' : R) (t seg : Trace)
         (d : PipelineResult),
    processDockerTarFile w file r t = (Returned d, r', seg ++ t) ->
    (loadedImages d = []
     /\ pushedImages d = []
     /\ (exists message, errors d = [message])
     /\ In "No images were loaded from the tar file"%string (warnings d)
     /\ Forall (fun ev => stage ev <> Pushing) seg)
    \/ (loadedImages d <> []
        /\ length (pushedImages d) = 2 * length (loadedImages d)
        /\ successCount (pushedImages d) + 2 * length (errors d)
           = length (pushedImages d)
        /\ exists probe, In (EvExec (CurlRegistry (localRegistryUrl w)) probe) seg).
Proof.
  intros w R file r r' t seg d Hrun.
  destruct (process_runs w file r t) as (o & seg' & Hrun' & Hshape).
  rewrite Hrun' in Hrun. inversion Hrun as [[Ho Hr Hseg]].
  fix_segment Hseg seg. subst o. clear Hrun Hrun'.
  inversion Hshape as [ | version segL lr u HL Hi
                        | version segL lr probe segR outs errs pws u HL Hne HR ]; subst.
  - left. cbn [loadedImages pushedImages errors warnings].
    destruct (LoadRun_errors HL) as [ (_ & Herr) | (Hne & _) ]; [ | contradiction ].
    pose proof (LoadRun_stage HL) as HLs.
    repeat split; try reflexivity; try exact Herr.
    + apply in_or_app. right. left. reflexivity.
    + cbn [app]. constructor; [ discriminate | ].
      apply Forall_app. split.
      * apply (stage_differs (s := Loading)); [ discriminate | exact HLs ].
      * repeat constructor. discriminate.
  - right. cbn [loadedImages pushedImages errors].
    destruct (LoadRun_errors HL) as [ (Hi & _) | (_ & Herr) ]; [ contradiction | ].
    destruct (PushRuns_successes HR) as (Hsum & _).
    pose proof (PushRuns_length HR) as Hlen.
    rewrite Herr. cbn [app].
    split; [ exact Hne | ]. split; [ exact Hlen | ]. split; [ lia | ].
    exists probe. right. rewrite !in_app_iff. cbn [In]. auto.
Qed.

(** ** JavaScript strings: splitting at a separator *)

Module JsSeparatorFacts.

Lemma includes_char_append (sep : ascii) (a b : string) :
  Js.includes (String sep EmptyString) (a ++ b)%string
  = Js.includes (String sep EmptyString) a || Js.includes (String sep EmptyString) b.
Proof.
  induction a as [ | c a IH ].
  - cbn [append]. destruct b; reflexivity.
  - cbn [append Js.includes]. rewrite !JsFacts.prefix_char, IH.
    apply orb_assoc.
Qed.

Lemma includes_char_cons (sep c : ascii) (s : string) :
  Js.includes (String sep EmptyString) (String c s)
  = Ascii.eqb c sep || Js.includes (String sep EmptyString) s.
Proof. cbn [Js.includes]. rewrite JsFacts.prefix_char. reflexivity. Qed.

(** The text in front of the first separator is the first piece. *)
Lemma split_first (sep : ascii) (a b : string) :
  Js.includes (String sep EmptyString) a = false ->
  Js.split sep (a ++ String sep b)%string = a :: Js.split sep b.
Proof.
  induction a as [ | c a IH ]; intros Hnone.
  - cbn [append Js.split]. rewrite Ascii.eqb_refl. reflexivity.
  - rewrite includes_char_cons in Hnone.
    apply orb_false_iff in Hnone. destruct Hnone as (Hc & Ha).
    cbn [append Js.split]. rewrite Hc, (IH Ha). reflexivity.
Qed.

End JsSeparatorFacts.

(** ** Registry pusher: the targets of a reference *)

Lemma imageBaseName_prefixed (pre rest : string) :
  Js.includes "/" rest = false ->
  imageBaseName (pre ++ String "/" rest)%string = rest.
Proof.
  intros Hnone. unfold imageBaseName.
  rewrite JsFacts.includes_separator, JsFacts.pop_split_separator.
  rewrite (JsFacts.split_without_separator "/" rest Hnone). reflexivity.
Qed.

Lemma imageBaseName_plain (rest : string) :
  Js.includes "/" rest = false -> imageBaseName rest = rest.
Proof. intros Hnone. unfold imageBaseName. rewrite Hnone. reflexivity. Qed.

(** X11. The targets of a well-formed reference.  For [<repo>:<tag>],
    alone or behind any registry and path prefix, the versioned target is
    [<url>/<repo>:<tag>] and the latest target is [<url>/<repo>:latest]:
    the prefix is dropped.  For a reference without tag the versioned
    target is the latest target. *)
Theorem targets_of_reference :
  forall (url pre repo tag : string),
    Js.includes "/" repo = false -> Js.includes ":" repo = false ->
    Js.includes "/" tag = false -> Js.includes ":" tag = false ->
    let tagged := (repo ++ ":" ++ tag)%string in
    let versionedTarget := (url ++ "/" ++ repo ++ ":" ++ tag)%string in
    let latestTarget := (url ++ "/" ++ repo ++ ":latest")%string in
    originalLocalImageName url tagged = versionedTarget
    /\ latestLocalImageName url tagged = latestTarget
    /\ originalLocalImageName url (pre ++ "/" ++ tagged)%string = versionedTarget
    /\ latestLocalImageName url (pre ++ "/" ++ tagged)%string = latestTarget
    /\ originalLocalImageName url repo = latestTarget
    /\ originalLocalImageName url (pre ++ "/" ++ repo)%string = latestTarget
    /\ latestLocalImageName url (pre ++ "/" ++ repo)%string = latestTarget.
Proof.
  intros url pre repo tag Hrs Hrc Hts Htc tagged versionedTarget latestTarget.
  assert (Htagged : Js.includes "/" tagged = false).
  { unfold tagged. rewrite JsSeparatorFacts.includes_char_append, Hrs.
    cbn [append]. rewrite JsSeparatorFacts.includes_char_cons, Hts. reflexivity. }
  assert (Hsplit : Js.split ":" tagged = [repo; tag]).
  { unfold tagged. cbn [append].
    rewrite (JsSeparatorFacts.split_first ":" repo tag Hrc).
    rewrite (JsFacts.split_without_separator ":" tag Htc). reflexivity. }
  assert (Hsplit' : Js.split ":" repo = [repo]).
  { apply JsFacts.split_without_separator. exact Hrc. }
  unfold originalLocalImageName, latestLocalImageName, repoName, originalTag.
  cbn [append].
  rewrite !(imageBaseName_prefixed pre tagged Htagged),
    !(imageBaseName_prefixed pre repo Hrs),
    !(imageBaseName_plain tagged Htagged), !(imageBaseName_plain repo Hrs).
  rewrite Hsplit, Hsplit'. cbn [nth].
  repeat split; reflexivity.
Qed.

(** ** The upload middleware *)

Module UploadFacts.

Lemma toLowerCase_append (a b : string) :
  JsText.toLowerCase (a ++ b)%string
  = (JsText.toLowerCase a ++ JsText.toLowerCase b)%string.
Proof.
  induction a as [ | c a IH ]; cbn [append JsText.toLowerCase]; [ | rewrite IH ];
    reflexivity.
Qed.

Lemma length_toLowerCase (s : string) :
  String.length (JsText.toLowerCase s) = String.length s.
Proof.
  induction s as [ | c s IH ]; cbn [JsText.toLowerCase String.length];
    [ | rewrite IH ]; reflexivity.
Qed.

Lemma toLowerCase_drop (n : nat) (s : string) :
  JsText.toLowerCase (Js.drop n s) = Js.drop n (JsText.toLowerCase s).
Proof.
  revert s. induction n as [ | n IH ]; intros s.
  - destruct s; reflexivity.
  - destruct s as [ | c s ]; [ reflexivity | ].
    cbn [Js.drop JsText.toLowerCase]. apply IH.
Qed.

(** A string is what [drop] leaves behind what it drops. *)
Lemma drop_splits (n : nat) (s : string) :
  exists front, s = (front ++ Js.drop n s)%string.
Proof.
  revert s. induction n as [ | n IH ]; intros s.
  - exists EmptyString. destruct s; reflexivity.
  - destruct s as [ | c s ].
    + exists EmptyString. reflexivity.
    + destruct (IH s) as (front & Hfront).
      exists (String c front). cbn [append Js.drop]. rewrite <- Hfront. reflexivity.
Qed.

Lemma endsWith_append (front suffix : string) :
  JsText.endsWith suffix (front ++ suffix)%string = true.
Proof.
  unfold JsText.endsWith. rewrite JsTextFacts.length_append.
  apply andb_true_iff. split.
  - apply Nat.leb_le. lia.
  - replace (String.length front + String.length suffix - String.length suffix)
      with (String.length front) by lia.
    rewrite JsTextFacts.drop_append. apply String.eqb_refl.
Qed.

Lemma endsWith_splits (suffix s : string) :
  JsText.endsWith suffix s = true -> exists front, s = (front ++ suffix)%string.
Proof.
  unfold JsText.endsWith. intros H. apply andb_true_iff in H.
  destruct H as (_ & Heq). apply String.eqb_eq in Heq.
  destruct (drop_splits (String.length s - String.length suffix) s) as (front & Hs).
  exists front. rewrite Heq in Hs. exact Hs.
Qed.

End UploadFacts.

(** X12. The file filter of the upload looks at the extension only and
    ignores its case: a name is accepted exactly when it is some stem
    followed by an extension whose lower-case form is [.tar]; any other
    name is refused with [Only .tar files are allowed for Docker image
    uploads]. *)
Theorem filter_accepts_tar_extension :
  forall originalname : string,
    (Upload.fileFilter originalname = Upload.Accept
     <-> exists stem extension,
          originalname = (stem ++ extension)%string
          /\ JsText.toLowerCase extension = ".tar"%string)
    /\ (Upload.fileFilter originalname = Upload.Accept
        \/ Upload.fileFilter originalname
           = Upload.Reject "Only .tar files are allowed for Docker image uploads").
Proof.
  intros originalname. unfold Upload.fileFilter. split; [ split | ].
  - destruct (JsText.endsWith ".tar" (JsText.toLowerCase originalname)) eqn:Hends;
      [ intros _ | discriminate ].
    unfold JsText.endsWith in Hends. apply andb_true_iff in Hends.
    destruct Hends as (_ & Heq). apply String.eqb_eq in Heq.
    rewrite UploadFacts.length_toLowerCase, <- UploadFacts.toLowerCase_drop in Heq.
    destruct (UploadFacts.drop_splits (String.length originalname - String.length ".tar")
                                      originalname) as (stem & Hname).
    eexists stem, _. split; [ exact Hname | exact Heq ].
  - intros (stem & extension & -> & Hext).
    rewrite UploadFacts.toLowerCase_append, Hext, UploadFacts.endsWith_append.
    reflexivity.
  - destruct (JsText.endsWith ".tar" (JsText.toLowerCase originalname)); auto.
Qed.

(** X13. Storing keeps the extension: the name multer stores an accepted
    upload under, [<Date.now()>-<originalname>], still ends with the
    original name and would itself pass the file filter. *)
Theorem stored_upload_keeps_extension :
  forall (now : N) (originalname : string),
    Upload.fileFilter originalname = Upload.Accept ->
    Upload.fileFilter (Upload.storedFilename now originalname) = Upload.Accept
    /\ JsText.endsWith originalname (Upload.storedFilename now originalname) = true.
Proof.
  intros now originalname. unfold Upload.fileFilter, Upload.storedFilename.
  destruct (JsText.endsWith ".tar" (JsText.toLowerCase originalname)) eqn:Hends;
    [ intros _ | discriminate ].
  apply UploadFacts.endsWith_splits in Hends. destruct Hends as (front & Hfront).
  split.
  - rewrite <- JsTextFacts.append_assoc, UploadFacts.toLowerCase_append, Hfront.
    rewrite <- JsTextFacts.append_assoc, UploadFacts.endsWith_append. reflexivity.
  - rewrite <- JsTextFacts.append_assoc. apply UploadFacts.endsWith_append.
Qed.

(** ** The status route of the images *)

(** X14. [GET /api/docker-images-status] always answers with a status,
    never with a 500: every command failure is absorbed.  The engine is
    asked for its version first; when that fails the images are not
    listed, and the status holds no image and no version.  Otherwise one
    listing is run and its table parsed, a failed listing leaving the list
    empty.  The registry probe is always the last command, and
    [registryInfo.accessible] tells whether it succeeded. *)
Theorem images_status_always_answers :
  forall (env : Shell.Env) (l : Shell.Log),
    exists status probe daemon middle,
      Shell.getDockerImagesStatusRoute env l
      = (Shell.Json status,
         (Shell.registryProbeCommand (Shell.registryUrl env), probe) :: middle
         ++ [(Shell.dockerVersionCommand, daemon)] ++ l)
      /\ Shell.registryInfo_url status = Shell.registryUrl env
      /\ Shell.registryInfo_accessible status
         = match probe with ExecOk _ => true | ExecFail _ => false end
      /\ match daemon with
         | ExecFail _ =>
             middle = []
             /\ Shell.dockerDaemon_accessible status = false
             /\ Shell.dockerDaemon_version status = None
             /\ Shell.localImages status = []
         | ExecOk version =>
             Shell.dockerDaemon_accessible status = true
             /\ Shell.dockerDaemon_version status = Some (Js.trim (stdout version))
             /\ exists listing,
                 middle = [(Shell.dockerImagesCommand, listing)]
                 /\ Shell.localImages status
                    = match listing with
                      | ExecOk out => Shell.parseImageTable (stdout out)
                      | ExecFail _ => []
                      end
         end.
Proof.
  intros env l.
  unfold Shell.getDockerImagesStatusRoute, Shell.getDockerImagesStatus,
    Shell.try_catch, Shell.bind, Shell.ret, Shell.throw, Shell.execPromise.
  cbv beta iota zeta.
  destruct (Shell.exec env l Shell.dockerVersionCommand) as [ version | e ] eqn:Hv;
    cbn [Shell.dockerDaemon_accessible Shell.registryInfo_url Shell.localImages
         Shell.registryInfo_accessible Shell.dockerDaemon_version].
  - destruct (Shell.exec env ((Shell.dockerVersionCommand, ExecOk version) :: l)
                         Shell.dockerImagesCommand) as [ out | e ] eqn:Hi;
      cbn [Shell.dockerDaemon_accessible Shell.registryInfo_url Shell.localImages
           Shell.registryInfo_accessible Shell.dockerDaemon_version];
      match goal with
      | |- context [Shell.exec env ?l' (Shell.registryProbeCommand ?u)] =>
          destruct (Shell.exec env l' (Shell.registryProbeCommand u)) as [ p | e' ] eqn:Hp
      end;
      do 2 eexists; exists (ExecOk version); eexists [_];
      (split; [ reflexivity | ]); cbn; repeat split; eexists; split; reflexivity.
  - match goal with
    | |- context [Shell.exec env ?l' (Shell.registryProbeCommand ?u)] =>
        destruct (Shell.exec env l' (Shell.registryProbeCommand u)) as [ p | e' ] eqn:Hp
    end;
      do 2 eexists; exists (ExecFail e), [];
      (split; [ reflexivity | ]); cbn; repeat split.
Qed.

Lemma part_filled (parts : list string) (i : nat) : Shell.part parts i <> EmptyString.
Proof.
  unfold Shell.part. destruct (nth_error parts i) as [ s | ]; [ | discriminate ].
  destruct s; cbn [Js.is_empty]; discriminate.
Qed.

(** X15. Every image the status lists has all four fields filled: a column
    that is missing from a line of [docker images], or empty, reads
    [unknown]; the header line and blank lines yield no image. *)
Theorem listed_images_have_every_field :
  forall (imagesOutput : string) (image : Shell.LocalImage),
    In image (Shell.parseImageTable imagesOutput) ->
    Shell.name image <> EmptyString /\ Shell.id image <> EmptyString
    /\ Shell.size image <> EmptyString /\ Shell.created image <> EmptyString
    /\ exists line,
        In line (tl (Js.split Js.lf imagesOutput))
        /\ Js.trim line <> EmptyString
        /\ image = Shell.parseImageLine line.
Proof.
  intros imagesOutput image Hin. unfold Shell.parseImageTable in Hin.
  apply in_map_iff in Hin. destruct Hin as (line & <- & Hline).
  apply filter_In in Hline. destruct Hline as (Hline & Hkeep).
  unfold Shell.parseImageLine at 1 2 3 4.
  cbn [Shell.name Shell.id Shell.size Shell.created].
  repeat (split; [ apply part_filled | ]).
  exists line. split; [ exact Hline | ]. split; [ | reflexivity ].
  intros E. rewrite E in Hkeep. discriminate Hkeep.
Qed.

Lemma isCell_spec (s : string) :
  isCell s = true ->
  s <> EmptyString
  /\ Js.includes (String JsText.tab EmptyString) s = false
  /\ Js.includes (String Js.lf EmptyString) s = false.
Proof.
  unfold isCell. intros H.
  apply andb_true_iff in H. destruct H as (H & Hlf).
  apply andb_true_iff in H. destruct H as (Hne & Htab).
  apply negb_true_iff in Htab. apply negb_true_iff in Hlf.
  repeat split; try assumption. intros ->. discriminate Hne.
Qed.

Lemma part_cell (parts : list string) (i : nat) (s : string) :
  nth_error parts i = Some s -> s <> EmptyString -> Shell.part parts i = s.
Proof.
  intros Hnth Hne. unfold Shell.part. rewrite Hnth.
  destruct s; [ contradiction | reflexivity ].
Qed.

(** A printed row reads back as the row. *)
Lemma parseImageLine_renderRow (i : Shell.LocalImage) :
  isRow i = true -> Shell.parseImageLine (renderRow i) = i.
Proof.
  unfold isRow. intros H.
  apply andb_true_iff in H. destruct H as (H & _).
  apply andb_true_iff in H. destruct H as (H & Hc).
  apply andb_true_iff in H. destruct H as (H & Hs).
  apply andb_true_iff in H. destruct H as (Hn & Hi).
  destruct (isCell_spec _ Hn) as (Hn0 & Hnt & _).
  destruct (isCell_spec _ Hi) as (Hi0 & Hit & _).
  destruct (isCell_spec _ Hs) as (Hs0 & Hst & _).
  destruct (isCell_spec _ Hc) as (Hc0 & Hct & _).
  unfold Shell.parseImageLine, renderRow.
  rewrite (JsSeparatorFacts.split_first JsText.tab _ _ Hnt).
  rewrite (JsSeparatorFacts.split_first JsText.tab _ _ Hit).
  rewrite (JsSeparatorFacts.split_first JsText.tab _ _ Hst).
  rewrite (JsFacts.split_without_separator JsText.tab _ Hct).
  cbv zeta.
  rewrite (@part_cell [Shell.name i; Shell.id i; Shell.size i; Shell.created i]
             0 (Shell.name i) eq_refl Hn0).
  rewrite (@part_cell [Shell.name i; Shell.id i; Shell.size i; Shell.created i]
             1 (Shell.id i) eq_refl Hi0).
  rewrite (@part_cell [Shell.name i; Shell.id i; Shell.size i; Shell.created i]
             2 (Shell.size i) eq_refl Hs0).
  rewrite (@part_cell [Shell.name i; Shell.id i; Shell.size i; Shell.created i]
             3 (Shell.created i) eq_refl Hc0).
  destruct i; reflexivity.
Qed.

Lemma renderRow_line (i : Shell.LocalImage) :
  isRow i = true ->
  Js.includes (String Js.lf EmptyString) (renderRow i) = false
  /\ Js.is_empty (Js.trim (renderRow i)) = false.
Proof.
  unfold isRow. intros H.
  apply andb_true_iff in H. destruct H as (H & Hfirst).
  apply andb_true_iff in H. destruct H as (H & Hc).
  apply andb_true_iff in H. destruct H as (H & Hs).
  apply andb_true_iff in H. destruct H as (Hn & Hi).
  destruct (isCell_spec _ Hn) as (_ & _ & Hnl).
  destruct (isCell_spec _ Hi) as (_ & _ & Hil).
  destruct (isCell_spec _ Hs) as (_ & _ & Hsl).
  destruct (isCell_spec _ Hc) as (_ & _ & Hcl).
  unfold renderRow. split.
  - rewrite JsSeparatorFacts.includes_char_append, Hnl.
    rewrite JsSeparatorFacts.includes_char_cons.
    rewrite JsSeparatorFacts.includes_char_append, Hil.
    rewrite JsSeparatorFacts.includes_char_cons.
    rewrite JsSeparatorFacts.includes_char_append, Hsl.
    rewrite JsSeparatorFacts.includes_char_cons, Hcl.
    reflexivity.
  - destruct (Shell.name i) as [ | c rest ]; [ discriminate Hfirst | ].
    apply negb_true_iff in Hfirst.
    unfold Js.trim. cbn [append Js.trim_start]. rewrite Hfirst.
    cbn [Js.trim_end]. rewrite Hfirst, andb_false_r. reflexivity.
Qed.

Lemma parse_renderRows (rows : list Shell.LocalImage) :
  forallb isRow rows = true ->
  map Shell.parseImageLine
      (filter (fun line => negb (Js.is_empty (Js.trim line)))
              (Js.split Js.lf (renderRows rows)))
  = rows.
Proof.
  induction rows as [ | i rows IH ]; intros Hrows; [ reflexivity | ].
  cbn [forallb] in Hrows. apply andb_true_iff in Hrows.
  destruct Hrows as (Hrow & Hrest).
  destruct (renderRow_line _ Hrow) as (Hline & Hblank).
  cbn [renderRows].
  rewrite (JsSeparatorFacts.split_first Js.lf _ _ Hline).
  cbn [filter]. rewrite Hblank. cbn [negb map].
  rewrite (parseImageLine_renderRow _ Hrow), (IH Hrest). reflexivity.
Qed.

(** X16. Round trip through the table of [docker images]: a header line
    followed by one line per image, the four cells of a line separated by
    TAB, is parsed back into exactly these images, in order. *)
Theorem image_table_round_trip :
  forall (header : string) (rows : list Shell.LocalImage),
    Js.includes (String Js.lf EmptyString) header = false ->
    forallb isRow rows = true ->
    Shell.parseImageTable (renderTable header rows) = rows.
Proof.
  intros header rows Hheader Hrows.
  unfold Shell.parseImageTable, renderTable.
  rewrite (JsSeparatorFacts.split_first Js.lf _ _ Hheader). cbn [tl].
  apply parse_renderRows. exact Hrows.
Qed.

(** ** Pulling from the registry *)



(** X18. [POST /api/pull-from-registry] with a string as image name.
    Without name, or with the empty name, the route answers 400 and runs
    no command.  Otherwise it runs exactly one command, [docker pull] of
    the normalised name in double quotes, and answers with a result, never
    with a 500: a failed pull is reported inside the result, [success]
    being false and [error] the message of the command. *)
Theorem pull_route_reports_failure_in_result :
  forall (env : Shell.Env) (body_imageName : option string) (l : Shell.Log),
    match body_imageName with
    | None | Some EmptyString =>
        Shell.pullFromRegistryRoute env body_imageName l
        = (Shell.Failure 400 "Image name is required", l)
    | Some imageName =>
        exists result answer,
          Shell.pullFromRegistryRoute env body_imageName l
          = (Shell.Json result,
             [(Shell.dockerPullCommand (Shell.fullImageName env imageName), answer)] ++ l)
          /\ answer
             = Shell.exec env l (Shell.dockerPullCommand (Shell.fullImageName env imageName))
          /\ Shell.imageName result = Shell.fullImageName env imageName
          /\ match answer with
             | ExecOk out =>
                 Shell.success result = true /\ Shell.error result = None
                 /\ Shell.output result = Some (stdout out)
             | ExecFail e =>
                 Shell.success result = false /\ Shell.error result = Some e
                 /\ Shell.output result = None
             end
    end.
Proof.
  intros env [ [ | c rest ] | ] l; try reflexivity.
  unfold Shell.pullFromRegistryRoute, Shell.pullImageFromRegistry,
    Shell.try_catch, Shell.bind, Shell.ret, Shell.throw, Shell.execPromise.
  cbv beta iota zeta. cbn [Js.is_empty].
  destruct (Shell.exec env l
              (Shell.dockerPullCommand (Shell.fullImageName env (String c rest))))
    as [ out | e ] eqn:Hpull;
    do 2 eexists; (split; [ reflexivity | ]); rewrite ?Hpull; cbn; auto.
Qed.

(** ** The container status of the services *)

Lemma find_first {A} (f : A -> bool) (l : list A) (x : A) :
  find f l = Some x
  <-> exists before after,
       l = before ++ x :: after
       /\ Forall (fun y => f y = false) before
       /\ f x = true.
Proof.
  induction l as [ | a l IH ]; cbn [find].
  - split; [ discriminate | ].
    intros (before & after & Hl & _). destruct before; discriminate Hl.
  - destruct (f a) eqn:Ha.
    + split.
      * intros E. injection E as <-. exists [], l. auto.
      * intros (before & after & Hl & Hbefore & Hx).
        destruct before as [ | b before ].
        -- injection Hl as -> _. reflexivity.
        -- injection Hl as -> _. inversion Hbefore as [ | ? ? Hb _ ]. congruence.
    + rewrite IH. split.
      * intros (before & after & -> & Hbefore & Hx).
        exists (a :: before), after. auto.
      * intros (before & after & Hl & Hbefore & Hx).
        destruct before as [ | b before ].
        -- injection Hl as -> _. congruence.
        -- injection Hl as -> ->. inversion Hbefore. eauto.
Qed.

(** X19. The status of the four services.  As long as the containers can
    be listed, the status has one entry for each of [buco], [subco],
    [mqtt] and [dhcp], in this order, with the configured names.  A
    service is reported running exactly when the first listed container
    one of whose names contains the service's container name is in state
    [running]: a later container of that name does not count.  When
    listing fails the function throws [Failed to get Docker status:
    <message>]. *)
Theorem service_runs_iff_first_match_runs :
  forall docker : Services.Docker,
    match docker true with
    | inr e =>
        Services.getDockerServicesStatus docker
        = Thrown ("Failed to get Docker status: " ++ e)%string
    | inl containers =>
        exists statuses,
          Services.getDockerServicesStatus docker = Returned statuses
          /\ map (fun entry => (fst entry, Services.status_containerName (snd entry),
                                Services.status_imageName (snd entry))) statuses
             = map (fun entry => (fst entry, Services.containerName (snd entry),
                                  Services.imageName (snd entry)))
                   Services.dockerServices
          /\ forall service st,
              In (service, st) statuses ->
              (Services.running st = true
               <-> exists before container after,
                    containers = before ++ container :: after
                    /\ Forall (fun c => Services.isNamed (Services.status_containerName st) c
                                        = false) before
                    /\ Services.isNamed (Services.status_containerName st) container = true
                    /\ Services.State container = "running"%string)
    end.
Proof.
  intros docker. unfold Services.getDockerServicesStatus.
  destruct (docker true) as [ containers | e ]; [ | reflexivity ].
  eexists. split; [ reflexivity | ]. split; [ reflexivity | ].
  intros service st Hin. apply in_map_iff in Hin.
  destruct Hin as ((service' & config) & E & _). injection E as _ <-.
  cbn [snd Services.serviceStatus Services.running Services.status_containerName].
  destruct (find (Services.isNamed (Services.containerName config)) containers)
    as [ found | ] eqn:Hfind.
  - pose proof (proj1 (find_first _ _ _) Hfind) as (before & after & -> & Hbefore & Hx).
    split.
    + intros Hrun. apply String.eqb_eq in Hrun.
      exists before, found, after. auto.
    + intros (before' & container & after' & Hl & Hbefore' & Hx' & Hstate).
      assert (Hfind' : find (Services.isNamed (Services.containerName config))
                            (before ++ found :: after) = Some container).
      { rewrite Hl. apply find_first. exists before', after'. auto. }
      rewrite Hfind in Hfind'. injection Hfind' as ->.
      apply String.eqb_eq. exact Hstate.
  - split; [ discriminate | ].
    intros (before & container & after & Hl & Hbefore & Hx & _).
    assert (Hfind' : find (Services.isNamed (Services.containerName config)) containers
                     = Some container).
    { apply find_first. exists before, after. auto. }
    rewrite Hfind in Hfind'. discriminate Hfind'.
Qed.

(** X20. Triggering the Watchtower update looks for a container, among
    those [listContainers()] returns, one of whose names contains
    [watchtower].  With such a container it reports success; without one
    it throws [Watchtower update failed: Watchtower container not found];
    when the listing itself fails it throws the message of the listing
    behind the same prefix. *)
Theorem watchtower_update_needs_its_container :
  forall docker : Services.Docker,
    match docker false with
    | inr e =>
        Services.triggerWatchtowerUpdate docker
        = Thrown ("Watchtower update failed: " ++ e)%string
    | inl containers =>
        ((exists container name,
             In container containers /\ In name (Services.Names container)
             /\ Js.includes "watchtower" name = true) ->
         Services.triggerWatchtowerUpdate docker
         = Returned {| Services.status := "success";
                       Services.message := "Watchtower update triggered";
                       Services.method := "watchtower" |})
        /\ ((forall container name,
                In container containers -> In name (Services.Names container) ->
                Js.includes "watchtower" name = false) ->
            Services.triggerWatchtowerUpdate docker
            = Thrown "Watchtower update failed: Watchtower container not found")
    end.
Proof.
  intros docker. unfold Services.triggerWatchtowerUpdate.
  destruct (docker false) as [ containers | e ]; [ | reflexivity ].
  destruct (find (Services.isNamed "watchtower") containers) as [ found | ] eqn:Hfind.
  - split; [ reflexivity | ].
    intros Hnone. exfalso.
    apply find_some in Hfind. destruct Hfind as (Hin & Hnamed).
    unfold Services.isNamed in Hnamed. apply existsb_exists in Hnamed.
    destruct Hnamed as (name & Hname & Hinc).
    rewrite (Hnone _ _ Hin Hname) in Hinc. discriminate Hinc.
  - split; [ | reflexivity ].
    intros (container & name & Hin & Hname & Hinc). exfalso.
    pose proof (find_none _ _ Hfind _ Hin) as Hnot.
    unfold Services.isNamed in Hnot.
    assert (Hyes : existsb (fun name => Js.includes "watchtower" name)
                           (Services.Names container) = true).
    { apply existsb_exists. exists name. auto. }
    rewrite Hyes in Hnot. discriminate Hnot.
Qed.

(** ** Registry pusher: the reachability probe *)

Lemma probeRegistry_warns (w : World) (url : string) (r : PushResult) (t : Trace) :
  exists r',
    probeRegistry w url r t
    = (Returned tt, r',
       EvExec (CurlRegistry url) (w_exec w t (render (CurlRegistry url))) :: t)
    /\ pushed r' = pushed r
    /\ push_errors r' = push_errors r
    /\ push_warnings r'
       = push_warnings r ++ probeWarning url (w_exec w t (render (CurlRegistry url))).
Proof.
  unfold probeRegistry, probeWarning. unfold_monad.
  repeat next_case; eexists; repeat split; rewrite ?app_nil_r; reflexivity.
Qed.

Lemma PushRuns_without_probe url imageNames seg outs errs :
  PushRuns url imageNames seg outs errs ->
  Forall (fun ev => forall u answer, ev <> EvExec (CurlRegistry u) answer) seg.
Proof.
  induction 1 as [ | n ns seg segs st e outs errs Hone _ IH ]; [ constructor | ].
  apply Forall_app. split; [ exact IH | ].
  destruct Hone; repeat constructor; discriminate.
Qed.

(** X21. The registry probe is advisory.  The pusher runs it once, before
    anything else.  Its failure, or an answer saying [Registry not
    accessible], only puts one warning at the head of the warnings; the
    pusher still returns and still tags the versioned target of every
    reference. *)
Theorem registry_probe_is_advisory :
  forall (w : World) (R : Type) (imageNames : list string) (r : R) (t : Trace),
    let url := localRegistryUrl w in
    let probe := w_exec w t (render (CurlRegistry url)) in
    exists res seg later,
      pushImagesToLocalRegistry w imageNames r t
      = (Returned res, r, seg ++ EvExec (CurlRegistry url) probe :: t)
      /\ Forall (fun ev => forall u answer, ev <> EvExec (CurlRegistry u) answer) seg
      /\ push_warnings res = probeWarning url probe ++ later
      /\ forall imageName,
          In imageName imageNames ->
          exists answer,
            In (EvExec (DockerTag imageName (originalLocalImageName url imageName))
                       answer) seg.
Proof.
  intros w R imageNames r t url probe.
  destruct (probeRegistry_warns w url emptyPush t) as (r0 & Hprobe & _ & _ & Hw0).
  destruct (pushLoop_runs w url imageNames r0 (EvExec (CurlRegistry url) probe :: t))
    as (r1 & seg & outs & errs & Hloop & Hruns & _ & _ & later & Hw1).
  exists r1, seg, later.
  split; [ | split; [ | split ] ].
  - unfold pushImagesToLocalRegistry, call, try_catch, bind, get.
    fold url. rewrite Hprobe. fold probe. rewrite Hloop. reflexivity.
  - exact (PushRuns_without_probe Hruns).
  - rewrite Hw1, Hw0. reflexivity.
  - exact (PushRuns_attempts Hruns).
Qed.

(** ** The dashboard *)

Lemma ProcessRun_counts url file seg d :
  ProcessRun url file seg (Returned d) ->
  (loadedImages d = [] /\ pushedImages d = [] /\ exists message, errors d = [message])
  \/ (loadedImages d <> []
      /\ length (pushedImages d) = 2 * length (loadedImages d)
      /\ successCount (pushedImages d)
         = 2 * (length (loadedImages d) - length (errors d))).
Proof.
  intros H.
  inversion H as [ | version segL lr u HL Hi
                   | version segL lr probe segR outs errs pws u HL Hne HR ]; subst;
    cbn [loadedImages pushedImages errors].
  - left. destruct (LoadRun_errors HL) as [ (_ & Herr) | (Hne & _) ];
      [ auto | contradiction ].
  - right. destruct (LoadRun_errors HL) as [ (Hi & _) | (_ & Herr) ]; [ contradiction | ].
    destruct (PushRuns_successes HR) as (Hsum & Hle).
    pose proof (PushRuns_length HR) as Hlen.
    rewrite Herr. cbn [app]. split; [ exact Hne | ]. split; [ exact Hlen | lia ].
Qed.

(** X22. What the dashboard shows for a processed upload.  The message is
    [Success: <message>], a line [Loaded <n> images], then, when images
    were loaded, [, pushed <k> to registry] where [k] counts outcomes, not
    images: it is twice the number of images whose push recorded no error.
    Lines for errors and warnings follow exactly when there are any. *)
Theorem dashboard_counts_two_pushes_per_image :
  forall (w : World) (R : Type) (file : File) (r r' : R) (t seg : Trace)
         (d : PipelineResult) (message : string),
    processDockerTarFile w file r t = (Returned d, r', seg ++ t) ->
    exists tail,
      Dashboard.uploadMessage message d
      = ("Success: " ++ message
         ++ String Js.lf "Loaded " ++ Dashboard.count (length (loadedImages d))
         ++ " images"
         ++ match loadedImages d with
            | [] => ""
            | _ :: _ =>
                ", pushed "
                ++ Dashboard.count (2 * (length (loadedImages d) - length (errors d)))
                ++ " to registry"
            end
         ++ tail)%string
      /\ (tail = EmptyString <-> errors d = [] /\ warnings d = []).
Proof.
  intros w R file r r' t seg d message Hrun.
  destruct (process_runs w file r t) as (o & seg' & Hrun' & Hshape).
  rewrite Hrun' in Hrun. inversion Hrun as [[Ho Hr Hseg]].
  fix_segment Hseg seg. subst o. clear Hrun Hrun'.
  unfold Dashboard.uploadMessage. cbv zeta.
  destruct (ProcessRun_counts Hshape)
    as [ (Hl & Hp & m & He) | (Hne & Hlen & Hcount) ].
  - rewrite Hl, Hp, He. cbn [length Nat.ltb Nat.leb].
    destruct (warnings d) as [ | w0 ws ]; cbn [length Nat.ltb Nat.leb];
      eexists; (split; [ rewrite !JsTextFacts.append_assoc; reflexivity | ]);
      (split; [ discriminate | intros (Hno & _); discriminate Hno ]).
  - assert (Hpushed : (0 <? length (pushedImages d))%nat = true).
    { apply Nat.ltb_lt. rewrite Hlen. destruct (loadedImages d);
        [ contradiction | cbn [length]; lia ]. }
    rewrite Hpushed, Hcount.
    destruct (loadedImages d) as [ | l0 ls ] eqn:Hl; [ contradiction | ].
    destruct (errors d) as [ | e0 es ]; destruct (warnings d) as [ | w0 ws ];
      cbn [length Nat.ltb Nat.leb];
      eexists; (split; [ rewrite !JsTextFacts.append_assoc; reflexivity | ]).
    + split; auto.
    + split; [ discriminate | intros (_ & Hno); discriminate Hno ].
    + split; [ discriminate | intros (Hno & _); discriminate Hno ].
    + split; [ discriminate | intros (Hno & _); discriminate Hno ].
Qed.

(** ** The self-test of the Docker setup *)

Section SetupFacts.

Variable env : SetupTest.Env.










End SetupFacts.


(** ** Upload route: the stages of a request *)

Lemma inStageOrder_app (a b : Trace) :
  inStageOrder a = true -> inStageOrder b = true ->
  (forall later earlier, In later a -> In earlier b ->
     stageRank (stage earlier) <= stageRank (stage later)) ->
  inStageOrder (a ++ b) = true.
Proof.
  induction a as [ | ev a IH ]; intros Ha Hb Hab; [ exact Hb | ].
  cbn [app inStageOrder] in *. apply andb_true_iff in Ha. destruct Ha as (Hev & Ha).
  apply andb_true_iff. split.
  - rewrite forallb_app. apply andb_true_iff. split; [ exact Hev | ].
    apply forallb_forall. intros ev' Hin. apply Nat.leb_le.
    apply Hab; [ left; reflexivity | exact Hin ].
  - apply IH; [ exact Ha | exact Hb | ].
    intros later earlier Hl He. apply Hab; [ right; exact Hl | exact He ].
Qed.

Lemma inStageOrder_same (s : Stage) (seg : Trace) :
  Forall (fun ev => stage ev = s) seg -> inStageOrder seg = true.
Proof.
  induction 1 as [ | ev seg Hev Hseg IH ]; [ reflexivity | ].
  cbn [inStageOrder]. rewrite IH, andb_true_r.
  apply forallb_forall. intros ev' Hin. apply Nat.leb_le.
  rewrite Forall_forall in Hseg. rewrite (Hseg _ Hin), Hev. reflexivity.
Qed.

(** A segment of one stage in front of earlier interactions of no later
    stage. *)
Lemma inStageOrder_then (s : Stage) (a b : Trace) :
  Forall (fun ev => stage ev = s) a ->
  inStageOrder b = true ->
  Forall (fun ev => stageRank (stage ev) <= stageRank s) b ->
  inStageOrder (a ++ b) = true.
Proof.
  intros Ha Hb Hbound.
  apply inStageOrder_app; [ exact (inStageOrder_same Ha) | exact Hb | ].
  intros later earlier Hl He.
  rewrite Forall_forall in Ha, Hbound.
  rewrite (Ha _ Hl). apply Hbound. exact He.
Qed.

Lemma stage_bound (s : Stage) (k : nat) (seg : Trace) :
  Forall (fun ev => stage ev = s) seg ->
  stageRank s <= k ->
  Forall (fun ev => stageRank (stage ev) <= k) seg.
Proof.
  intros Hseg Hk. eapply Forall_impl; [ | exact Hseg ].
  intros ev Hev. cbv beta in Hev. rewrite Hev. exact Hk.
Qed.

Lemma retryUnlink_stage (file : File) (unlinked : option string) :
  Forall (fun ev => stage ev = Cleanup) (retryUnlink file unlinked).
Proof. unfold retryUnlink. destruct (Js.is_empty (path file)); repeat constructor. Qed.

Ltac one_stage :=
  first [ eassumption
        | apply retryUnlink_stage
        | eapply LoadRun_stage; eassumption
        | eapply PushRuns_stage; eassumption
        | repeat constructor ].

Ltac stages_bounded :=
  repeat (apply Forall_app; split);
  try (eapply stage_bound; [ one_stage | cbn [stage stageRank]; lia ]).

Ltac stages_in_order :=
  repeat (eapply inStageOrder_then; [ one_stage | | stages_bounded ]);
  try (eapply inStageOrder_same; one_stage).

Lemma ProcessRun_inStageOrder url file seg o :
  ProcessRun url file seg o -> inStageOrder seg = true.
Proof.
  intros H.
  destruct H as [ e | version segL lr u HL Hi
                  | version segL lr probe segR outs errs pws u HL Hne HR ].
  - reflexivity.
  - stages_in_order.
  - stages_in_order.
Qed.

Lemma ProcessRun_stages url file seg o :
  ProcessRun url file seg o ->
  Forall (fun ev => 1 <= stageRank (stage ev) <= 4) seg.
Proof.
  intros H. destruct (ProcessRun_engine_check H) as (answer & rest & -> & Hrest & _).
  apply Forall_app. split.
  - eapply Forall_impl; [ | exact Hrest ].
    intros ev [ Hev | [ Hev | Hev ] ]; rewrite Hev; cbn [stageRank]; lia.
  - repeat constructor; cbn [stage stageRank]; lia.
Qed.

(** X24. The stages of a request never interleave.  In every run of the
    upload route the interactions come in the order validation, engine
    check, loading, pushing, cleanup, response: once the pipeline has
    moved on to a stage it never goes back to an earlier one.  In
    particular nothing is loaded once pushing has begun, and no command is
    run on the tar after the attempt to unlink it. *)
Theorem request_stages_never_interleave :
  forall (w : World) (req_file : option File) (t : Trace),
    exists seg,
      postUploadDockerTar w req_file tt t = (Returned tt, tt, seg ++ t)
      /\ inStageOrder seg = true.
Proof.
  intros w req t.
  destruct (upload_runs w req t) as (seg & Hrun & Hshape).
  exists seg. split; [ exact Hrun | ].
  inversion Hshape as [ | f segV v HV Hv | f segV v e u HV Hv
                        | f segV segP d HV HP | f segV segP e u HV HP ]; subst.
  - reflexivity.
  - change ([EvRespond {| statusCode := 400;
                          body := ErrorBody "Invalid Docker tar file" (error v) |};
             EvUnlink (path f) None] ++ segV)
      with ([EvRespond {| statusCode := 400;
                          body := ErrorBody "Invalid Docker tar file" (error v) |}]
            ++ [EvUnlink (path f) None] ++ segV).
    stages_in_order.
  - stages_in_order.
  - pose proof (ProcessRun_inStageOrder HP) as Hordered.
    pose proof (ProcessRun_stages HP) as Hstages.
    eapply inStageOrder_then; [ one_stage | | ].
    + apply inStageOrder_app; [ exact Hordered | exact (inStageOrder_same HV) | ].
      intros later earlier Hl He.
      rewrite Forall_forall in HV. rewrite (HV _ He). cbn [stageRank]. lia.
    + apply Forall_app. split.
      * eapply Forall_impl; [ | exact Hstages ].
        intros ev Hev. cbv beta in Hev. cbn [stage stageRank]. lia.
      * eapply stage_bound; [ exact HV | cbn [stage stageRank]; lia ].
  - inversion HP; subst. stages_in_order.
Qed.

(** ** Registry pusher: removing the local tags *)





(** ** The further properties at work *)

(** X1 at the healthy upload: the three checks it passed. *)
Lemma healthy_upload_passed_every_check :
  exists st head full,
    [EvExec (TarList (path sampleUpload)) (ok (line "blobs/sha256/0a1b"));
     EvExec (TarListHead (path sampleUpload)) (ok (line "blobs/sha256/0a1b"));
     EvStat (path sampleUpload) (inl {| isFile := true; size := 2048 |})]
    = [EvExec (TarList (path sampleUpload)) (ExecOk full);
       EvExec (TarListHead (path sampleUpload)) (ExecOk head);
       EvStat (path sampleUpload) (inl st)]
    /\ isFile st = true
    /\ (0 < size st <= max_tar_size)%N
    /\ error valid = None.
Proof.
  apply (@accepted_upload_passed_every_check healthy unit (path sampleUpload) tt tt []
           [EvExec (TarList (path sampleUpload)) (ok (line "blobs/sha256/0a1b"));
            EvExec (TarListHead (path sampleUpload)) (ok (line "blobs/sha256/0a1b"));
            EvStat (path sampleUpload) (inl {| isFile := true; size := 2048 |})]
           valid).
  - vm_compute. reflexivity.
  - reflexivity.
Defined.

(** X3 at the healthy upload of 2048 bytes. *)
Lemma small_upload_is_not_too_large :
  (2048 <= Upload.fileSizeLimit)%N
  /\ error valid <> Some "Tar file is too large (max 5GB)"%string.
Proof.
  assert (Hsize : (2048 <= Upload.fileSizeLimit)%N).
  { apply N.leb_le. reflexivity. }
  split; [ exact Hsize | ].
  apply (@upload_within_limit_is_never_too_large healthy unit (path sampleUpload) tt tt []
           [EvExec (TarList (path sampleUpload)) (ok (line "blobs/sha256/0a1b"));
            EvExec (TarListHead (path sampleUpload)) (ok (line "blobs/sha256/0a1b"));
            EvStat (path sampleUpload) (inl {| isFile := true; size := 2048 |})]
           {| isFile := true; size := 2048 |} valid).
  - reflexivity.
  - exact Hsize.
  - vm_compute. reflexivity.
Defined.

(** X5 at the image reported by id: both names come from its inspection. *)
Lemma inspected_names_are_usable :
  Forall (fun n => n <> EmptyString) ["myapp:1.2.0"; "myapp:latest"]%string
  /\ ((forall answer,
          ~ In (EvExec DockerImages answer)
               [EvExec (DockerInspect "sha256:0a1b2c") (ok (line "myapp:1.2.0 myapp:latest "));
                EvExec (DockerLoad (path sampleUpload))
                       (ok (line "Loaded image ID: sha256:0a1b2c"));
                EvPathExists (path sampleUpload) true]) ->
      Forall (fun n => n <> "<none>"%string) ["myapp:1.2.0"; "myapp:latest"]%string)
  /\ ((exists answer,
          In (EvExec DockerImages answer)
             [EvExec (DockerInspect "sha256:0a1b2c") (ok (line "myapp:1.2.0 myapp:latest "));
              EvExec (DockerLoad (path sampleUpload))
                     (ok (line "Loaded image ID: sha256:0a1b2c"));
              EvPathExists (path sampleUpload) true]) ->
      length ["myapp:1.2.0"; "myapp:latest"]%string <= 5
      /\ Forall (fun n => n <> "<none>:<none>"%string /\ Js.trim n <> EmptyString)
                ["myapp:1.2.0"; "myapp:latest"]%string).
Proof.
  apply (@fallback_names_are_usable reportedById unit (path sampleUpload) tt tt []
           [EvExec (DockerInspect "sha256:0a1b2c") (ok (line "myapp:1.2.0 myapp:latest "));
            EvExec (DockerLoad (path sampleUpload))
                   (ok (line "Loaded image ID: sha256:0a1b2c"));
            EvPathExists (path sampleUpload) true]
           {| images := ["myapp:1.2.0"; "myapp:latest"]%string;
              load_errors := []; load_warnings := [] |}
           {| stdout := line "Loaded image ID: sha256:0a1b2c"; stderr := "" |}).
  - vm_compute. reflexivity.
  - found.
  - vm_compute. reflexivity.
Defined.

(** X6 at the healthy upload: [myapp:1.2.0] is read back from the report. *)
Lemma healthy_load_reads_back_its_name :
  forallb isPlainName ["myapp:1.2.0"%string] = true
  /\ images {| images := ["myapp:1.2.0"%string]; load_errors := []; load_warnings := [] |}
     = ["myapp:1.2.0"%string]
  /\ load_errors {| images := ["myapp:1.2.0"%string]; load_errors := [];
                    load_warnings := [] |} = []
  /\ [EvExec (DockerLoad (path sampleUpload)) (ok (line "Loaded image: myapp:1.2.0"));
      EvPathExists (path sampleUpload) true]
     = [EvExec (DockerLoad (path sampleUpload))
               (ExecOk {| stdout := dockerLoadReport ["myapp:1.2.0"%string]; stderr := "" |});
        EvPathExists (path sampleUpload) true].
Proof.
  split; [ reflexivity | ].
  apply (@loader_reads_back_reported_names healthy unit (path sampleUpload) tt tt []
           [EvExec (DockerLoad (path sampleUpload)) (ok (line "Loaded image: myapp:1.2.0"));
            EvPathExists (path sampleUpload) true]
           {| images := ["myapp:1.2.0"%string]; load_errors := []; load_warnings := [] |}
           {| stdout := dockerLoadReport ["myapp:1.2.0"%string]; stderr := "" |}
           ["myapp:1.2.0"%string]).
  - vm_compute. reflexivity.
  - found.
  - reflexivity.
  - discriminate.
  - reflexivity.
Defined.

(** X10 at the healthy upload: one image loaded, two outcomes, both
    successful, no error. *)
Lemma healthy_result_counts_its_pushes :
  exists d,
    fst (fst (processDockerTarFile healthy sampleUpload tt [])) = Returned d
    /\ loadedImages d = ["myapp:1.2.0"%string]
    /\ length (pushedImages d) = 2 * length (loadedImages d)
    /\ successCount (pushedImages d) + 2 * length (errors d) = length (pushedImages d).
Proof.
  destruct (processDockerTarFile healthy sampleUpload tt []) as [[o r'] tr] eqn:E.
  assert (Hrun := E). vm_compute in E. injection E as <- _ <-.
  match type of Hrun with
  | _ = (Returned ?d, _, ?tr) =>
      destruct (@result_tells_nothing_loaded_from_loaded healthy unit sampleUpload tt r'
                  [] tr d)
        as [ (Hnone & _) | (_ & Hlen & Hsum & _) ];
      [ rewrite app_nil_r; exact Hrun
      | discriminate Hnone
      | exists d; cbn [fst]; split; [ reflexivity | ];
        split; [ reflexivity | ]; split; [ exact Hlen | exact Hsum ] ]
  end.
Defined.

(** X11 at [docker.io/library/myapp:1.2.0] and a registry on port 5000. *)
Lemma library_image_targets :
  originalLocalImageName "registry.local:5000" "myapp:1.2.0"
  = "registry.local:5000/myapp:1.2.0"%string
  /\ latestLocalImageName "registry.local:5000" "myapp:1.2.0"
     = "registry.local:5000/myapp:latest"%string
  /\ originalLocalImageName "registry.local:5000" "docker.io/library/myapp:1.2.0"
     = "registry.local:5000/myapp:1.2.0"%string
  /\ latestLocalImageName "registry.local:5000" "docker.io/library/myapp:1.2.0"
     = "registry.local:5000/myapp:latest"%string
  /\ originalLocalImageName "registry.local:5000" "myapp"
     = "registry.local:5000/myapp:latest"%string
  /\ originalLocalImageName "registry.local:5000" "docker.io/library/myapp"
     = "registry.local:5000/myapp:latest"%string
  /\ latestLocalImageName "registry.local:5000" "docker.io/library/myapp"
     = "registry.local:5000/myapp:latest"%string.
Proof.
  apply (@targets_of_reference "registry.local:5000" "docker.io/library" "myapp" "1.2.0");
    reflexivity.
Defined.

(** X13 at an upload named in capitals. *)
Lemma capital_extension_is_kept :
  Upload.fileFilter (Upload.storedFilename 1700000000000 "Image.TAR") = Upload.Accept
  /\ JsText.endsWith "Image.TAR" (Upload.storedFilename 1700000000000 "Image.TAR") = true.
Proof.
  apply (@stored_upload_keeps_extension 1700000000000 "Image.TAR"). reflexivity.
Defined.

(** X15 at a table whose only line misses the last two columns. *)
Lemma short_line_reads_unknown :
  exists image,
    Shell.parseImageTable
      (sampleHeader ++ String Js.lf ("myapp:1.2.0" ++ String JsText.tab "0a1b2c3d4e5f"))%string
    = [image]
    /\ Shell.size image = "unknown"%string
    /\ Shell.name image <> EmptyString /\ Shell.id image <> EmptyString
    /\ Shell.size image <> EmptyString /\ Shell.created image <> EmptyString
    /\ exists line,
        In line (tl (Js.split Js.lf
                       (sampleHeader
                        ++ String Js.lf ("myapp:1.2.0" ++ String JsText.tab "0a1b2c3d4e5f"))%string))
        /\ Js.trim line <> EmptyString
        /\ image = Shell.parseImageLine line.
Proof.
  eexists. split; [ vm_compute; reflexivity | ]. split; [ reflexivity | ].
  apply (@listed_images_have_every_field
           (sampleHeader ++ String Js.lf ("myapp:1.2.0" ++ String JsText.tab "0a1b2c3d4e5f"))%string).
  vm_compute. left. reflexivity.
Defined.

(** X16 at the table of one image. *)
Lemma one_row_table_round_trip :
  isRow sampleRow = true
  /\ Shell.parseImageTable (renderTable sampleHeader [sampleRow]) = [sampleRow].
Proof.
  split; [ reflexivity | ].
  apply (@image_table_round_trip sampleHeader [sampleRow]); reflexivity.
Defined.

(** X22 at the healthy upload: the dashboard reads one image and two
    pushes. *)
Lemma healthy_upload_shows_two_pushes :
  exists d tail,
    fst (fst (processDockerTarFile healthy sampleUpload tt [])) = Returned d
    /\ Dashboard.uploadMessage uploadedMessage d
       = ("Success: " ++ uploadedMessage
          ++ String Js.lf "Loaded 1 images, pushed 2 to registry" ++ tail)%string
    /\ (tail = EmptyString <-> errors d = [] /\ warnings d = []).
Proof.
  destruct (processDockerTarFile healthy sampleUpload tt []) as [[o r'] tr] eqn:E.
  assert (Hrun := E). vm_compute in E. injection E as <- _ <-.
  match type of Hrun with
  | _ = (Returned ?d, _, ?tr) =>
      destruct (@dashboard_counts_two_pushes_per_image healthy unit sampleUpload tt r'
                  [] tr d uploadedMessage)
        as (tail & Hmessage & Htail);
      [ rewrite app_nil_r; exact Hrun
      | exists d, tail; cbn [fst]; split; [ reflexivity | ];
        split; [ rewrite Hmessage; reflexivity | exact Htail ] ]
  end.
Defined.
